(** * filerix: validated create / read / delete of files

    A shallow embedding of [filerix/utils.py] and [filerix/core.py].

    - Python [str] values are lists of Unicode code points ([pystr]).
    - Python exceptions are the values of [exn]; a call either returns or
      raises ([result]), and the calls that touch the disk thread the
      file system through the [io] monad.
    - The file system is a finite map from resolved paths to nodes; the
      step [Path(path).expanduser().resolve()] is taken as done: every path
      of the model is absolute and canonical, so the [TypeError] the
      library raises for an argument that is no path has no place here.
    - The system calls behave as on a POSIX system: [unlink] on a
      directory gives [IsADirectoryError], a line feed is written as it is.
      A node carries what [os.access] answers for reading and writing;
      the right to search a directory is not modelled.
    - [json.dumps], [json.loads], the codecs and [pathlib] are those of
      the Python standard library, written out as far as the library uses
      them.

    What the model leaves out, and what the statements say only within
    it:
    - the disk holds regular files and directories only (no device, pipe
      or socket); a name is any string, with no bound on its length; a
      directory or a file that is made can be read and written (the
      default [umask]); [os.stat] fails with [FileNotFoundError] or
      [NotADirectoryError] and with nothing else;
    - the encodings are UTF-8, ASCII and Latin-1: [encoding] is any string
      in the library, and a name that is no codec, or a codec that cannot
      encode the text, makes [write_text] fail after the file was opened;
    - a float is carried as the decimal text that denotes it, see [json];
    - the [RecursionError] of [json.dumps] and [json.loads] on a value that
      is nested too deep is not modelled: the statements that need them
      to return bound the nesting. *)

From Stdlib Require Import ZArith NArith List Bool Lia Ascii String Decimal DecimalN DecimalZ.
From Stdlib Require Import Strings.Byte.
From stdpp Require Import base option gmap strings list.

Local Open Scope N_scope.

(** ** Text *)

(** A Python [str]: a sequence of code points. *)
Abbreviation pystr := (list N).

Definition TAB : N := 9.
Definition LF : N := 10.
Definition CR : N := 13.
Definition SP : N := 32.

(** The code points of an ASCII literal. *)
Fixpoint cps (s : string) : pystr :=
  match s with
  | EmptyString => []
  | String a s' => N_of_ascii a :: cps s'
  end.

(** The class [[^\x20-\x7E\t\n]] of line 40 is the complement of [keep_char]. *)
Definition keep_char (c : N) : bool :=
  ((0x20 <=? c) && (c <=? 0x7E)) || (c =? TAB) || (c =? LF).

(** [re.sub(r'[^\x20-\x7E\t\n]', '', s)] *)
Definition strip_control (s : pystr) : pystr := filter (fun c => keep_char c = true) s.

Fixpoint starts_with (pre s : pystr) : bool :=
  match pre, s with
  | [], _ => true
  | a :: pre', b :: s' => (a =? b) && starts_with pre' s'
  | _ :: _, [] => false
  end.

(** [s.replace(old, new)] for a non-empty [old]: the occurrences are taken
    from left to right and do not overlap.  [skip] counts the characters of
    an occurrence that are still to be passed over. *)
Fixpoint replace_from (old new : pystr) (skip : nat) (s : pystr) : pystr :=
  match s with
  | [] => []
  | c :: t =>
      match skip with
      | S k => replace_from old new k t
      | O =>
          if starts_with old s
          then new ++ replace_from old new (Nat.pred (length old)) t
          else c :: replace_from old new O t
      end
  end.

Definition replace (old new s : pystr) : pystr := replace_from old new O s.

(** Line 43: [s.replace('\r\n', '\n').replace('\r', '\n')]. *)
Definition normalize_newlines (s : pystr) : pystr :=
  replace [CR] [LF] (replace [CR; LF] [LF] s).

(** [re.sub] of a pattern [C{min,}] (a character class repeated at least
    [min >= 1] times, greedy) by a fixed text: every maximal run of
    characters of the class that is long enough is replaced.  [run] is the
    run read so far. *)
Definition flush_run (min : nat) (repl run : pystr) : pystr :=
  if (min <=? length run)%nat then repl else run.

Fixpoint sub_runs (cls : N -> bool) (min : nat) (repl run s : pystr) : pystr :=
  match s with
  | [] => flush_run min repl run
  | c :: t =>
      if cls c then sub_runs cls min repl (run ++ [c]) t
      else flush_run min repl run ++ c :: sub_runs cls min repl [] t
  end.

Definition is_newline (c : N) : bool := c =? LF.
Definition is_blank (c : N) : bool := (c =? SP) || (c =? TAB).

(** [re.sub(r'\n{2,}', '\n', s)] *)
Definition collapse_newlines (s : pystr) : pystr := sub_runs is_newline 2 [LF] [] s.

(** [re.sub(r'[ \t]+', ' ', s)] *)
Definition collapse_blanks (s : pystr) : pystr := sub_runs is_blank 1 [SP] [] s.

(** [str.isspace] on one code point: the characters [str.strip()] removes. *)
Definition is_space (c : N) : bool :=
  ((0x09 <=? c) && (c <=? 0x0D)) || ((0x1C <=? c) && (c <=? 0x20))
  || (c =? 0x85) || (c =? 0xA0) || (c =? 0x1680)
  || ((0x2000 <=? c) && (c <=? 0x200A))
  || (c =? 0x2028) || (c =? 0x2029) || (c =? 0x202F) || (c =? 0x205F) || (c =? 0x3000).

Fixpoint lstrip (s : pystr) : pystr :=
  match s with
  | [] => []
  | c :: t => if is_space c then lstrip t else s
  end.

Definition rstrip (s : pystr) : pystr := reverse (lstrip (reverse s)).

(** [s.strip()] *)
Definition strip (s : pystr) : pystr := rstrip (lstrip s).

Definition is_empty (s : pystr) : bool := match s with [] => true | _ :: _ => false end.

(** [sep.join(chunks)] *)
Fixpoint join (sep : pystr) (chunks : list pystr) : pystr :=
  match chunks with
  | [] => []
  | [x] => x
  | x :: rest => x ++ sep ++ join sep rest
  end.

(** ** Numbers as text *)

Fixpoint uint_cps (u : Decimal.uint) : pystr :=
  match u with
  | Nil => []
  | D0 u => 48 :: uint_cps u
  | D1 u => 49 :: uint_cps u
  | D2 u => 50 :: uint_cps u
  | D3 u => 51 :: uint_cps u
  | D4 u => 52 :: uint_cps u
  | D5 u => 53 :: uint_cps u
  | D6 u => 54 :: uint_cps u
  | D7 u => 55 :: uint_cps u
  | D8 u => 56 :: uint_cps u
  | D9 u => 57 :: uint_cps u
  end.

(** The decimal text of an integer. *)
Definition str_int (n : Z) : pystr :=
  match Z.to_int n with
  | Decimal.Pos u => uint_cps u
  | Decimal.Neg u => 45 :: uint_cps u
  end.

(** [sys.get_int_max_str_digits()], as the interpreter starts: the
    conversions between [int] and [str] raise [ValueError] for a number of
    more digits. *)
Definition int_max_str_digits : N := 4300.

Definition int_fits (n : Z) : bool :=
  N.of_nat (length (str_int (Z.abs n))) <=? int_max_str_digits.

(** [str(n)] and [int.__repr__(n)], the latter being what [json.dumps]
    writes for an [int]; [None] stands for the [ValueError] of the limit. *)
Definition int_to_str (n : Z) : option pystr :=
  if int_fits n then Some (str_int n) else None.

(** ** Codecs *)

(** The text encodings of the model; [read_file] and [create_file] take the
    codec by name, with ['utf-8'] as the default. *)
Inductive codec := Utf8 | Ascii | Latin1.

Abbreviation bytes := (list byte).

Definition is_cont (b : N) : bool := (0x80 <=? b) && (b <=? 0xBF).
Definition in_range (lo hi b : N) : bool := (lo <=? b) && (b <=? hi).

(** [bytes.decode('utf-8')], strict: overlong forms, surrogates and values
    above U+10FFFF are rejected. *)
Fixpoint utf8_decode (bs : bytes) : option pystr :=
  match bs with
  | [] => Some []
  | x0 :: t0 =>
      let b0 := Byte.to_N x0 in
      if b0 <? 0x80 then cons b0 <$> utf8_decode t0
      else if in_range 0xC2 0xDF b0 then
        match t0 with
        | x1 :: t1 =>
            let b1 := Byte.to_N x1 in
            if is_cont b1
            then cons ((b0 - 0xC0) * 64 + (b1 - 0x80)) <$> utf8_decode t1
            else None
        | _ => None
        end
      else if in_range 0xE0 0xEF b0 then
        match t0 with
        | x1 :: x2 :: t2 =>
            let b1 := Byte.to_N x1 in
            let b2 := Byte.to_N x2 in
            if in_range (if b0 =? 0xE0 then 0xA0 else 0x80)
                        (if b0 =? 0xED then 0x9F else 0xBF) b1 && is_cont b2
            then cons ((b0 - 0xE0) * 4096 + (b1 - 0x80) * 64 + (b2 - 0x80))
                   <$> utf8_decode t2
            else None
        | _ => None
        end
      else if in_range 0xF0 0xF4 b0 then
        match t0 with
        | x1 :: x2 :: x3 :: t3 =>
            let b1 := Byte.to_N x1 in
            let b2 := Byte.to_N x2 in
            let b3 := Byte.to_N x3 in
            if in_range (if b0 =? 0xF0 then 0x90 else 0x80)
                        (if b0 =? 0xF4 then 0x8F else 0xBF) b1
               && is_cont b2 && is_cont b3
            then cons ((b0 - 0xF0) * 262144 + (b1 - 0x80) * 4096
                       + (b2 - 0x80) * 64 + (b3 - 0x80))
                   <$> utf8_decode t3
            else None
        | _ => None
        end
      else None
  end.

Definition bytes_of_Ns (ns : list N) : option bytes := mapM Byte.of_N ns.

Definition utf8_encode_char (c : N) : option bytes :=
  if c <? 0x80 then bytes_of_Ns [c]
  else if c <? 0x800 then bytes_of_Ns [0xC0 + c / 64; 0x80 + c mod 64]
  else if c <? 0x10000 then
    if in_range 0xD800 0xDFFF c then None
    else bytes_of_Ns [0xE0 + c / 4096; 0x80 + (c / 64) mod 64; 0x80 + c mod 64]
  else if c <? 0x110000 then
    bytes_of_Ns [0xF0 + c / 262144; 0x80 + (c / 4096) mod 64;
                 0x80 + (c / 64) mod 64; 0x80 + c mod 64]
  else None.

(** [s.encode(codec)]: [None] stands for [UnicodeEncodeError]. *)
Definition encode (enc : codec) (s : pystr) : option bytes :=
  match enc with
  | Utf8 => @concat byte <$> mapM utf8_encode_char s
  | Ascii => mapM (fun c => if c <? 0x80 then Byte.of_N c else None) s
  | Latin1 => mapM Byte.of_N s
  end.

(** [b.decode(codec)]: [None] stands for [UnicodeDecodeError]. *)
Definition decode (enc : codec) (b : bytes) : option pystr :=
  match enc with
  | Utf8 => utf8_decode b
  | Ascii => mapM (fun x => if Byte.to_N x <? 0x80 then Some (Byte.to_N x) else None) b
  | Latin1 => Some (map Byte.to_N b)
  end.

(** ** JSON values and [json.dumps] *)

(** What a [dict] or a [list] handed to the library is built from: [None],
    booleans, integers, floats, strings, lists and dicts with string keys.
    A float is carried as a decimal text that denotes it: the text [repr]
    prints for it ([1.5], [1e+16], [inf], [nan]) when the value comes from
    the caller, and the literal that was read when it comes from the
    decoder.  [float(repr(x)) == x] for every float but NaN, so two values
    of the model that are equal stand for equal Python values as long as no
    NaN is among them; two texts may denote the same float, and nothing is
    concluded here from two values being different.  [JOpaque] is any
    object [json.dumps] has no encoding for (a set, a [bytes] value, ...).
    A dict is the list of its items in insertion order. *)
#[local] Unset Elimination Schemes.
Inductive json :=
| JNull
| JBool (b : bool)
| JInt (n : Z)
| JFloat (repr : pystr)
| JStr (s : pystr)
| JList (items : list json)
| JDict (items : list (pystr * json))
| JOpaque.
#[local] Set Elimination Schemes.

Definition hex_digit (n : N) : N := if n <? 10 then 48 + n else 87 + n.

(** [ESCAPE_DCT] of [json.encoder]: the replacement of a character matched by
    [ESCAPE] (the backslash, the double quote and the characters below
    U+0020); other characters stand for themselves, non-ASCII ones included
    ([ensure_ascii=False]). *)
Definition escape_char (c : N) : pystr :=
  if c =? 0x5C then [0x5C; 0x5C]
  else if c =? 0x22 then [0x5C; 0x22]
  else if c =? 0x08 then [0x5C; 0x62]
  else if c =? 0x0C then [0x5C; 0x66]
  else if c =? 0x0A then [0x5C; 0x6E]
  else if c =? 0x0D then [0x5C; 0x72]
  else if c =? 0x09 then [0x5C; 0x74]
  else if c <? 0x20 then [0x5C; 0x75; 48; 48; hex_digit (c / 16); hex_digit (c mod 16)]
  else [c].

(** [encode_basestring(s)]: the quoted JSON form of a string. *)
Definition encode_basestring (s : pystr) : pystr :=
  0x22 :: concat (map escape_char s) ++ [0x22].

(** ['\n' + ' ' * (indent * level)], or nothing without indentation. *)
Definition newline_indent (indent : option nat) (level : nat) : pystr :=
  match indent with
  | Some w => LF :: repeat SP (w * level)
  | None => []
  end.

Definition item_separator (indent : option nat) : pystr :=
  match indent with
  | Some _ => [0x2C]
  | None => [0x2C; SP]
  end.

Definition key_separator : pystr := [0x3A; SP].

(** [floatstr] of [json.encoder], with [allow_nan=True]: [float.__repr__]
    for a finite float and the JavaScript names for the others. *)
Definition float_json (repr : pystr) : pystr :=
  if decide (repr = cps "nan") then cps "NaN"
  else if decide (repr = cps "inf") then cps "Infinity"
  else if decide (repr = cps "-inf") then cps "-Infinity"
  else repr.

(** [json.dumps(v, ensure_ascii=False, indent=indent)] at nesting depth
    [level]; [None] when the call raises: some object in [v] has no JSON
    encoding, or an integer has more digits than [int.__repr__] takes.
    The [RecursionError] of a value nested deeper than the interpreter's
    stack allows is not in the model: how deep that is depends on the
    recursion limit and on the call, and the statements that need the
    encoder to return bound the nesting of the value. *)
Fixpoint encode_json (indent : option nat) (level : nat) (v : json) {struct v} : option pystr :=
  match v with
  | JNull => Some (cps "null")
  | JBool true => Some (cps "true")
  | JBool false => Some (cps "false")
  | JInt n => int_to_str n
  | JFloat r => Some (float_json r)
  | JStr s => Some (encode_basestring s)
  | JList [] => Some (cps "[]")
  | JList items =>
      chunks ← mapM (encode_json indent (S level)) items;
      Some (0x5B :: newline_indent indent (S level)
              ++ join (item_separator indent ++ newline_indent indent (S level)) chunks
              ++ newline_indent indent level ++ [0x5D])
  | JDict [] => Some (cps "{}")
  | JDict items =>
      chunks ← mapM (fun kv => (fun s => encode_basestring (fst kv) ++ key_separator ++ s)
                                  <$> encode_json indent (S level) (snd kv)) items;
      Some (0x7B :: newline_indent indent (S level)
              ++ join (item_separator indent ++ newline_indent indent (S level)) chunks
              ++ newline_indent indent level ++ [0x7D])
  | JOpaque => None
  end.

Definition dumps (indent : option nat) (v : json) : option pystr := encode_json indent 0 v.

(** ** Paths and exceptions *)

(** A resolved path: the root, or an entry [name] of the directory [parent]. *)
Inductive path :=
| Root
| Child (parent : path) (name : string).

(** [path.parent]: the root is its own parent. *)
Definition parent_of (p : path) : path :=
  match p with
  | Root => Root
  | Child q _ => q
  end.

(** [path.name]: the final segment, empty for the root. *)
Definition name_of (p : path) : string :=
  match p with
  | Root => EmptyString
  | Child _ n => n
  end.

(** [name.startswith('.')] *)
Definition starts_with_dot (n : string) : bool :=
  match n with
  | String a _ => Ascii.eqb a "."%char
  | EmptyString => false
  end.

(** The three messages [_sanitize_content] gives a [TypeError]. *)
Inductive type_error :=
| JsonConversionFailed    (* 'Falha ao converter estrutura JSON: ...' *)
| BytesNotUtf8            (* 'Bytes devem estar codificados em UTF-8' *)
| UnsupportedContentType  (* 'Tipo de conteudo nao suportado: ...' *)
| WrongArgumentCount.     (* raised by a built-in called with too few arguments *)

(** The exceptions of the program: the built-in classes it raises or
    catches, and its own [PathValidationError(path, reason)].  A reason is
    one of the fixed messages of the source; the messages that quote the
    error they wrap carry it as [cause]. *)
Inductive exn :=
| TypeError (t : type_error)
| ValueError                 (* 'O conteudo final esta vazio apos a sanitizacao',
                                and what [str] raises beyond the digit limit *)
| UnicodeDecodeError         (* a subclass of ValueError *)
| UnicodeEncodeError         (* a subclass of ValueError *)
| FileNotFoundError          (* the subclasses of OSError *)
| PermissionError
| IsADirectoryError
| NotADirectoryError
| FileExistsError
| PathValidationError (p : path) (r : reason)
with reason :=
| PathDoesNotExist           (* 'O caminho nao existe' *)
| ExpectedFile               (* 'Esperado arquivo, mas nao e.' *)
| ExpectedDirectory          (* 'Esperado diretorio, mas nao e.' *)
| HiddenNotAllowed           (* 'O caminho e oculto e nao e permitido.' *)
| NotReadablePath            (* 'O caminho nao e legivel.' *)
| NotWritablePath            (* 'O caminho nao e gravavel.' *)
| ExistsButNotDirectory      (* 'O caminho existe, mas nao e um diretorio' *)
| DirectoryAlreadyExists     (* 'O diretorio ja existe' *)
| DirectoryMissingNoCreate   (* 'O diretorio nao existe e nao e permitido criar' *)
| MkdirPermissionDenied      (* 'Permissao negada para criar o diretorio' *)
| MkdirFailed (cause : exn)  (* 'Erro ao criar o diretorio: {error}' *)
| FileExistsNoOverwrite      (* 'O arquivo ja existe e sobrescrita nao e permitida.' *)
| CreatePermissionDenied     (* 'Permissao negada para criar o arquivo.' *)
| CreateTargetIsDirectory    (* 'O caminho especificado e um diretorio.' *)
| CreateUnknownError (cause : exn) (* 'Erro desconhecido ao criar o arquivo: {error}' *)
| ReadPermissionDenied       (* 'Sem permissao para leitura do arquivo' *)
| ReadFailed (cause : exn)   (* 'Erro ao ler o arquivo: {error}' *)
| DeleteTargetIsDirectory    (* 'O caminho especificado e um diretorio' *)
| DeletePermissionDenied     (* 'Sem permissao para deletar o arquivo' *)
| DeleteFailed (cause : exn). (* 'Erro ao deletar o arquivo: {error}' *)

(** [isinstance(e, OSError)] *)
Definition is_OSError (e : exn) : bool :=
  match e with
  | FileNotFoundError | PermissionError | IsADirectoryError
  | NotADirectoryError | FileExistsError => true
  | _ => false
  end.

(** [isinstance(e, ValueError)] *)
Definition is_ValueError (e : exn) : bool :=
  match e with
  | ValueError | UnicodeDecodeError | UnicodeEncodeError => true
  | _ => false
  end.

(** The error kinds of the specification (section 7). *)
Inductive error_kind :=
| InvalidInputKind | NotFound | WrongKind | HiddenRejected | NotReadable
| NotWritable | AlreadyExists | UnsupportedType | InvalidEncoding
| EmptyContent | DirectoryCreateFailed | IsADirectory | DecodeError | OtherFailure.

(** The kind an exception of the program stands for. *)
Definition kind_of (e : exn) : error_kind :=
  match e with
  | PathValidationError _ PathDoesNotExist => NotFound
  | PathValidationError _ DirectoryMissingNoCreate => NotFound
  | FileNotFoundError => NotFound
  | PathValidationError _ ExpectedFile => WrongKind
  | PathValidationError _ ExpectedDirectory => WrongKind
  | PathValidationError _ ExistsButNotDirectory => WrongKind
  | PathValidationError _ HiddenNotAllowed => HiddenRejected
  | PathValidationError _ NotReadablePath => NotReadable
  | PathValidationError _ ReadPermissionDenied => NotReadable
  | PathValidationError _ NotWritablePath => NotWritable
  | PathValidationError _ CreatePermissionDenied => NotWritable
  | PathValidationError _ DeletePermissionDenied => NotWritable
  | PathValidationError _ FileExistsNoOverwrite => AlreadyExists
  | PathValidationError _ DirectoryAlreadyExists => AlreadyExists
  | PathValidationError _ MkdirPermissionDenied => DirectoryCreateFailed
  | PathValidationError _ (MkdirFailed _) => DirectoryCreateFailed
  | PathValidationError _ CreateTargetIsDirectory => IsADirectory
  | PathValidationError _ DeleteTargetIsDirectory => IsADirectory
  | TypeError UnsupportedContentType => UnsupportedType
  | TypeError JsonConversionFailed => UnsupportedType
  | TypeError BytesNotUtf8 => InvalidEncoding
  | ValueError => EmptyContent
  | UnicodeDecodeError => DecodeError
  | _ => OtherFailure
  end.

Inductive result (A : Type) :=
| Ok (a : A)
| Raise (e : exn).
Arguments Ok {A} a.
Arguments Raise {A} e.

(** ** Content sanitization ([utils.py], lines 7-53) *)

(** The values [_sanitize_content] can be handed, by the class the
    [isinstance] tests see.  A float stands as the text [str] gives for it;
    [COther] is a value of any other class. *)
Inductive content :=
| CDict (items : list (pystr * json))
| CList (items : list json)
| CStr (s : pystr)
| CInt (n : Z)
| CFloat (repr : pystr)
| CBool (b : bool)
| CNone
| CBytes (b : bytes)
| COther.

(** Lines 24-37: the conversion of the content to a string. *)
Definition content_to_str (c : content) (compact : bool) : result pystr :=
  let indent := if compact then None else Some 2%nat in
  match c with
  | CDict items =>
      match dumps indent (JDict items) with
      | Some s => Ok s
      | None => Raise (TypeError JsonConversionFailed)
      end
  | CList items =>
      match dumps indent (JList items) with
      | Some s => Ok s
      | None => Raise (TypeError JsonConversionFailed)
      end
  | CStr s => Ok s
  | CInt n =>
      match int_to_str n with
      | Some s => Ok s
      | None => Raise ValueError
      end
  | CFloat repr => Ok repr
  | CBool true => Ok (cps "True")
  | CBool false => Ok (cps "False")
  | CNone => Ok (cps "None")
  | CBytes b =>
      match utf8_decode b with
      | Some s => Ok s
      | None => Raise (TypeError BytesNotUtf8)
      end
  | COther => Raise (TypeError UnsupportedContentType)
  end.

(** Lines 40-48: what is done to the converted string. *)
Definition clean (compact : bool) (s : pystr) : pystr :=
  let s := strip_control s in
  let s := normalize_newlines s in
  if compact then strip (collapse_blanks (collapse_newlines s)) else s.

Definition _sanitize_content (c : content) (compact : bool) : result pystr :=
  match content_to_str c compact with
  | Raise e => Raise e
  | Ok content_str =>
      let content_str := clean compact content_str in
      if is_empty (strip content_str) then Raise ValueError else Ok content_str
  end.

(** ** The file system *)

(** What [os.access] answers for the running process. *)
Record perms := Perms { r_ok : bool; w_ok : bool }.

Definition rw : perms := Perms true true.

Inductive node :=
| File (data : bytes) (pm : perms)
| Dir (pm : perms).

Fixpoint segments (p : path) : list string :=
  match p with
  | Root => []
  | Child q n => n :: segments q
  end.

Fixpoint of_segments (l : list string) : path :=
  match l with
  | [] => Root
  | n :: l' => Child (of_segments l') n
  end.

#[global] Instance path_eq_dec : EqDecision path.
Proof. solve_decision. Defined.

#[global] Instance path_countable : Countable path.
Proof.
  apply (inj_countable' segments of_segments).
  intros p; induction p as [|q IH n]; simpl; [reflexivity | now rewrite IH].
Defined.

(** The entries of the disk, by resolved path.  The root directory is always
    there and is not an entry. *)
Abbreviation filesystem := (gmap path node).

(** [os.stat(p)]: the walk from the root.  A missing component gives
    [FileNotFoundError], a component below a regular file
    [NotADirectoryError]. *)
Fixpoint stat (fs : filesystem) (p : path) : result node :=
  match p with
  | Root => Ok (Dir rw)
  | Child q _ =>
      match stat fs q with
      | Ok (Dir _) =>
          match fs !! p with
          | Some nd => Ok nd
          | None => Raise FileNotFoundError
          end
      | Ok (File _ _) => Raise NotADirectoryError
      | Raise e => Raise e
      end
  end.

(** [path.exists()] *)
Definition path_exists (fs : filesystem) (p : path) : bool :=
  match stat fs p with Ok _ => true | Raise _ => false end.

(** [path.is_file()] *)
Definition is_file (fs : filesystem) (p : path) : bool :=
  match stat fs p with Ok (File _ _) => true | _ => false end.

(** [path.is_dir()] *)
Definition is_dir (fs : filesystem) (p : path) : bool :=
  match stat fs p with Ok (Dir _) => true | _ => false end.

Definition node_perms (nd : node) : perms :=
  match nd with File _ pm => pm | Dir pm => pm end.

(** [os.access(path, os.R_OK)] and [os.access(path, os.W_OK)] *)
Definition access_r (fs : filesystem) (p : path) : bool :=
  match stat fs p with Ok nd => r_ok (node_perms nd) | Raise _ => false end.

Definition access_w (fs : filesystem) (p : path) : bool :=
  match stat fs p with Ok nd => w_ok (node_perms nd) | Raise _ => false end.

(** A disk is a tree: every entry lies in a directory. *)
Definition tree_shaped (fs : filesystem) : Prop :=
  map_Forall (fun p _ => is_dir fs (parent_of p) = true) fs.

#[global] Instance tree_shaped_dec (fs : filesystem) : Decision (tree_shaped fs).
Proof. unfold tree_shaped. apply _. Defined.

(** ** Calls that touch the disk *)

Definition io (A : Type) : Type := filesystem -> result A * filesystem.

Definition ret {A} (a : A) : io A := fun fs => (Ok a, fs).

Definition raise {A} (e : exn) : io A := fun fs => (Raise e, fs).

Definition bind {A B} (m : io A) (k : A -> io B) : io B :=
  fun fs =>
    match m fs with
    | (Ok a, fs') => k a fs'
    | (Raise e, fs') => (Raise e, fs')
    end.

(** [try: m  except ... : h e] *)
Definition try_except {A} (m : io A) (h : exn -> io A) : io A :=
  fun fs =>
    match m fs with
    | (Ok a, fs') => (Ok a, fs')
    | (Raise e, fs') => h e fs'
    end.

(** A call that only looks at the disk. *)
Definition reads {A} (f : filesystem -> result A) : io A := fun fs => (f fs, fs).

(** A call that does not look at the disk. *)
Definition pure {A} (r : result A) : io A := fun fs => (r, fs).

Notation "'let*' x ':=' m 'in' k" := (bind m (fun x => k))
  (at level 10, x pattern, m at level 100, k at level 200).

(** [os.mkdir(p)] *)
Definition os_mkdir (p : path) : io unit :=
  fun fs =>
    match stat fs p with
    | Ok _ => (Raise FileExistsError, fs)
    | Raise NotADirectoryError => (Raise NotADirectoryError, fs)
    | Raise _ =>
        match stat fs (parent_of p) with
        | Ok (Dir pm) =>
            if w_ok pm then (Ok tt, <[p := Dir rw]> fs)
            else (Raise PermissionError, fs)
        | Ok (File _ _) => (Raise NotADirectoryError, fs)
        | Raise e => (Raise e, fs)
        end
    end.

(** The handler [except OSError] of [Path.mkdir]: an error is dropped when
    [exist_ok] is set and the path is a directory. *)
Definition mkdir_tolerate (exist_ok : bool) (p : path) (e : exn) : io unit :=
  fun fs =>
    if negb exist_ok || negb (is_dir fs p) then (Raise e, fs) else (Ok tt, fs).

(** [p.mkdir(parents=False, exist_ok=exist_ok)] *)
Definition mkdir_single (exist_ok : bool) (p : path) : io unit :=
  try_except (os_mkdir p)
    (fun e =>
       match e with
       | FileNotFoundError => raise FileNotFoundError
       | _ => if is_OSError e then mkdir_tolerate exist_ok p e else raise e
       end).

(** [p.mkdir(parents=True, exist_ok=exist_ok)], as [pathlib] has it: on
    [FileNotFoundError] the parent is made first, with its own missing
    ancestors, and the directory is made again. *)
Fixpoint mkdir_parents (exist_ok : bool) (p : path) : io unit :=
  try_except (os_mkdir p)
    (fun e =>
       match e with
       | FileNotFoundError =>
           match p with
           | Root => raise FileNotFoundError
           | Child q _ =>
               let* _ := mkdir_parents true q in
               mkdir_single exist_ok p
           end
       | _ => if is_OSError e then mkdir_tolerate exist_ok p e else raise e
       end).

(** [p.unlink()] *)
Definition unlink (p : path) : io unit :=
  fun fs =>
    match stat fs p with
    | Raise e => (Raise e, fs)
    | Ok nd =>
        if negb (access_w fs (parent_of p)) then (Raise PermissionError, fs)
        else match nd with
             | Dir _ => (Raise IsADirectoryError, fs)
             | File _ _ => (Ok tt, delete p fs)
             end
    end.

(** [p.read_bytes()] *)
Definition read_bytes (p : path) : io bytes :=
  fun fs =>
    match stat fs p with
    | Raise e => (Raise e, fs)
    | Ok (Dir _) => (Raise IsADirectoryError, fs)
    | Ok (File data pm) =>
        if r_ok pm then (Ok data, fs) else (Raise PermissionError, fs)
    end.

(** [p.read_text(encoding=enc)]: the bytes are decoded and, the file being
    opened in text mode, every line ending is read as a line feed. *)
Definition read_text (p : path) (enc : codec) : io pystr :=
  let* data := read_bytes p in
  match decode enc data with
  | Some s => ret (normalize_newlines s)
  | None => raise UnicodeDecodeError
  end.

(** Opening [p] for writing: the file is made, or emptied when it is there. *)
Definition open_w (p : path) : io unit :=
  fun fs =>
    match stat fs p with
    | Ok (Dir _) => (Raise IsADirectoryError, fs)
    | Ok (File _ pm) =>
        if w_ok pm then (Ok tt, <[p := File [] pm]> fs)
        else (Raise PermissionError, fs)
    | Raise NotADirectoryError => (Raise NotADirectoryError, fs)
    | Raise _ =>
        match stat fs (parent_of p) with
        | Ok (Dir pm) =>
            if w_ok pm then (Ok tt, <[p := File [] rw]> fs)
            else (Raise PermissionError, fs)
        | Ok (File _ _) => (Raise NotADirectoryError, fs)
        | Raise e' => (Raise e', fs)
        end
    end.

(** The bytes of the open file [p] become [data]. *)
Definition set_data (p : path) (data : bytes) : io unit :=
  fun fs =>
    match fs !! p with
    | Some (File _ pm) => (Ok tt, <[p := File data pm]> fs)
    | _ => (Raise FileNotFoundError, fs)
    end.

(** [p.write_text(s, encoding=enc)] where a line feed is written as it is:
    the file is opened, and so emptied, before the text is encoded. *)
Definition write_text (p : path) (s : pystr) (enc : codec) : io unit :=
  let* _ := open_w p in
  match encode enc s with
  | Some data => set_data p data
  | None => raise UnicodeEncodeError
  end.

(** ** Path validation ([utils.py], lines 171-216) *)

Definition _validate_path (fs : filesystem) (p : path)
    (must_exist : bool) (is_file_opt : option bool)
    (readable writable allow_hidden : bool) : result path :=
  if must_exist && negb (path_exists fs p)
  then Raise (PathValidationError p PathDoesNotExist)
  else
    match
      match is_file_opt with
      | Some true =>
          if negb (is_file fs p) then Some ExpectedFile else None
      | Some false =>
          if negb (is_dir fs p) then Some ExpectedDirectory else None
      | None => None
      end
    with
    | Some r => Raise (PathValidationError p r)
    | None =>
        if negb allow_hidden && starts_with_dot (name_of p)
        then Raise (PathValidationError p HiddenNotAllowed)
        else if readable && negb (access_r fs p)
        then Raise (PathValidationError p NotReadablePath)
        else if writable && negb (access_w fs p)
        then Raise (PathValidationError p NotWritablePath)
        else Ok p
    end.

(** ** Directory creation ([utils.py], lines 218-257) *)

Definition _ensure_directory (directory : path)
    (create_if_missing exist_ok : bool) : io path :=
  fun fs =>
    if path_exists fs directory then
      if negb (is_dir fs directory)
      then (Raise (PathValidationError directory ExistsButNotDirectory), fs)
      else if negb exist_ok
      then (Raise (PathValidationError directory DirectoryAlreadyExists), fs)
      else (Ok directory, fs)
    else if negb create_if_missing
    then (Raise (PathValidationError directory DirectoryMissingNoCreate), fs)
    else
      try_except
        (let* _ := mkdir_parents exist_ok directory in ret directory)
        (fun e =>
           match e with
           | PermissionError =>
               raise (PathValidationError directory MkdirPermissionDenied)
           | _ =>
               if is_OSError e
               then raise (PathValidationError directory (MkdirFailed e))
               else raise e
           end) fs.

(** ** The three operations ([core.py]) *)

Definition create_file (p : path) (c : content)
    (overwrite compact : bool) (encoding : codec) : io path :=
  try_except
    (let* found := reads (fun fs => Ok (path_exists fs p)) in
     if found && negb overwrite
     then raise (PathValidationError p FileExistsNoOverwrite)
     else
       let* _ := _ensure_directory (parent_of p) true true in
       let* safe_content := pure (_sanitize_content c compact) in
       let* _ := write_text p safe_content encoding in
       ret p)
    (fun error =>
       match error with
       | TypeError _ => raise error
       | PathValidationError _ _ => raise error
       | PermissionError => raise (PathValidationError p CreatePermissionDenied)
       | IsADirectoryError => raise (PathValidationError p CreateTargetIsDirectory)
       | _ =>
           if is_ValueError error then raise error
           else raise (PathValidationError p (CreateUnknownError error))
       end).

(** What [read_file] returns: [bytes] or [str]. *)
Inductive file_data :=
| Bytes (b : bytes)
| Text (s : pystr).

(** The call [UnicodeDecodeError(args)]: the class takes exactly five
    arguments (encoding, object, start, end, reason) and the call raises
    [TypeError] with any other number. *)
Definition new_UnicodeDecodeError (nargs : nat) : result exn :=
  if (nargs =? 5)%nat then Ok UnicodeDecodeError
  else Raise (TypeError WrongArgumentCount).

(** [raise C(args)]: the exception is built, then raised. *)
Definition raise_new {A} (built : result exn) : io A :=
  match built with
  | Ok e => raise e
  | Raise e => raise e
  end.

Definition read_file (p : path) (as_bytes : bool) (encoding : codec) : io file_data :=
  try_except
    (let* file_path := reads (fun fs => _validate_path fs p true (Some true) true false true) in
     if as_bytes
     then let* b := read_bytes file_path in ret (Bytes b)
     else let* s := read_text file_path encoding in ret (Text s))
    (fun e =>
       match e with
       | FileNotFoundError => raise FileNotFoundError
       | PermissionError => raise (PathValidationError p ReadPermissionDenied)
       | UnicodeDecodeError => raise_new (new_UnicodeDecodeError 1)
       | PathValidationError _ _ => raise e
       | _ => raise (PathValidationError p (ReadFailed e))
       end).

Definition delete_file (p : path) (ignore_missing : bool) : io bool :=
  try_except
    (let* file_path := reads (fun fs => _validate_path fs p true (Some true) false false true) in
     let* _ := unlink file_path in
     ret true)
    (fun e =>
       match e with
       | FileNotFoundError =>
           if ignore_missing then ret false else raise FileNotFoundError
       | IsADirectoryError => raise (PathValidationError p DeleteTargetIsDirectory)
       | PermissionError => raise (PathValidationError p DeletePermissionDenied)
       | PathValidationError _ _ => raise e
       | _ => raise (PathValidationError p (DeleteFailed e))
       end).

(** ** [json.loads] *)

(** The decoder of the [json] module with its default settings, on the
    values of the model.  A number with a fraction or an exponent is read
    as the float it denotes, [NaN] and the infinities as the floats of
    these names.  [None] stands for every exception of the decoder; as for
    the encoder, the [RecursionError] of a text nested too deep is not in
    the model. *)

Definition is_json_ws (c : N) : bool :=
  (c =? SP) || (c =? TAB) || (c =? LF) || (c =? CR).

Fixpoint skip_ws (s : pystr) : pystr :=
  match s with
  | [] => []
  | c :: t => if is_json_ws c then skip_ws t else s
  end.

Definition is_digit (c : N) : bool := (48 <=? c) && (c <=? 57).

Definition hex_val (c : N) : option N :=
  if is_digit c then Some (c - 48)
  else if in_range 97 102 c then Some (c - 87)
  else if in_range 65 70 c then Some (c - 55)
  else None.

Definition hex4 (a b c d : N) : option N :=
  match hex_val a, hex_val b, hex_val c, hex_val d with
  | Some x, Some y, Some z, Some w => Some (((x * 16 + y) * 16 + z) * 16 + w)
  | _, _, _, _ => None
  end.

(** [BACKSLASH] of [json.decoder]: the character an escape letter stands for. *)
Definition unescape (c : N) : option N :=
  if c =? 0x22 then Some 0x22
  else if c =? 0x5C then Some 0x5C
  else if c =? 0x2F then Some 0x2F
  else if c =? 0x62 then Some 0x08
  else if c =? 0x66 then Some 0x0C
  else if c =? 0x6E then Some 0x0A
  else if c =? 0x72 then Some 0x0D
  else if c =? 0x74 then Some 0x09
  else None.

Definition with_char (c : N) (r : option (pystr * pystr)) : option (pystr * pystr) :=
  match r with
  | Some (s, rest) => Some (c :: s, rest)
  | None => None
  end.

(** [scanstring], strict, from just after the opening quote: the string
    and what follows its closing quote.  A high surrogate escape followed by
    a low surrogate escape is read as one character. *)
Fixpoint scan_string (s : pystr) : option (pystr * pystr) :=
  match s with
  | [] => None
  | c :: t =>
      if c =? 0x22 then Some ([], t)
      else if c =? 0x5C then
        match t with
        | [] => None
        | e :: t1 =>
            if e =? 0x75 then
              match t1 with
              | h1 :: h2 :: h3 :: h4 :: t2 =>
                  match hex4 h1 h2 h3 h4 with
                  | None => None
                  | Some u =>
                      if in_range 0xD800 0xDBFF u then
                        match t2 with
                        | b :: u' :: g1 :: g2 :: g3 :: g4 :: t3 =>
                            if (b =? 0x5C) && (u' =? 0x75) then
                              match hex4 g1 g2 g3 g4 with
                              | None => None
                              | Some u2 =>
                                  if in_range 0xDC00 0xDFFF u2
                                  then with_char
                                         (0x10000 + (u - 0xD800) * 1024 + (u2 - 0xDC00))
                                         (scan_string t3)
                                  else with_char u (scan_string t2)
                              end
                            else with_char u (scan_string t2)
                        | _ => with_char u (scan_string t2)
                        end
                      else with_char u (scan_string t2)
                  end
              | _ => None
              end
            else
              match unescape e with
              | Some ch => with_char ch (scan_string t1)
              | None => None
              end
        end
      else if c <? 0x20 then None
      else with_char c (scan_string t)
  end.

Definition digit_cons (c : N) (u : Decimal.uint) : Decimal.uint :=
  if c =? 48 then D0 u else if c =? 49 then D1 u else if c =? 50 then D2 u
  else if c =? 51 then D3 u else if c =? 52 then D4 u else if c =? 53 then D5 u
  else if c =? 54 then D6 u else if c =? 55 then D7 u else if c =? 56 then D8 u
  else D9 u.

(** The longest run of digits in front of [s], and what follows it. *)
Fixpoint scan_digits (s : pystr) : Decimal.uint * pystr :=
  match s with
  | [] => (Nil, [])
  | c :: t =>
      if is_digit c
      then let (u, rest) := scan_digits t in (digit_cons c u, rest)
      else (Nil, s)
  end.

(** The integer part of [NUMBER_RE]: a lone zero, or digits that start
    with a digit other than zero. *)
Definition scan_int_part (s : pystr) : option (Decimal.uint * pystr) :=
  match s with
  | [] => None
  | c :: t =>
      if c =? 48 then Some (D0 Nil, t)
      else if in_range 49 57 c then Some (scan_digits s)
      else None
  end.

(** The digits in front of [s], as text, and what follows them. *)
Fixpoint span_digits (s : pystr) : pystr * pystr :=
  match s with
  | [] => ([], [])
  | c :: t =>
      if is_digit c
      then let (ds, rest) := span_digits t in (c :: ds, rest)
      else ([], s)
  end.

(** The fraction of [NUMBER_RE], [(\.[0-9]+)?]: what is matched, empty
    when there is no fraction, and what follows it. *)
Definition scan_frac (s : pystr) : pystr * pystr :=
  match s with
  | c :: t =>
      if (c =? 0x2E) && match t with d :: _ => is_digit d | [] => false end
      then let (ds, rest) := span_digits t in (c :: ds, rest)
      else ([], s)
  | [] => ([], s)
  end.

(** The exponent of [NUMBER_RE], [([eE][-+]?[0-9]+)?]. *)
Definition scan_exp (s : pystr) : pystr * pystr :=
  match s with
  | c :: t =>
      if (c =? 0x65) || (c =? 0x45) then
        match t with
        | d :: t' =>
            if is_digit d
            then let (ds, rest) := span_digits t in (c :: ds, rest)
            else if ((d =? 0x2B) || (d =? 0x2D))
                    && match t' with x :: _ => is_digit x | [] => false end
            then let (ds, rest) := span_digits t' in (c :: d :: ds, rest)
            else ([], s)
        | [] => ([], s)
        end
      else ([], s)
  | [] => ([], s)
  end.

(** A match of [NUMBER_RE]: with a fraction or an exponent the text that
    was matched is handed to [float], otherwise the integer part to [int],
    which raises for more digits than the conversion limit. *)
Definition scan_number (s : pystr) : option (json * pystr) :=
  let (negative, digits) :=
    match s with
    | c :: t => if c =? 0x2D then (true, t) else (false, s)
    | [] => (false, s)
    end in
  match scan_int_part digits with
  | None => None
  | Some (u, rest) =>
      let (frac, rest1) := scan_frac rest in
      let (exp, rest2) := scan_exp rest1 in
      if is_empty frac && is_empty exp then
        if N.of_nat (length (uint_cps u)) <=? int_max_str_digits
        then Some (JInt (Z.of_int (if negative then Decimal.Neg u else Decimal.Pos u)),
                   rest)
        else None
      else Some (JFloat ((if negative then [0x2D] else []) ++ uint_cps u ++ frac ++ exp),
                 rest2)
  end.

(** The characters of a number with a fraction or an exponent. *)
Definition float_char (c : N) : bool :=
  is_digit c || (c =? 0x2E) || (c =? 0x65) || (c =? 0x45) || (c =? 0x2B) || (c =? 0x2D).

(** What may follow a number without being taken for a part of it. *)
Definition number_end (rest : pystr) : bool :=
  match rest with
  | [] => true
  | c :: _ => negb (float_char c)
  end.

(** The constants that [scan_once] tries when no number is matched. *)
Definition scan_constant (s : pystr) : option (json * pystr) :=
  if starts_with (cps "NaN") s then Some (JFloat (cps "nan"), drop 3 s)
  else if starts_with (cps "Infinity") s then Some (JFloat (cps "inf"), drop 8 s)
  else if starts_with (cps "-Infinity") s then Some (JFloat (cps "-inf"), drop 9 s)
  else None.

(** [d[k] = v] on a dict: the value of a key that is there is replaced
    where the key stands, a new key comes last. *)
Fixpoint dict_set (k : pystr) (v : json) (d : list (pystr * json)) : list (pystr * json) :=
  match d with
  | [] => [(k, v)]
  | (k', v') :: d' =>
      if decide (k = k') then (k, v) :: d' else (k', v') :: dict_set k v d'
  end.

(** [dict(pairs)] *)
Definition dict_of_pairs (pairs : list (pystr * json)) : list (pystr * json) :=
  foldl (fun d kv => dict_set (fst kv) (snd kv) d) [] pairs.

(** [scan_once], [JSONArray] after the first value position is found and
    [JSONObject] after the opening quote of a key.  [fuel] bounds the
    number of nested calls. *)
Fixpoint parse_value (fuel : nat) (s : pystr) {struct fuel} : option (json * pystr) :=
  match fuel with
  | O => None
  | S fuel' =>
      match s with
      | [] => None
      | c :: t =>
          if c =? 0x22 then
            match scan_string t with
            | Some (str, rest) => Some (JStr str, rest)
            | None => None
            end
          else if c =? 0x7B then
            match skip_ws t with
            | [] => None
            | c1 :: t1 =>
                if c1 =? 0x7D then Some (JDict [], t1)
                else if c1 =? 0x22 then
                  match parse_members fuel' t1 with
                  | Some (pairs, rest) => Some (JDict (dict_of_pairs pairs), rest)
                  | None => None
                  end
                else None
            end
          else if c =? 0x5B then
            match skip_ws t with
            | [] => None
            | c1 :: t1 =>
                if c1 =? 0x5D then Some (JList [], t1)
                else
                  match parse_items fuel' (c1 :: t1) with
                  | Some (items, rest) => Some (JList items, rest)
                  | None => None
                  end
            end
          else if starts_with (cps "null") s then Some (JNull, drop 4 s)
          else if starts_with (cps "true") s then Some (JBool true, drop 4 s)
          else if starts_with (cps "false") s then Some (JBool false, drop 5 s)
          else
            match scan_number s with
            | Some r => Some r
            | None => scan_constant s
            end
      end
  end
with parse_items (fuel : nat) (s : pystr) {struct fuel} : option (list json * pystr) :=
  match fuel with
  | O => None
  | S fuel' =>
      match parse_value fuel' s with
      | None => None
      | Some (v, rest) =>
          match skip_ws rest with
          | [] => None
          | c :: t =>
              if c =? 0x5D then Some ([v], t)
              else if c =? 0x2C then
                match parse_items fuel' (skip_ws t) with
                | Some (vs, rest') => Some (v :: vs, rest')
                | None => None
                end
              else None
          end
      end
  end
with parse_members (fuel : nat) (s : pystr) {struct fuel}
    : option (list (pystr * json) * pystr) :=
  match fuel with
  | O => None
  | S fuel' =>
      match scan_string s with
      | None => None
      | Some (key, rest) =>
          match skip_ws rest with
          | [] => None
          | c :: t =>
              if c =? 0x3A then
                match parse_value fuel' (skip_ws t) with
                | None => None
                | Some (v, rest1) =>
                    match skip_ws rest1 with
                    | [] => None
                    | c1 :: t1 =>
                        if c1 =? 0x7D then Some ([(key, v)], t1)
                        else if c1 =? 0x2C then
                          match skip_ws t1 with
                          | [] => None
                          | c2 :: t2 =>
                              if c2 =? 0x22 then
                                match parse_members fuel' t2 with
                                | Some (more, rest2) => Some ((key, v) :: more, rest2)
                                | None => None
                                end
                              else None
                          end
                        else None
                    end
                end
              else None
          end
      end
  end.

(** [json.loads(s)]: one value, with nothing but white space around it. *)
Definition loads (s : pystr) : option json :=
  match parse_value (S (length s)) (skip_ws s) with
  | Some (v, rest) => if is_empty (skip_ws rest) then Some v else None
  | None => None
  end.

(** The text of the file at [p], as [p.read_text(encoding=enc)] gives it. *)
Definition file_text (fs : filesystem) (p : path) (enc : codec) : option pystr :=
  match read_text p enc fs with
  | (Ok s, _) => Some s
  | (Raise _, _) => None
  end.

(** *** The values the sanitizer lets through *)

(** No two neighbouring spaces. *)
Fixpoint no_double_space (s : pystr) : bool :=
  match s with
  | [] => true
  | a :: t =>
      match t with
      | b :: _ => negb ((a =? SP) && (b =? SP))
      | [] => true
      end && no_double_space t
  end.

(** A string of ASCII characters (DEL left out) with no two neighbouring
    spaces: its JSON form is printable and has no run of blanks. *)
Definition plain_str (s : pystr) : bool :=
  forallb (fun c => c <=? 0x7E) s && no_double_space s.

(** A float given by the text [repr] prints for it, NaN left out: a
    number with a fraction or an exponent, [inf] or [-inf]. *)
Definition float_ok (r : pystr) : bool :=
  match scan_number r with
  | Some (JFloat t, []) => bool_decide (t = r)
  | _ => false
  end
  || bool_decide (r = cps "inf") || bool_decide (r = cps "-inf").

(** A value built from [None], booleans, integers within the conversion
    limit, floats other than NaN, plain strings, lists and dicts whose keys
    are plain strings; the keys of a dict differ from one another, as they
    do in every [dict]. *)
Fixpoint plain (v : json) : bool :=
  match v with
  | JNull | JBool _ => true
  | JInt n => int_fits n
  | JFloat r => float_ok r
  | JStr s => plain_str s
  | JList items => forallb plain items
  | JDict items =>
      forallb (fun kv => plain_str (fst kv) && plain (snd kv)) items
      && bool_decide (NoDup (map fst items))
  | JOpaque => false
  end.

(** The nested calls the decoder makes for a value. *)
Fixpoint json_size (v : json) : nat :=
  match v with
  | JList items => S (list_sum (map (fun x => S (json_size x)) items))
  | JDict items => S (list_sum (map (fun kv => S (json_size (snd kv))) items))
  | _ => 1%nat
  end.

(** How deep the lists and dicts of a value are nested. *)
Fixpoint json_depth (v : json) : nat :=
  match v with
  | JList items => S (list_max (map json_depth items))
  | JDict items => S (list_max (map (fun kv => json_depth (snd kv)) items))
  | _ => O
  end.

(** A nesting that [json.dumps] and [json.loads] take with the recursion
    limit the interpreter starts with (1000), from any call that is not
    itself hundreds of frames deep; a value nested deeper than the
    interpreter allows makes them raise [RecursionError]. *)
Definition safe_nesting : nat := 100.

(** A string of characters up to U+007E; the sanitizer keeps what
    [json.dumps] writes for it. *)
Definition ascii_str (s : pystr) : bool := forallb (fun c => c <=? 0x7E) s.

(** A value built from [None], booleans, integers within the conversion
    limit, floats other than NaN, such strings, lists and dicts whose keys
    are such strings and differ from one another. *)
Fixpoint ascii_json (v : json) : bool :=
  match v with
  | JNull | JBool _ => true
  | JInt n => int_fits n
  | JFloat r => float_ok r
  | JStr s => ascii_str s
  | JList items => forallb ascii_json items
  | JDict items =>
      forallb (fun kv => ascii_str (fst kv) && ascii_json (snd kv)) items
      && bool_decide (NoDup (map fst items))
  | JOpaque => false
  end.

(** What may follow a value in the output, indented or not: the end of the
    text, a comma, a closing bracket or a line feed. *)
Definition value_end_any (rest : pystr) : bool :=
  match rest with
  | [] => true
  | c :: _ => (c =? 0x2C) || (c =? 0x5D) || (c =? 0x7D) || (c =? LF)
  end.

(** What the decoder is to give for a value written at any depth, with
    enough fuel and before anything that ends a value. *)
Definition reads_back_any (indent : option nat) (v : json) : Prop :=
  forall (level : nat) (out : pystr) (fuel : nat) (rest : pystr),
    ascii_json v = true ->
    encode_json indent level v = Some out ->
    (json_size v <= fuel)%nat ->
    value_end_any rest = true ->
    parse_value fuel (out ++ rest) = Some (v, rest).

(** ** Reading the output of the sanitizer *)

(** Two neighbouring characters of [s] are both in the class [cls]. *)
Definition has_adjacent (cls : N -> bool) (s : pystr) : Prop :=
  exists (i : nat) (a b : N),
    s !! i = Some a /\ s !! S i = Some b /\ cls a = true /\ cls b = true.

(** The same, read along the list. *)
Fixpoint no_adj (cls : N -> bool) (s : pystr) : Prop :=
  match s with
  | [] => True
  | a :: t =>
      match t with
      | b :: _ => cls a && cls b = false
      | [] => True
      end /\ no_adj cls t
  end.

(** One pass over [s] that writes [r] for every maximal run of characters
    of [cls]; [in_run] tells that the previous character was in the class. *)
Fixpoint squeeze (cls : N -> bool) (r : N) (in_run : bool) (s : pystr) : pystr :=
  match s with
  | [] => []
  | c :: t =>
      if cls c then
        if in_run then squeeze cls r true t else r :: squeeze cls r true t
      else c :: squeeze cls r false t
  end.

(** A printable ASCII character. *)
Definition printable (c : N) : bool := in_range 0x20 0x7E c.

(** The pass that squeezes the blanks goes through [out] and changes
    nothing, whatever was read before it, and leaves no run open. *)
Definition blank_tight (out : pystr) : Prop :=
  forall (b : bool) (rest : pystr),
    squeeze is_blank SP b (out ++ rest) = out ++ squeeze is_blank SP false rest.

(** ** Reading the validation and the directory creation *)

(** The checks of [_validate_path] as the specification lists them, in its
    order: whether the check is violated, and the reason reported for it. *)
Definition spec_checks (fs : filesystem) (p : path)
    (must_exist : bool) (is_file_opt : option bool)
    (readable writable allow_hidden : bool) : list (bool * reason) :=
  [ (must_exist && negb (path_exists fs p), PathDoesNotExist);
    (match is_file_opt with Some true => negb (is_file fs p) | _ => false end,
     ExpectedFile);
    (match is_file_opt with Some false => negb (is_dir fs p) | _ => false end,
     ExpectedDirectory);
    (negb allow_hidden && starts_with_dot (name_of p), HiddenNotAllowed);
    (readable && negb (access_r fs p), NotReadablePath);
    (writable && negb (access_w fs p), NotWritablePath) ].

(** The reason of the first violated check of a list. *)
Fixpoint first_failure (checks : list (bool * reason)) : option reason :=
  match checks with
  | [] => None
  | (violated, r) :: rest => if violated then Some r else first_failure rest
  end.

(** The number of segments of a path. *)
Fixpoint depth (p : path) : nat :=
  match p with
  | Root => O
  | Child q _ => S (depth q)
  end.

(** [p] is a directory, or can be made one: the nearest ancestor that is
    there is a directory the process may write in. *)
Fixpoint makeable (fs : filesystem) (p : path) : bool :=
  match stat fs p with
  | Ok (Dir _) => true
  | Ok (File _ _) => false
  | Raise _ =>
      match p with
      | Root => false
      | Child q _ => makeable fs q && (negb (path_exists fs q) || access_w fs q)
      end
  end.

(** [p] and the directories above it, up to the root. *)
Fixpoint ancestors (p : path) : list path :=
  match p with
  | Root => [Root]
  | Child q _ => p :: ancestors q
  end.

(** An entry can be put at [p]: the directory of [p] is there or can be
    made, and the process may write in it. *)
Definition creatable (fs : filesystem) (p : path) : bool :=
  makeable fs (parent_of p)
  && (negb (path_exists fs (parent_of p)) || access_w fs (parent_of p)).

(** Some small disks to run the operations on. *)
Definition tmp : path := Child Root "tmp".
Definition disk_empty_tmp : filesystem := <[tmp := Dir rw]> ∅.
Definition disk_with_file (name : string) (data : bytes) : filesystem :=
  <[Child tmp name := File data rw]> disk_empty_tmp.

(** ** Hidden and read-only paths ([utils.py], lines 55-128) *)

(** The platform the library runs on: [sys.platform != 'win32'], or win32
    with what [ctypes.windll.kernel32.GetFileAttributesW] answers for a
    path, [None] when the call raises. *)
Inductive platform :=
| Posix
| Win32 (attributes : path -> option Z).

Definition FILE_ATTRIBUTE_READONLY : Z := 0x01.
Definition FILE_ATTRIBUTE_HIDDEN : Z := 0x02.

(** The [try] of both helpers: the attribute bit [flag] when the query
    answers, the [fallback] when it raises or answers -1. *)
Definition attribute_or (attributes : path -> option Z) (p : path) (flag : Z)
    (fallback : bool) : bool :=
  match attributes p with
  | Some attrs =>
      if (attrs =? -1)%Z then fallback
      else negb (Z.land attrs flag =? 0)%Z
  | None => fallback
  end.

Definition is_readonly (pf : platform) (fs : filesystem) (p : path) : result bool :=
  if negb (path_exists fs p) then Raise FileNotFoundError
  else
    match pf with
    | Posix => Ok (negb (access_w fs p))
    | Win32 attributes =>
        Ok (attribute_or attributes p FILE_ATTRIBUTE_READONLY (negb (access_w fs p)))
    end.

Definition _is_hidden (pf : platform) (fs : filesystem) (p : path) : result bool :=
  if negb (path_exists fs p) then Raise FileNotFoundError
  else
    match pf with
    | Posix => Ok (starts_with_dot (name_of p))
    | Win32 attributes =>
        Ok (attribute_or attributes p FILE_ATTRIBUTE_HIDDEN (starts_with_dot (name_of p)))
    end.

(** What one entry of the new disk can be after directories were made
    towards [d]: the entry of the old disk, or a new directory on the way
    to [d]. *)
Definition only_adds_towards (d : path) (fs fs' : filesystem) : Prop :=
  (forall x nd, fs !! x = Some nd -> fs' !! x = Some nd)
  /\ (forall x nd, fs !! x = None -> fs' !! x = Some nd ->
        nd = Dir rw /\ x ∈ ancestors d).

(** ** JSON written with an indentation *)

(** The value that line 25 hands to [json.dumps]. *)
Definition content_json (c : content) : option json :=
  match c with
  | CDict items => Some (JDict items)
  | CList items => Some (JList items)
  | _ => None
  end.

(** * Properties *)

(** ** Strings *)

Section Text.

Lemma no_adj_lookup cls (s : pystr) (i : nat) (a b : N) :
  no_adj cls s -> s !! i = Some a -> s !! S i = Some b -> cls a && cls b = false.
Proof.
  revert i. induction s as [|x t IH]; intros i Hn Ha Hb; [discriminate|].
  destruct Hn as [Hh Ht]. destruct i as [|i].
  - simpl in Ha, Hb. destruct t as [|y t']; [discriminate|].
    simpl in Hb. congruence.
  - simpl in Ha, Hb. eapply IH; eauto.
Qed.

Lemma no_adj_not_has_adjacent cls (s : pystr) :
  no_adj cls s -> ~ has_adjacent cls s.
Proof.
  intros Hn (i & a & b & Ha & Hb & Ca & Cb).
  pose proof (no_adj_lookup _ _ _ _ _ Hn Ha Hb) as H.
  rewrite Ca, Cb in H. discriminate.
Qed.

Lemma has_adjacent_infix cls (pre s post : pystr) :
  has_adjacent cls s -> has_adjacent cls (pre ++ s ++ post).
Proof.
  intros (i & a & b & Ha & Hb & Ca & Cb).
  exists (length pre + i)%nat, a, b. repeat split; trivial.
  - rewrite lookup_app_r by lia.
    replace (length pre + i - length pre)%nat with i by lia.
    now apply lookup_app_l_Some.
  - rewrite lookup_app_r by lia.
    replace (S (length pre + i) - length pre)%nat with (S i) by lia.
    now apply lookup_app_l_Some.
Qed.

(** *** [sub_runs] against [squeeze] *)

Lemma sub_runs_squeeze cls min r (run s : pystr) :
  (forall run' : pystr, Forall (fun c => cls c = true) run' ->
      flush_run min [r] run' = if is_empty run' then [] else [r]) ->
  Forall (fun c => cls c = true) run ->
  sub_runs cls min [r] run s =
    (if is_empty run then [] else [r]) ++ squeeze cls r (negb (is_empty run)) s.
Proof.
  intros Hflush. revert run. induction s as [|c t IH]; intros run Hrun; simpl.
  - rewrite Hflush by assumption. now rewrite app_nil_r.
  - destruct (cls c) eqn:Hc.
    + rewrite IH by (apply Forall_app; split; [assumption | now constructor]).
      destruct run as [|x run']; simpl; [reflexivity|].
      destruct (run' ++ [c]) eqn:E; [now destruct run' | reflexivity].
    + rewrite Hflush by assumption. rewrite (IH []) by constructor. reflexivity.
Qed.

Lemma is_newline_spec c : is_newline c = true <-> c = LF.
Proof. unfold is_newline. apply N.eqb_eq. Qed.

Lemma collapse_newlines_squeeze s :
  collapse_newlines s = squeeze is_newline LF false s.
Proof.
  unfold collapse_newlines. rewrite sub_runs_squeeze; [reflexivity | | constructor].
  intros run Hrun. unfold flush_run.
  destruct run as [|a [|b run']]; simpl; try reflexivity.
  inversion Hrun as [|? ? Ha _]; subst. apply is_newline_spec in Ha. now subst.
Qed.

Lemma collapse_blanks_squeeze s :
  collapse_blanks s = squeeze is_blank SP false s.
Proof.
  unfold collapse_blanks. rewrite sub_runs_squeeze; [reflexivity | | constructor].
  intros run _. unfold flush_run. now destruct run.
Qed.

(** After [squeeze], no two neighbours are in the class, and a run that was
    open at the start leaves no character of the class in front. *)
Lemma squeeze_no_adj cls r b s :
  no_adj cls (squeeze cls r b s) /\
  (b = true -> forall c, head (squeeze cls r b s) = Some c -> cls c = false).
Proof.
  revert b. induction s as [|c t IH]; intros b; simpl.
  - split; [exact I | discriminate].
  - destruct (cls c) eqn:Hc.
    + destruct b.
      * apply IH.
      * split; [|discriminate]. destruct (IH true) as [Hn Hh]. split; [|exact Hn].
        destruct (squeeze cls r true t) as [|y out] eqn:E; [exact I|].
        rewrite (Hh eq_refl y eq_refl). apply andb_false_r.
    + split.
      * destruct (IH false) as [Hn _]. split; [|exact Hn].
        destruct (squeeze cls r false t); [exact I | now rewrite Hc].
      * intros _ c' [= <-]. exact Hc.
Qed.

(** Squeezing the blanks brings no two line feeds together. *)
Lemma squeeze_blank_keeps_newlines b s :
  no_adj is_newline s ->
  no_adj is_newline (squeeze is_blank SP b s) /\
  (b = false -> head (squeeze is_blank SP b s) = Some LF -> head s = Some LF).
Proof.
  revert b. induction s as [|c t IH]; intros b Hn; simpl.
  - split; [exact I | discriminate].
  - destruct Hn as [Hh Ht]. destruct (is_blank c) eqn:Hc.
    + destruct b.
      * split; [apply IH; exact Ht | discriminate].
      * split.
        -- split; [|apply IH; exact Ht].
           destruct (squeeze is_blank SP true t); [exact I | reflexivity].
        -- intros _ E. discriminate E.
    + destruct (IH false Ht) as [Hn' Hhd]. split.
      * split; [|exact Hn'].
        destruct (squeeze is_blank SP false t) as [|y out] eqn:E; [exact I|].
        destruct (is_newline c) eqn:Hnl; [|reflexivity].
        destruct (is_newline y) eqn:Hy; [|reflexivity].
        apply is_newline_spec in Hy; subst y.
        specialize (Hhd eq_refl eq_refl).
        destruct t as [|z t']; [discriminate|]. injection Hhd as ->.
        exact Hh.
      * intros _ [= ->]. reflexivity.
Qed.

(** *** [strip] *)

Lemma lstrip_suffix s : exists pre, s = pre ++ lstrip s.
Proof.
  induction s as [|c t [pre IH]]; simpl.
  - now exists [].
  - destruct (is_space c).
    + exists (c :: pre). simpl. now f_equal.
    + now exists [].
Qed.

Lemma rstrip_prefix s : exists post, s = rstrip s ++ post.
Proof.
  unfold rstrip. destruct (lstrip_suffix (reverse s)) as [pre E].
  exists (reverse pre). rewrite <- reverse_app, <- E. now rewrite reverse_involutive.
Qed.

Lemma strip_infix s : exists pre post, s = pre ++ strip s ++ post.
Proof.
  unfold strip. destruct (lstrip_suffix s) as [pre E].
  destruct (rstrip_prefix (lstrip s)) as [post E'].
  exists pre, post. now rewrite <- E', <- E.
Qed.

Lemma lstrip_head s c : head (lstrip s) = Some c -> is_space c = false.
Proof.
  induction s as [|x t IH]; simpl; [discriminate|].
  destruct (is_space x) eqn:Hx; [exact IH|]. intros [= <-]. exact Hx.
Qed.

Lemma rstrip_last s c : last (rstrip s) = Some c -> is_space c = false.
Proof.
  unfold rstrip. rewrite last_reverse. apply lstrip_head.
Qed.

Lemma strip_head s c : head (strip s) = Some c -> is_space c = false.
Proof.
  unfold strip. destruct (rstrip_prefix (lstrip s)) as [post E].
  intros H. apply (lstrip_head s). rewrite E.
  destruct (rstrip (lstrip s)); [discriminate | exact H].
Qed.

Lemma strip_last s c : last (strip s) = Some c -> is_space c = false.
Proof. apply rstrip_last. Qed.

End Text.

(** ** The sanitizer *)

Section Sanitizer.

(** A string with no carriage return has nothing to replace. *)
Lemma replace_no_cr (rest new s : pystr) :
  Forall (fun c => c <> CR) s -> replace (CR :: rest) new s = s.
Proof.
  unfold replace. induction 1 as [|c t Hc _ IH]; [reflexivity|].
  assert (starts_with (CR :: rest) (c :: t) = false) as E.
  { cbn [starts_with]. destruct (N.eqb_spec CR c); [congruence | reflexivity]. }
  cbn [replace_from]. rewrite E. now rewrite IH.
Qed.

Lemma normalize_newlines_no_cr (s : pystr) :
  Forall (fun c => c <> CR) s -> normalize_newlines s = s.
Proof.
  intros H. unfold normalize_newlines.
  rewrite (replace_no_cr [LF] [LF] s H). apply (replace_no_cr [] [LF] s H).
Qed.

Lemma keep_char_not_cr c : keep_char c = true -> c <> CR.
Proof. intros H ->. discriminate H. Qed.

Lemma keep_char_ascii c : keep_char c = true -> c < 128.
Proof.
  unfold keep_char, TAB, LF. intros H.
  repeat (apply orb_prop in H; destruct H as [H|H]).
  - apply andb_prop in H as [_ H]. apply N.leb_le in H. lia.
  - apply N.eqb_eq in H. lia.
  - apply N.eqb_eq in H. lia.
Qed.

Lemma strip_control_kept (s : pystr) :
  Forall (fun c => keep_char c = true) (strip_control s).
Proof.
  unfold strip_control. apply Forall_forall. intros c Hc.
  apply list_elem_of_filter in Hc. tauto.
Qed.

(** The carriage returns are gone before line 43 looks for them. *)
Lemma normalize_after_strip_control (s : pystr) :
  normalize_newlines (strip_control s) = strip_control s.
Proof.
  apply normalize_newlines_no_cr.
  eapply Forall_impl; [apply strip_control_kept|]. apply keep_char_not_cr.
Qed.

Lemma squeeze_kept (P : N -> Prop) cls r b (s : pystr) :
  P r -> Forall P s -> Forall P (squeeze cls r b s).
Proof.
  intros Hr Hs. revert b. induction Hs as [|c t Hc _ IH]; intros b; simpl.
  - constructor.
  - destruct (cls c); [destruct b|]; auto.
Qed.

Lemma strip_kept (P : N -> Prop) (s : pystr) : Forall P s -> Forall P (strip s).
Proof.
  destruct (strip_infix s) as (pre & post & E). intros H. rewrite E in H.
  apply Forall_app in H as [_ H]. now apply Forall_app in H as [H _].
Qed.

Lemma clean_compact_eq (s : pystr) :
  clean true s =
  strip (squeeze is_blank SP false (squeeze is_newline LF false (strip_control s))).
Proof.
  unfold clean. now rewrite normalize_after_strip_control,
    collapse_newlines_squeeze, collapse_blanks_squeeze.
Qed.

Lemma clean_plain_eq (s : pystr) : clean false s = strip_control s.
Proof. unfold clean. apply normalize_after_strip_control. Qed.

(** Whatever is written is printable ASCII, tabs and line feeds. *)
Lemma clean_kept compact (s : pystr) :
  Forall (fun c => keep_char c = true) (clean compact s).
Proof.
  destruct compact.
  - rewrite clean_compact_eq. apply strip_kept.
    apply squeeze_kept; [reflexivity|].
    apply squeeze_kept; [reflexivity|]. apply strip_control_kept.
  - rewrite clean_plain_eq. apply strip_control_kept.
Qed.

Lemma sanitize_inv c compact (s : pystr) :
  _sanitize_content c compact = Ok s ->
  exists raw, content_to_str c compact = Ok raw /\ s = clean compact raw
              /\ strip s <> [].
Proof.
  unfold _sanitize_content. destruct (content_to_str c compact) as [raw|e]; [|discriminate].
  destruct (strip (clean compact raw)) eqn:E; simpl; [discriminate|].
  intros [= <-]. exists raw. rewrite E. repeat split. discriminate.
Qed.

Lemma sanitize_kept c compact (s : pystr) :
  _sanitize_content c compact = Ok s -> Forall (fun c => keep_char c = true) s.
Proof.
  intros H. apply sanitize_inv in H as (raw & _ & -> & _). apply clean_kept.
Qed.

(** C2 (code defect): a lone carriage return is deleted by the filter of
    line 40, which keeps only the tab and the line feed among the control
    characters, so the replacements of line 43 never find one: on
    ["a\rb"] the sanitizer returns ["ab"], with no line feed where the
    carriage return stood. *)
Theorem sanitize_drops_lone_cr :
  _sanitize_content (CStr [97; CR; 98]) false = Ok [97; 98] /\
  (forall s : pystr, normalize_newlines (strip_control s) = strip_control s).
Proof.
  split; [reflexivity | apply normalize_after_strip_control].
Qed.

(** C7: with [compact=True] the sanitized text has no two neighbouring line
    feeds, no two neighbouring characters among space and tab, and neither
    starts nor ends with a whitespace character. *)
Theorem sanitize_compact_shape (c : content) (s : pystr) :
  _sanitize_content c true = Ok s ->
  ~ has_adjacent is_newline s /\
  ~ has_adjacent is_blank s /\
  (forall x, head s = Some x -> is_space x = false) /\
  (forall x, last s = Some x -> is_space x = false).
Proof.
  intros H. apply sanitize_inv in H as (raw & _ & -> & _).
  rewrite clean_compact_eq.
  set (t := squeeze is_blank SP false (squeeze is_newline LF false (strip_control raw))).
  destruct (strip_infix t) as (pre & post & E).
  repeat split.
  - intros Hadj. apply (has_adjacent_infix _ pre _ post) in Hadj. rewrite <- E in Hadj.
    revert Hadj. apply no_adj_not_has_adjacent.
    apply squeeze_blank_keeps_newlines. apply squeeze_no_adj.
  - intros Hadj. apply (has_adjacent_infix _ pre _ post) in Hadj. rewrite <- E in Hadj.
    revert Hadj. apply no_adj_not_has_adjacent. apply squeeze_no_adj.
  - apply strip_head.
  - apply strip_last.
Qed.

Lemma sanitize_compact_shape_witness :
  let s := cps "Linha 1" ++ [LF] ++ cps "Linha 2 mais" in
  ~ has_adjacent is_newline s /\
  ~ has_adjacent is_blank s /\
  (forall x, head s = Some x -> is_space x = false) /\
  (forall x, last s = Some x -> is_space x = false).
Proof.
  apply (sanitize_compact_shape
           (CStr (cps "Linha 1" ++ [LF; LF; LF] ++ cps "Linha 2  " ++ [TAB] ++ cps "  mais"))).
  vm_compute. reflexivity.
Defined.

End Sanitizer.

(** ** The file system *)

Section FileSystem.

Implicit Types (fs : filesystem) (p q x : path) (nd : node).

Lemma stat_raise_cases fs p e :
  stat fs p = Raise e -> e = FileNotFoundError \/ e = NotADirectoryError.
Proof.
  revert e. induction p as [|q IH n]; intros e; simpl; [discriminate|].
  destruct (stat fs q) as [[data pm|pm]|e'].
  - intros [= <-]. now right.
  - destruct (fs !! Child q n); [discriminate|]. intros [= <-]. now left.
  - intros [= <-]. now apply IH.
Qed.

Lemma stat_child_ok fs q n nd :
  stat fs (Child q n) = Ok nd ->
  (exists pm, stat fs q = Ok (Dir pm)) /\ fs !! Child q n = Some nd.
Proof.
  simpl. destruct (stat fs q) as [[data pm|pm]|e]; try discriminate.
  destruct (fs !! Child q n) eqn:E; [|discriminate].
  intros [= <-]. split; [now exists pm | reflexivity].
Qed.

Lemma stat_child_dir fs q n pm :
  stat fs q = Ok (Dir pm) ->
  stat fs (Child q n) =
    match fs !! Child q n with Some nd => Ok nd | None => Raise FileNotFoundError end.
Proof. intros H. simpl. now rewrite H. Qed.

Lemma depth_neq p x : (depth x < depth p)%nat -> x <> p.
Proof. intros H ->. lia. Qed.

(** An entry put deeper than [x] is not on the way to [x]. *)
Lemma stat_insert_deeper fs p nd x :
  (depth x < depth p)%nat -> stat (<[p := nd]> fs) x = stat fs x.
Proof.
  induction x as [|y IH m]; intros Hd; [reflexivity|].
  simpl in *. rewrite IH by lia.
  rewrite lookup_insert_ne; [reflexivity|].
  intros ->. simpl in Hd. lia.
Qed.

Lemma stat_insert_child fs q n nd pm :
  stat fs q = Ok (Dir pm) -> stat (<[Child q n := nd]> fs) (Child q n) = Ok nd.
Proof.
  intros H. simpl. rewrite stat_insert_deeper by (simpl; lia).
  rewrite H. now rewrite lookup_insert_eq.
Qed.

(** In a tree, a path below nothing has no entry. *)
Lemma tree_shaped_no_entry fs q n :
  tree_shaped fs -> is_dir fs q = false -> fs !! Child q n = None.
Proof.
  intros Ht Hq. destruct (fs !! Child q n) eqn:E; [|reflexivity].
  apply (map_Forall_lookup_1 _ _ _ _ Ht) in E. simpl in E. congruence.
Qed.

(** *** [os.mkdir] and [Path.mkdir] *)

Lemma os_mkdir_frame p fs r fs' :
  os_mkdir p fs = (r, fs') -> fs' = fs \/ fs' = <[p := Dir rw]> fs.
Proof.
  unfold os_mkdir.
  destruct (stat fs p) as [nd|e]; [intros [= _ <-]; now left|].
  destruct e; try (intros [= _ <-]; now left);
    (destruct (stat fs (parent_of p)) as [[data pm|pm]|e'];
     [intros [= _ <-]; now left | | intros [= _ <-]; now left];
     destruct (w_ok pm); intros [= _ <-]; [now right | now left]).
Qed.

Lemma mkdir_tolerate_frame b p e fs r fs' :
  mkdir_tolerate b p e fs = (r, fs') -> fs' = fs.
Proof.
  unfold mkdir_tolerate. destruct (negb b || negb (is_dir fs p)); now intros [= _ <-].
Qed.

Lemma mkdir_single_frame b p fs r fs' :
  mkdir_single b p fs = (r, fs') -> fs' = fs \/ fs' = <[p := Dir rw]> fs.
Proof.
  unfold mkdir_single, try_except.
  destruct (os_mkdir p fs) as [[[]|e] fs1] eqn:E.
  - intros [= _ <-]. eapply os_mkdir_frame; eassumption.
  - apply os_mkdir_frame in E. intros H.
    assert (fs' = fs1) as ->; [|exact E].
    destruct e; simpl in H;
      try (unfold raise in H; now injection H as _ <-);
      now apply mkdir_tolerate_frame in H.
Qed.

(** [Path.mkdir] writes no entry deeper than the directory it is asked for. *)
Lemma mkdir_parents_frame b p fs r fs' x :
  mkdir_parents b p fs = (r, fs') -> (depth p < depth x)%nat -> fs' !! x = fs !! x.
Proof.
  revert b fs r fs'. induction p as [|q IH n]; intros b fs r fs' H Hd.
  - simpl in H. unfold try_except, os_mkdir in H. simpl in H.
    unfold mkdir_tolerate in H. simpl in H.
    destruct (negb b || false); now injection H as _ <-.
  - cbn [mkdir_parents] in H. unfold try_except in H.
    destruct (os_mkdir (Child q n) fs) as [[[]|e] fs1] eqn:E.
    + injection H as _ <-. apply os_mkdir_frame in E as [->| ->]; [reflexivity|].
      apply lookup_insert_ne. intros <-. lia.
    + assert (fs1 !! x = fs !! x) as <-.
      { apply os_mkdir_frame in E as [->| ->]; [reflexivity|].
        apply lookup_insert_ne. intros <-. lia. }
      destruct e; simpl in H;
        try (unfold raise in H; now injection H as _ <-);
        try (apply mkdir_tolerate_frame in H; now subst).
      unfold bind in H.
      destruct (mkdir_parents true q fs1) as [[[]|e] fs2] eqn:E2.
      * assert (fs2 !! x = fs1 !! x) as Hq
          by (apply (IH _ _ _ _ E2); simpl in Hd; lia).
        rewrite <- Hq.
        apply mkdir_single_frame in H as [->| ->]; [reflexivity|].
        apply lookup_insert_ne. intros <-. lia.
      * injection H as _ <-. apply (IH _ _ _ _ E2). simpl in Hd. lia.
Qed.

Lemma makeable_not_blocked fs p :
  stat fs p = Raise NotADirectoryError -> makeable fs p = false.
Proof.
  induction p as [|q IH n]; [discriminate|].
  intros H. cbn [makeable]. rewrite H.
  simpl in H. destruct (stat fs q) as [[data pm|pm]|e] eqn:E.
  - destruct q; [discriminate|]. cbn [makeable]. now rewrite E.
  - destruct (fs !! Child q n); discriminate.
  - injection H as ->. now rewrite IH.
Qed.

Lemma os_mkdir_fresh fs q n pm :
  stat fs q = Ok (Dir pm) -> fs !! Child q n = None -> w_ok pm = true ->
  os_mkdir (Child q n) fs = (Ok tt, <[Child q n := Dir rw]> fs).
Proof.
  intros Hq Hp Hw. unfold os_mkdir.
  rewrite (stat_child_dir _ _ _ _ Hq), Hp. simpl. now rewrite Hq, Hw.
Qed.

(** [mkdir(parents=True, exist_ok=True)] on a tree: when the directory can
    be made it is made, and a directory that was not there can be written in. *)
Lemma mkdir_parents_ok fs p :
  tree_shaped fs -> makeable fs p = true ->
  exists fs', mkdir_parents true p fs = (Ok tt, fs')
    /\ is_dir fs' p = true
    /\ (path_exists fs p = false -> access_w fs' p = true).
Proof.
  intros Ht. induction p as [|q IH n]; intros Hm.
  - exists fs. split; [reflexivity | split; [reflexivity | discriminate]].
  - cbn [makeable] in Hm.
    destruct (stat fs (Child q n)) as [[data pm|pm]|e] eqn:Ep; [discriminate| |].
    + exists fs. split; [|split].
      * cbn [mkdir_parents]. unfold try_except, os_mkdir. rewrite Ep. simpl.
        unfold mkdir_tolerate, is_dir. now rewrite Ep.
      * unfold is_dir. now rewrite Ep.
      * unfold path_exists. rewrite Ep. discriminate.
    + apply andb_prop in Hm as [Hmq Hw].
      destruct (stat_raise_cases _ _ _ Ep) as [->| ->];
        [|pose proof (makeable_not_blocked _ _ Ep) as Hb; cbn [makeable] in Hb;
          rewrite Ep, Hmq, Hw in Hb; discriminate Hb].
      destruct (stat fs q) as [[data pm|pm]|e] eqn:Eq.
      * simpl in Ep. rewrite Eq in Ep. discriminate.
      * (* the parent is there *)
        assert (fs !! Child q n = None) as Hnone.
        { simpl in Ep. rewrite Eq in Ep. now destruct (fs !! Child q n). }
        assert (w_ok pm = true) as Hpm.
        { unfold path_exists, access_w in Hw. rewrite Eq in Hw. exact Hw. }
        exists (<[Child q n := Dir rw]> fs). split; [|split].
        -- cbn [mkdir_parents]. unfold try_except.
           now rewrite (os_mkdir_fresh _ _ _ _ Eq Hnone Hpm).
        -- unfold is_dir. now rewrite (stat_insert_child _ _ _ _ _ Eq).
        -- intros _. unfold access_w. now rewrite (stat_insert_child _ _ _ _ _ Eq).
      * (* the parent is made first *)
        assert (e = FileNotFoundError) as ->.
        { simpl in Ep. rewrite Eq in Ep. congruence. }
        destruct (IH Hmq) as (fs1 & Hrun & Hdir & Hacc).
        assert (path_exists fs q = false) as Hnq by (unfold path_exists; now rewrite Eq).
        specialize (Hacc Hnq).
        unfold is_dir in Hdir. unfold access_w in Hacc.
        destruct (stat fs1 q) as [[data pm|pm]|e] eqn:Eq1; try discriminate.
        simpl in Hacc.
        assert (fs1 !! Child q n = None) as Hnone.
        { rewrite (mkdir_parents_frame _ _ _ _ _ (Child q n) Hrun) by (simpl; lia).
          apply tree_shaped_no_entry; [exact Ht|]. unfold is_dir. now rewrite Eq. }
        exists (<[Child q n := Dir rw]> fs1). split; [|split].
        -- cbn [mkdir_parents]. unfold try_except, os_mkdir at 1.
           rewrite Ep. cbn [parent_of]. rewrite Eq. unfold bind. rewrite Hrun.
           unfold mkdir_single, try_except.
           now rewrite (os_mkdir_fresh _ _ _ _ Eq1 Hnone Hacc).
        -- unfold is_dir. now rewrite (stat_insert_child _ _ _ _ _ Eq1).
        -- intros _. unfold access_w. now rewrite (stat_insert_child _ _ _ _ _ Eq1).
Qed.

End FileSystem.

(** ** Codecs *)

Section Codecs.

Lemma byte_of_ascii (c : N) :
  c < 128 -> exists b, Byte.of_N c = Some b /\ Byte.to_N b = c.
Proof.
  intros Hc. destruct (Byte.of_N c) as [b|] eqn:E.
  - exists b. split; [reflexivity | now apply Byte.to_of_N].
  - apply Byte.of_N_None_iff in E. lia.
Qed.

Lemma encode_cons_ascii enc (c : N) (t : pystr) b bs :
  c < 128 -> Byte.of_N c = Some b -> encode enc t = Some bs ->
  encode enc (c :: t) = Some (b :: bs).
Proof.
  intros Hc Hb Ht. apply N.ltb_lt in Hc. destruct enc; cbn [encode] in *.
  - destruct (mapM utf8_encode_char t) as [chunks|] eqn:E; [|discriminate].
    injection Ht as <-. cbn [mapM]. rewrite E.
    unfold utf8_encode_char. change 0x80 with 128. rewrite Hc.
    unfold bytes_of_Ns. cbn [mapM]. rewrite Hb. reflexivity.
  - cbn [mapM]. change 0x80 with 128. rewrite Hc, Hb, Ht. reflexivity.
  - cbn [mapM]. rewrite Hb, Ht. reflexivity.
Qed.

Lemma decode_cons_ascii enc (c : N) (t : pystr) b bs :
  c < 128 -> Byte.to_N b = c -> decode enc bs = Some t ->
  decode enc (b :: bs) = Some (c :: t).
Proof.
  intros Hc Hb Ht. apply N.ltb_lt in Hc. destruct enc; cbn [decode] in *.
  - cbn [utf8_decode]. change 0x80 with 128. rewrite Hb, Hc, Ht. reflexivity.
  - cbn [mapM]. change 0x80 with 128. rewrite Hb, Hc, Ht. reflexivity.
  - injection Ht as <-. cbn [map]. now rewrite Hb.
Qed.

(** An ASCII text can be written in every codec of the model, and is read
    back as it was written. *)
Lemma codec_ascii_roundtrip enc (s : pystr) :
  Forall (fun c => c < 128) s ->
  exists bs, encode enc s = Some bs /\ decode enc bs = Some s.
Proof.
  induction 1 as [|c t Hc _ (bs & He & Hd)].
  - exists []. now destruct enc.
  - destruct (byte_of_ascii c Hc) as (b & Hb & Hb').
    exists (b :: bs). split.
    + now apply encode_cons_ascii.
    + now apply decode_cons_ascii.
Qed.

End Codecs.

(** ** Validation, reading and deletion *)

Section Operations.

Implicit Types (fs : filesystem) (p q : path).

Lemma is_dir_exists fs p : is_dir fs p = true -> path_exists fs p = true.
Proof. unfold is_dir, path_exists. now destruct (stat fs p). Qed.

Lemma is_dir_not_file fs p : is_dir fs p = true -> is_file fs p = false.
Proof. unfold is_dir, is_file. now destruct (stat fs p) as [[]|]. Qed.

(** C6: [_validate_path] reports the first violated check in the order
    existence, expected kind, hidden name, read access, write access; so a
    path that does not exist fails with NotFound when [must_exist] is set,
    whatever its name and the other constraints. *)
Theorem validate_path_reports_first_failure fs p
    (must_exist : bool) (is_file_opt : option bool)
    (readable writable allow_hidden : bool) :
  _validate_path fs p must_exist is_file_opt readable writable allow_hidden =
    match first_failure
            (spec_checks fs p must_exist is_file_opt readable writable allow_hidden) with
    | Some r => Raise (PathValidationError p r)
    | None => Ok p
    end
  /\ (must_exist = true -> path_exists fs p = false ->
      _validate_path fs p must_exist is_file_opt readable writable allow_hidden =
        Raise (PathValidationError p PathDoesNotExist)
      /\ kind_of (PathValidationError p PathDoesNotExist) = NotFound).
Proof.
  split.
  - unfold _validate_path, spec_checks, first_failure.
    destruct (must_exist && negb (path_exists fs p)); [reflexivity|].
    destruct is_file_opt as [[|]|];
      try destruct (negb (is_file fs p)); try destruct (negb (is_dir fs p));
      try reflexivity;
      destruct (negb allow_hidden && starts_with_dot (name_of p)); try reflexivity;
      destruct (readable && negb (access_r fs p)); try reflexivity;
      destruct (writable && negb (access_w fs p)); reflexivity.
  - intros -> H. split; [|reflexivity]. unfold _validate_path. now rewrite H.
Qed.

Lemma validate_path_reports_first_failure_witness :
  path_exists disk_empty_tmp (Child tmp ".oculto") = false /\
  _validate_path disk_empty_tmp (Child tmp ".oculto") true None false false false =
    Raise (PathValidationError (Child tmp ".oculto") PathDoesNotExist).
Proof.
  split; [reflexivity|].
  apply (validate_path_reports_first_failure
           disk_empty_tmp (Child tmp ".oculto") true None false false false);
    reflexivity.
Defined.

(** C8: on a directory [delete_file] fails with the wrong-kind error of the
    validation, whatever [ignore_missing] is, and the disk is left as it was. *)
Theorem delete_file_on_directory fs p (ignore_missing : bool) :
  is_dir fs p = true ->
  delete_file p ignore_missing fs = (Raise (PathValidationError p ExpectedFile), fs)
  /\ kind_of (PathValidationError p ExpectedFile) = WrongKind.
Proof.
  intros H. split; [|reflexivity].
  unfold delete_file, try_except, bind, reads, _validate_path.
  now rewrite (is_dir_exists _ _ H), (is_dir_not_file _ _ H).
Qed.

Lemma delete_file_on_directory_witness :
  is_dir disk_empty_tmp tmp = true /\
  delete_file tmp true disk_empty_tmp =
    (Raise (PathValidationError tmp ExpectedFile), disk_empty_tmp).
Proof.
  split; [reflexivity|].
  apply (delete_file_on_directory disk_empty_tmp tmp true). reflexivity.
Defined.

(** C1 (code defect): for a path that does not exist [delete_file] raises
    the [PathValidationError] of the validation, for either value of
    [ignore_missing]: the handler that would return [False] waits for a
    [FileNotFoundError], which the validation never raises. *)
Theorem delete_file_missing_raises fs p (ignore_missing : bool) :
  path_exists fs p = false ->
  delete_file p ignore_missing fs =
    (Raise (PathValidationError p PathDoesNotExist), fs).
Proof.
  intros H. unfold delete_file, try_except, bind, reads, _validate_path.
  now rewrite H.
Qed.

Lemma delete_file_missing_raises_witness :
  path_exists disk_empty_tmp (Child tmp "sem-arquivo.txt") = false /\
  delete_file (Child tmp "sem-arquivo.txt") true disk_empty_tmp =
    (Raise (PathValidationError (Child tmp "sem-arquivo.txt") PathDoesNotExist),
     disk_empty_tmp).
Proof.
  split; [reflexivity|].
  apply (delete_file_missing_raises disk_empty_tmp (Child tmp "sem-arquivo.txt") true).
  reflexivity.
Defined.

(** What [delete_file] does on a regular file whose directory can be
    written in: the file is removed and [True] returned. *)
Lemma delete_file_existing fs p (ignore_missing : bool) :
  is_file fs p = true -> access_w fs (parent_of p) = true ->
  delete_file p ignore_missing fs = (Ok true, delete p fs).
Proof.
  intros Hf Hw. unfold delete_file, try_except, bind, reads, _validate_path, unlink.
  unfold is_file in Hf. unfold path_exists, is_file.
  destruct (stat fs p) as [[data pm|pm]|e] eqn:Es; try discriminate.
  simpl. now rewrite Es, Hw.
Qed.

(** C4 (code defect): when the bytes of a readable file cannot be decoded,
    [read_file] raises [TypeError]: the handler of [UnicodeDecodeError]
    builds a new [UnicodeDecodeError] from one argument, and that call fails
    before anything of the decode-error kind can be raised. *)
Theorem read_file_undecodable_raises_TypeError fs p data pm enc :
  stat fs p = Ok (File data pm) -> r_ok pm = true -> decode enc data = None ->
  read_file p false enc fs = (Raise (TypeError WrongArgumentCount), fs)
  /\ kind_of (TypeError WrongArgumentCount) <> DecodeError.
Proof.
  intros Hs Hr Hd. split; [|discriminate].
  unfold read_file, try_except, bind, reads, _validate_path, read_text, read_bytes, bind.
  unfold path_exists, is_file, access_r.
  rewrite Hs. simpl. rewrite Hr. simpl. rewrite Hs, Hr. simpl. now rewrite Hd.
Qed.

Lemma read_file_undecodable_raises_TypeError_witness :
  let fs := disk_with_file "binario.bin" [Byte.xff] in
  let p := Child tmp "binario.bin" in
  stat fs p = Ok (File [Byte.xff] rw) /\ decode Utf8 [Byte.xff] = None /\
  read_file p false Utf8 fs = (Raise (TypeError WrongArgumentCount), fs).
Proof.
  split; [reflexivity|]. split; [reflexivity|].
  apply (read_file_undecodable_raises_TypeError
           (disk_with_file "binario.bin" [Byte.xff]) (Child tmp "binario.bin")
           [Byte.xff] rw Utf8); reflexivity.
Defined.

End Operations.

(** ** Creation *)

Section Creation.

Implicit Types (fs : filesystem) (p q d : path).

Lemma sanitize_raise_cases c compact e :
  _sanitize_content c compact = Raise e ->
  e = ValueError \/ exists t, e = TypeError t.
Proof.
  unfold _sanitize_content.
  destruct (content_to_str c compact) as [raw|e'] eqn:E.
  - destruct (is_empty _); [|discriminate]. intros [= <-]. now left.
  - intros [= <-]. unfold content_to_str in E.
    destruct c as [items|items|s|n|r|[]| |b|]; try discriminate.
    + destruct (dumps _ _); [discriminate|]. injection E as <-. eauto.
    + destruct (dumps _ _); [discriminate|]. injection E as <-. eauto.
    + destruct (int_to_str n); [discriminate|]. injection E as <-. now left.
    + destruct (utf8_decode b); [discriminate|]. injection E as <-. eauto.
    + injection E as <-. eauto.
Qed.

Lemma is_dir_ancestors fs p :
  is_dir fs p = true -> Forall (fun q => is_dir fs q = true) (ancestors p).
Proof.
  induction p as [|q IH n]; intros H; simpl.
  - now repeat constructor.
  - constructor; [exact H|]. apply IH. unfold is_dir in *. simpl in H.
    now destruct (stat fs q) as [[]|].
Qed.

Lemma ensure_directory_existing fs d :
  is_dir fs d = true -> _ensure_directory d true true fs = (Ok d, fs).
Proof.
  intros H. unfold _ensure_directory. now rewrite (is_dir_exists _ _ H), H.
Qed.

Lemma ensure_directory_makes fs d :
  tree_shaped fs -> path_exists fs d = false -> makeable fs d = true ->
  exists fs', _ensure_directory d true true fs = (Ok d, fs')
    /\ is_dir fs' d = true /\ access_w fs' d = true.
Proof.
  intros Ht Hn Hm. destruct (mkdir_parents_ok fs d Ht Hm) as (fs' & Hrun & Hdir & Hw).
  exists fs'. split; [|split; [exact Hdir | exact (Hw Hn)]].
  unfold _ensure_directory. rewrite Hn. simpl.
  unfold try_except, bind. now rewrite Hrun.
Qed.

(** Whatever [_ensure_directory] does, it writes no entry deeper than the
    directory, and nothing at all when the path is there. *)
Lemma ensure_directory_frame d (a b : bool) fs r fs' :
  _ensure_directory d a b fs = (r, fs') ->
  (path_exists fs d = true -> fs' = fs) /\
  (forall x, (depth d < depth x)%nat -> fs' !! x = fs !! x).
Proof.
  unfold _ensure_directory. destruct (path_exists fs d).
  - intros H. assert (fs' = fs) as ->.
    { destruct (negb (is_dir fs d)); [now injection H as _ <-|].
      destruct (negb b); now injection H as _ <-. }
    now split.
  - intros H. split; [discriminate|]. intros x Hx.
    destruct (negb a); [now injection H as _ <-|].
    unfold try_except, bind in H.
    destruct (mkdir_parents b d fs) as [[[]|e] fs1] eqn:E.
    + injection H as _ <-. eapply mkdir_parents_frame; eassumption.
    + assert (fs' = fs1) as ->.
      { destruct e; simpl in H; unfold raise in H; now injection H as _ <-. }
      eapply mkdir_parents_frame; eassumption.
Qed.

(** C10: when the directory of the target is missing and can be made,
    [create_file] makes it, with the missing directories above it, before it
    looks at the content; when the sanitizer then rejects the content the
    call fails with the sanitizer's error and the directories stay. *)
Theorem create_file_keeps_parents fs p c (overwrite compact : bool) enc e :
  tree_shaped fs ->
  path_exists fs (parent_of p) = false ->
  makeable fs (parent_of p) = true ->
  _sanitize_content c compact = Raise e ->
  exists fs',
    create_file p c overwrite compact enc fs = (Raise e, fs')
    /\ Forall (fun q => is_dir fs' q = true) (ancestors (parent_of p))
    /\ path_exists fs' p = false.
Proof.
  intros Ht Hn Hm Hs.
  destruct p as [|q n]; [discriminate|]. cbn [parent_of] in *.
  destruct (ensure_directory_makes fs q Ht Hn Hm) as (fs' & Hrun & Hdir & _).
  assert (fs' !! Child q n = None) as Hnone.
  { apply ensure_directory_frame in Hrun as [_ Hfr].
    rewrite Hfr by (simpl; lia). apply tree_shaped_no_entry; [exact Ht|].
    unfold is_dir. unfold path_exists in Hn. now destruct (stat fs q). }
  exists fs'. split; [|split].
  - unfold create_file, try_except, bind, reads, pure. cbn [parent_of].
    assert (path_exists fs (Child q n) = false) as ->.
    { unfold path_exists in *. simpl. now destruct (stat fs q) as [[]|]. }
    simpl. rewrite Hrun, Hs.
    destruct (sanitize_raise_cases _ _ _ Hs) as [->|[t ->]]; reflexivity.
  - now apply is_dir_ancestors.
  - unfold path_exists, is_dir in *. simpl.
    destruct (stat fs' q) as [[]|]; try discriminate; [now rewrite Hnone].
Qed.

Lemma create_file_keeps_parents_witness :
  let p := Child (Child (Child tmp "a") "b") "invalido.txt" in
  exists fs',
    create_file p COther true false Utf8 disk_empty_tmp
      = (Raise (TypeError UnsupportedContentType), fs')
    /\ Forall (fun q => is_dir fs' q = true) (ancestors (parent_of p))
    /\ path_exists fs' p = false.
Proof.
  apply (create_file_keeps_parents disk_empty_tmp
           (Child (Child (Child tmp "a") "b") "invalido.txt")
           COther true false Utf8 (TypeError UnsupportedContentType)).
  - apply (bool_decide_eq_true_1 (tree_shaped disk_empty_tmp)). vm_compute. reflexivity.
  - reflexivity.
  - reflexivity.
  - reflexivity.
Defined.

(** *** What the steps of [create_file] can raise *)

Lemma os_mkdir_raises p fs e fs' :
  os_mkdir p fs = (Raise e, fs') -> is_OSError e = true.
Proof.
  unfold os_mkdir. destruct (stat fs p) as [nd|e0] eqn:E0.
  - now intros [= <- _].
  - destruct (stat_raise_cases _ _ _ E0) as [->| ->]; [|now intros [= <- _]].
    destruct (stat fs (parent_of p)) as [[data pm|pm]|e1] eqn:E1.
    + now intros [= <- _].
    + destruct (w_ok pm); [discriminate | now intros [= <- _]].
    + intros [= <- _]. now destruct (stat_raise_cases _ _ _ E1) as [->| ->].
Qed.

Lemma mkdir_tolerate_raises b p e0 fs e fs' :
  mkdir_tolerate b p e0 fs = (Raise e, fs') -> e = e0.
Proof.
  unfold mkdir_tolerate. destruct (negb b || negb (is_dir fs p)); [|discriminate].
  now intros [= <- _].
Qed.

Lemma mkdir_single_raises b p fs e fs' :
  mkdir_single b p fs = (Raise e, fs') -> is_OSError e = true.
Proof.
  unfold mkdir_single, try_except.
  destruct (os_mkdir p fs) as [[[]|e0] fs1] eqn:E; [discriminate|].
  apply os_mkdir_raises in E. intros H.
  destruct e0; try discriminate E; simpl in H;
    try (unfold raise in H; now injection H as <- _);
    now apply mkdir_tolerate_raises in H as ->.
Qed.

Lemma mkdir_parents_raises b p fs e fs' :
  mkdir_parents b p fs = (Raise e, fs') -> is_OSError e = true.
Proof.
  revert b fs e fs'. induction p as [|q IH n]; intros b fs e fs' H.
  - simpl in H. unfold try_except, os_mkdir in H. simpl in H.
    now apply mkdir_tolerate_raises in H as ->.
  - cbn [mkdir_parents] in H. unfold try_except in H.
    destruct (os_mkdir (Child q n) fs) as [[[]|e0] fs1] eqn:E; [discriminate|].
    apply os_mkdir_raises in E.
    destruct e0; try discriminate E; simpl in H;
      try (now apply mkdir_tolerate_raises in H as ->).
    unfold bind in H.
    destruct (mkdir_parents true q fs1) as [[[]|e1] fs2] eqn:E2.
    + eapply mkdir_single_raises; eassumption.
    + injection H as <- _. eapply IH; eassumption.
Qed.

Lemma ensure_directory_raises d fs e fs' :
  _ensure_directory d true true fs = (Raise e, fs') ->
  exists r, e = PathValidationError d r /\
    (r = ExistsButNotDirectory \/ r = MkdirPermissionDenied \/ exists c, r = MkdirFailed c).
Proof.
  unfold _ensure_directory. destruct (path_exists fs d).
  - destruct (negb (is_dir fs d)); [|discriminate]. intros [= <- _]. eauto.
  - simpl. unfold try_except, bind.
    destruct (mkdir_parents true d fs) as [[[]|e0] fs1] eqn:E; [discriminate|].
    apply mkdir_parents_raises in E.
    destruct e0; try discriminate E; simpl; intros [= <- _]; eauto 6.
Qed.

Lemma open_w_raises p fs e fs' :
  open_w p fs = (Raise e, fs') -> is_OSError e = true /\ fs' = fs.
Proof.
  unfold open_w. destruct (stat fs p) as [[data pm|pm]|e0] eqn:E0.
  - destruct (w_ok pm); [discriminate | now intros [= <- <-]].
  - now intros [= <- <-].
  - destruct (stat_raise_cases _ _ _ E0) as [->| ->]; [|now intros [= <- <-]].
    destruct (stat fs (parent_of p)) as [[data pm|pm]|e1] eqn:E1.
    + now intros [= <- <-].
    + destruct (w_ok pm); [discriminate | now intros [= <- <-]].
    + intros [= <- <-]. now destruct (stat_raise_cases _ _ _ E1) as [->| ->].
Qed.

Lemma write_text_raises p (s : pystr) enc fs e fs' :
  write_text p s enc fs = (Raise e, fs') ->
  is_OSError e = true \/ e = UnicodeEncodeError.
Proof.
  unfold write_text, bind.
  destruct (open_w p fs) as [[[]|e0] fs1] eqn:E.
  - destruct (encode enc s).
    + unfold set_data. destruct (fs1 !! p) as [[]|]; try discriminate;
        intros [= <- _]; now left.
    + intros [= <- _]. now right.
  - intros [= <- _]. left. now apply open_w_raises in E.
Qed.

Lemma no_entry_not_exists fs q n :
  fs !! Child q n = None -> path_exists fs (Child q n) = false.
Proof.
  intros H. unfold path_exists. simpl. rewrite H. now destruct (stat fs q) as [[]|].
Qed.

Lemma missing_parent_missing fs q n :
  path_exists fs q = false -> path_exists fs (Child q n) = false.
Proof.
  unfold path_exists. simpl. now destruct (stat fs q) as [[]|].
Qed.

Lemma makeable_existing fs d :
  makeable fs d = true -> path_exists fs d = true -> is_dir fs d = true.
Proof.
  unfold path_exists, is_dir. destruct d; cbn [makeable];
    now destruct (stat fs _) as [[]|].
Qed.

(** On a tree, a directory that can be made is there after
    [_ensure_directory], and can be written in when it was made or could be
    written in before. *)
Lemma ensure_directory_ok fs d :
  tree_shaped fs -> makeable fs d = true ->
  exists fs', _ensure_directory d true true fs = (Ok d, fs')
    /\ is_dir fs' d = true
    /\ (negb (path_exists fs d) || access_w fs d = true -> access_w fs' d = true).
Proof.
  intros Ht Hm. destruct (path_exists fs d) eqn:Hex.
  - exists fs. pose proof (makeable_existing _ _ Hm Hex) as Hd.
    split; [now apply ensure_directory_existing | now split].
  - destruct (ensure_directory_makes fs d Ht Hex Hm) as (fs' & H1 & H2 & H3).
    exists fs'. now repeat split.
Qed.

(** The step that ensures the directory leaves the target as it was. *)
Lemma ensure_directory_target fs p (a b : bool) r fs' :
  tree_shaped fs ->
  _ensure_directory (parent_of p) a b fs = (r, fs') ->
  fs' !! p = fs !! p /\ path_exists fs' p = path_exists fs p.
Proof.
  intros Ht H. apply ensure_directory_frame in H as [Hsame Hdeep].
  destruct (path_exists fs (parent_of p)) eqn:Hex; [now rewrite Hsame|].
  destruct p as [|q n]; [discriminate|]. cbn [parent_of] in *.
  assert (fs' !! Child q n = fs !! Child q n) as Hl by (apply Hdeep; simpl; lia).
  split; [exact Hl|].
  rewrite (missing_parent_missing _ _ _ Hex). apply no_entry_not_exists.
  rewrite Hl. apply tree_shaped_no_entry; [exact Ht|].
  unfold is_dir. unfold path_exists in Hex. now destruct (stat fs q).
Qed.

Lemma sanitize_empty c compact (raw : pystr) :
  content_to_str c compact = Ok raw -> strip (clean compact raw) = [] ->
  _sanitize_content c compact = Raise ValueError.
Proof. intros H1 H2. unfold _sanitize_content. now rewrite H1, H2. Qed.

(** *** A directory that cannot be made *)

Lemma mkdir_parents_blocked fs p :
  makeable fs p = false ->
  forall b : bool, exists e, mkdir_parents b p fs = (Raise e, fs).
Proof.
  induction p as [|q IH n]; intros Hm b; [discriminate|].
  cbn [makeable] in Hm. cbn [mkdir_parents]. unfold try_except, os_mkdir.
  destruct (stat fs (Child q n)) as [[data pm|pm]|e] eqn:Ep; [| discriminate |].
  - exists FileExistsError. simpl. unfold mkdir_tolerate, is_dir. rewrite Ep.
    now rewrite orb_true_r.
  - assert (is_dir fs (Child q n) = false) as Hnd by (unfold is_dir; now rewrite Ep).
    destruct (stat_raise_cases _ _ _ Ep) as [->| ->].
    + cbn [parent_of]. destruct (stat fs q) as [[data pm|pm]|e] eqn:Eq.
      * simpl in Ep. rewrite Eq in Ep. discriminate.
      * assert (makeable fs q = true) as Hq by (destruct q; cbn [makeable]; now rewrite Eq).
        rewrite Hq in Hm. unfold path_exists, access_w in Hm. rewrite Eq in Hm.
        simpl in Hm. rewrite Hm. exists PermissionError. simpl.
        unfold mkdir_tolerate. now rewrite Hnd, orb_true_r.
      * assert (e = FileNotFoundError) as ->
          by (simpl in Ep; rewrite Eq in Ep; congruence).
        assert (makeable fs q = false) as Hq.
        { unfold path_exists in Hm. rewrite Eq in Hm. simpl in Hm.
          now rewrite andb_true_r in Hm. }
        destruct (IH Hq true) as [e He]. exists e. simpl. unfold bind. now rewrite He.
    + exists NotADirectoryError. simpl. unfold mkdir_tolerate.
      now rewrite Hnd, orb_true_r.
Qed.

(** When the nearest ancestor that is there blocks the way (it is a
    regular file, or a directory the process cannot write in),
    [_ensure_directory] raises before anything is made. *)
Lemma ensure_directory_stuck fs d (exist_ok : bool) :
  makeable fs d = false ->
  exists r,
    _ensure_directory d true exist_ok fs = (Raise (PathValidationError d r), fs)
    /\ (if path_exists fs d then r = ExistsButNotDirectory
        else kind_of (PathValidationError d r) = DirectoryCreateFailed).
Proof.
  intros Hm. unfold _ensure_directory.
  destruct (path_exists fs d) eqn:Hex.
  - assert (is_dir fs d = false) as ->.
    { unfold is_dir, path_exists in *. destruct d; cbn [makeable] in Hm;
        [discriminate|]. now destruct (stat fs _) as [[]|]. }
    cbn [negb]. eauto.
  - cbn [negb]. unfold try_except, bind.
    destruct (mkdir_parents_blocked fs d Hm exist_ok) as [e He]. rewrite He.
    pose proof (mkdir_parents_raises _ _ _ _ _ He) as Hos.
    destruct e; try discriminate Hos; simpl; eauto.
Qed.

(** C9, as the code has it: with a content whose sanitized form is empty
    after trimming, the empty string of the default included,
    [create_file] always fails and leaves the target as it was.  Which
    error it is follows the order of the steps.  When the target is there
    and [overwrite] is off, it is the [PathValidationError] of the
    overwrite guard and the content is not looked at.  Otherwise, when the
    directory of the target is there or can be made, it is the
    [ValueError] of the sanitizer.  Otherwise it is the
    [PathValidationError] that [_ensure_directory] raises for the
    directory, and the disk is as it was. *)
Theorem create_file_empty_content fs p c (overwrite compact : bool) enc (raw : pystr) :
  tree_shaped fs ->
  content_to_str c compact = Ok raw -> strip (clean compact raw) = [] ->
  exists e fs',
    create_file p c overwrite compact enc fs = (Raise e, fs')
    /\ fs' !! p = fs !! p
    /\ path_exists fs' p = path_exists fs p
    /\ (if path_exists fs p && negb overwrite
        then e = PathValidationError p FileExistsNoOverwrite
             /\ kind_of e = AlreadyExists /\ fs' = fs
        else if makeable fs (parent_of p)
        then e = ValueError /\ kind_of e = EmptyContent
        else fs' = fs
             /\ exists r, e = PathValidationError (parent_of p) r
                  /\ _ensure_directory (parent_of p) true true fs = (Raise e, fs)).
Proof.
  intros Ht Hraw Hempty. pose proof (sanitize_empty _ _ _ Hraw Hempty) as Hs.
  unfold create_file, try_except, bind, reads, pure.
  destruct (path_exists fs p && negb overwrite) eqn:Hguard.
  - exists (PathValidationError p FileExistsNoOverwrite), fs.
    split; [reflexivity|]. split; [reflexivity|]. split; [reflexivity|].
    now repeat split.
  - destruct (makeable fs (parent_of p)) eqn:Hm.
    + destruct (ensure_directory_ok _ _ Ht Hm) as (fs1 & En & _).
      rewrite En, Hs. exists ValueError, fs1. simpl.
      destruct (ensure_directory_target _ _ _ _ _ _ Ht En) as [H1 H2].
      split; [reflexivity|]. split; [exact H1|]. split; [exact H2|]. now split.
    + destruct (ensure_directory_stuck _ _ true Hm) as (r & En & _).
      rewrite En. exists (PathValidationError (parent_of p) r), fs. simpl.
      split; [reflexivity|]. split; [reflexivity|]. split; [reflexivity|].
      split; [reflexivity|]. now exists r.
Qed.

Lemma create_file_empty_content_witness :
  let p := Child tmp "vazio.txt" in
  exists e fs',
    create_file p (CStr []) true false Utf8 disk_empty_tmp = (Raise e, fs')
    /\ fs' !! p = disk_empty_tmp !! p
    /\ path_exists fs' p = path_exists disk_empty_tmp p
    /\ (if path_exists disk_empty_tmp p && negb true
        then e = PathValidationError p FileExistsNoOverwrite
             /\ kind_of e = AlreadyExists /\ fs' = disk_empty_tmp
        else if makeable disk_empty_tmp (parent_of p)
        then e = ValueError /\ kind_of e = EmptyContent
        else fs' = disk_empty_tmp
             /\ exists r, e = PathValidationError (parent_of p) r
                  /\ _ensure_directory (parent_of p) true true disk_empty_tmp
                     = (Raise e, disk_empty_tmp)).
Proof.
  apply (create_file_empty_content disk_empty_tmp (Child tmp "vazio.txt")
           (CStr []) true false Utf8 []).
  - apply (bool_decide_eq_true_1 (tree_shaped disk_empty_tmp)). vm_compute. reflexivity.
  - reflexivity.
  - reflexivity.
Defined.

(** C9 as stated fails: on a file that is there, with [overwrite=False],
    the empty content is never looked at and the error is the
    [PathValidationError] of the overwrite guard. *)
Lemma create_file_empty_content_counterexample :
  ~ (forall fs p c (overwrite compact : bool) enc,
       _sanitize_content c compact = Raise ValueError ->
       exists fs', create_file p c overwrite compact enc fs = (Raise ValueError, fs')).
Proof.
  intros H.
  destruct (H (disk_with_file "fixo.txt" [Byte.x6f]) (Child tmp "fixo.txt")
              (CStr []) false false Utf8 eq_refl) as [fs' E].
  discriminate E.
Qed.

(** *** Writing a new file *)

Lemma write_text_fresh fs q n (s : pystr) enc data pm :
  stat fs q = Ok (Dir pm) -> w_ok pm = true -> fs !! Child q n = None ->
  encode enc s = Some data ->
  write_text (Child q n) s enc fs = (Ok tt, <[Child q n := File data rw]> fs).
Proof.
  intros Hq Hw Hnone Henc. unfold write_text, bind, open_w.
  rewrite (stat_child_dir _ _ _ _ Hq), Hnone. cbn [parent_of].
  rewrite Hq, Hw, Henc. unfold set_data. rewrite lookup_insert_eq.
  now rewrite insert_insert_eq.
Qed.

Lemma read_file_text fs p data pm enc (s : pystr) :
  stat fs p = Ok (File data pm) -> r_ok pm = true ->
  decode enc data = Some s -> Forall (fun c => c <> CR) s ->
  read_file p false enc fs = (Ok (Text s), fs).
Proof.
  intros Hs Hr Hd Hcr.
  unfold read_file, try_except, bind, reads, _validate_path, read_text, read_bytes, bind.
  unfold path_exists, is_file, access_r.
  rewrite Hs. simpl. rewrite Hr. simpl. rewrite Hs, Hr. simpl. rewrite Hd.
  unfold ret. now rewrite (normalize_newlines_no_cr _ Hcr).
Qed.

(** A new file: the target is missing, an entry can be put there and the
    content has a sanitized form. *)
Lemma create_file_fresh fs p c (overwrite compact : bool) enc (s : pystr) :
  tree_shaped fs ->
  path_exists fs p = false -> creatable fs p = true ->
  _sanitize_content c compact = Ok s ->
  exists fs' data,
    create_file p c overwrite compact enc fs = (Ok p, fs')
    /\ stat fs' p = Ok (File data rw)
    /\ decode enc data = Some s
    /\ read_file p false enc fs' = (Ok (Text s), fs').
Proof.
  intros Ht Hex Hc Hs.
  destruct p as [|q n]; [discriminate|].
  unfold creatable in Hc. cbn [parent_of] in Hc. apply andb_prop in Hc as [Hm Hw].
  destruct (ensure_directory_ok fs q Ht Hm) as (fs1 & Hrun & Hdir & Hacc).
  specialize (Hacc Hw).
  assert (fs1 !! Child q n = None) as Hnone.
  { destruct (ensure_directory_target fs (Child q n) true true _ _ Ht Hrun) as [Hl He].
    rewrite Hex in He. unfold path_exists in He. simpl in He.
    unfold is_dir in Hdir. destruct (stat fs1 q) as [[]|]; try discriminate.
    now destruct (fs1 !! Child q n). }
  unfold is_dir in Hdir. unfold access_w in Hacc.
  destruct (stat fs1 q) as [[d0 pm|pm]|e] eqn:Eq; try discriminate. simpl in Hacc.
  pose proof (sanitize_kept _ _ _ Hs) as Hkept.
  destruct (codec_ascii_roundtrip enc s) as (data & Henc & Hdec).
  { eapply Forall_impl; [exact Hkept|]. apply keep_char_ascii. }
  exists (<[Child q n := File data rw]> fs1), data.
  assert (stat (<[Child q n := File data rw]> fs1) (Child q n) = Ok (File data rw)) as Hst
    by (eapply stat_insert_child; exact Eq).
  split; [|split; [exact Hst | split; [exact Hdec|]]].
  - unfold create_file, try_except, bind, reads, pure. rewrite Hex. simpl.
    rewrite Hrun, Hs. now rewrite (write_text_fresh _ _ _ _ _ _ _ Eq Hacc Hnone Henc).
  - eapply read_file_text; [exact Hst | reflexivity | exact Hdec |].
    eapply Forall_impl; [exact Hkept|]. apply keep_char_not_cr.
Qed.

(** What [create_file] raises when the overwrite guard lets the call go on
    is never of the AlreadyExists kind. *)
Lemma create_file_other_errors fs p c (compact : bool) enc e fs' :
  path_exists fs p = false ->
  create_file p c false compact enc fs = (Raise e, fs') ->
  kind_of e <> AlreadyExists.
Proof.
  intros Hex. unfold create_file, try_except, bind, reads, pure. rewrite Hex. simpl.
  destruct (_ensure_directory (parent_of p) true true fs) as [[d|e1] fs1] eqn:En.
  - destruct (_sanitize_content c compact) as [s|e2] eqn:Es.
    + destruct (write_text p s enc fs1) as [[[]|e3] fs2] eqn:Ew; [discriminate|].
      apply write_text_raises in Ew.
      destruct Ew as [Hos| ->]; [|now intros [= <- _]].
      destruct e3; try discriminate Hos; now intros [= <- _].
    + destruct (sanitize_raise_cases _ _ _ Es) as [->|[t ->]];
        intros [= <- _]; [discriminate | now destruct t].
  - destruct (ensure_directory_raises _ _ _ _ En) as (r & -> & [->|[->|[c0 ->]]]);
      now intros [= <- _].
Qed.

(** C5, as the code has it: with [overwrite=False], [create_file] fails
    with an error of the AlreadyExists kind exactly when the target is there
    beforehand.  When the target is missing, the content has a sanitized
    form and an entry can be put at the target (its directory is there or
    can be made, and can be written in), the call succeeds and the file
    holds the sanitized form, which is what [read_file] then returns. *)
Theorem create_file_no_overwrite fs p c (compact : bool) enc :
  tree_shaped fs ->
  ((exists e fs', create_file p c false compact enc fs = (Raise e, fs')
                  /\ kind_of e = AlreadyExists)
   <-> path_exists fs p = true)
  /\ (forall s : pystr,
        path_exists fs p = false -> creatable fs p = true ->
        _sanitize_content c compact = Ok s ->
        exists fs' data,
          create_file p c false compact enc fs = (Ok p, fs')
          /\ stat fs' p = Ok (File data rw)
          /\ decode enc data = Some s
          /\ read_file p false enc fs' = (Ok (Text s), fs')).
Proof.
  intros Ht. split; [split|].
  - intros (e & fs' & Hrun & Hk). destruct (path_exists fs p) eqn:Hex; [reflexivity|].
    now apply create_file_other_errors in Hrun.
  - intros Hex. exists (PathValidationError p FileExistsNoOverwrite), fs.
    split; [|reflexivity].
    unfold create_file, try_except, bind, reads. now rewrite Hex.
  - intros s. now apply create_file_fresh.
Qed.

Lemma create_file_no_overwrite_witness :
  let p := Child (Child tmp "novo") "arquivo.txt" in
  let s := cps "Conteudo" in
  exists fs' data,
    create_file p (CStr s) false false Utf8 disk_empty_tmp = (Ok p, fs')
    /\ stat fs' p = Ok (File data rw)
    /\ decode Utf8 data = Some s
    /\ read_file p false Utf8 fs' = (Ok (Text s), fs').
Proof.
  assert (tree_shaped disk_empty_tmp) as Ht
    by (apply (bool_decide_eq_true_1 (tree_shaped disk_empty_tmp)); vm_compute; reflexivity).
  destruct (create_file_no_overwrite disk_empty_tmp
              (Child (Child tmp "novo") "arquivo.txt") (CStr (cps "Conteudo"))
              false Utf8 Ht) as [_ H].
  apply H; reflexivity.
Defined.

(** C5 as stated fails: a missing target is not enough for the call to
    succeed, since the sanitizer rejects a content that is empty. *)
Lemma create_file_no_overwrite_counterexample :
  ~ (forall fs p c (compact : bool) enc,
       path_exists fs p = false ->
       exists fs', create_file p c false compact enc fs = (Ok p, fs')).
Proof.
  intros H.
  destruct (H disk_empty_tmp (Child tmp "novo.txt") (CStr []) false Utf8 eq_refl)
    as [fs' E].
  discriminate E.
Qed.

End Creation.

(** ** JSON: what is written is read back *)

Section JsonStrings.

Lemma hex_val_hex_digit (d : N) : d < 16 -> hex_val (hex_digit d) = Some d.
Proof.
  intros Hd. unfold hex_digit, hex_val, is_digit, in_range.
  destruct (N.ltb_spec d 10).
  - replace ((48 <=? 48 + d) && (48 + d <=? 57)) with true
      by (symmetry; apply andb_true_intro; split; apply N.leb_le; lia).
    f_equal. lia.
  - replace ((48 <=? 87 + d) && (87 + d <=? 57)) with false
      by (symmetry; apply andb_false_intro2; apply N.leb_gt; lia).
    replace ((97 <=? 87 + d) && (87 + d <=? 102)) with true
      by (symmetry; apply andb_true_intro; split; apply N.leb_le; lia).
    f_equal. lia.
Qed.

Lemma scan_string_literal (c : N) (rest : pystr) :
  c <> 0x22 -> c <> 0x5C -> 0x20 <= c ->
  scan_string (c :: rest) = with_char c (scan_string rest).
Proof.
  intros H1 H2 H3. cbn [scan_string].
  apply N.eqb_neq in H1, H2. rewrite H1, H2.
  now replace (c <? 0x20) with false by (symmetry; apply N.ltb_ge; exact H3).
Qed.

Lemma scan_string_control (c : N) (rest : pystr) :
  c < 0x20 ->
  scan_string ([0x5C; 0x75; 48; 48; hex_digit (c / 16); hex_digit (c mod 16)] ++ rest)
  = with_char c (scan_string rest).
Proof.
  intros Hc. cbn [scan_string app].
  change (0x5C =? 0x22) with false. change (0x5C =? 0x5C) with true.
  change (0x75 =? 0x75) with true. cbv iota.
  unfold hex4. change (hex_val 48) with (Some 0).
  rewrite (hex_val_hex_digit (c / 16))
    by (apply N.Div0.div_lt_upper_bound; lia).
  rewrite (hex_val_hex_digit (c mod 16)) by (apply N.mod_lt; lia).
  replace (((0 * 16 + 0) * 16 + c / 16) * 16 + c mod 16) with c
    by (rewrite (N.div_mod c 16) at 1 by lia; lia).
  unfold in_range.
  now replace (0xD800 <=? c) with false by (symmetry; apply N.leb_gt; lia).
Qed.

(** An escaped character is read back as the character. *)
Lemma scan_string_escape (c : N) (rest : pystr) :
  scan_string (escape_char c ++ rest) = with_char c (scan_string rest).
Proof.
  unfold escape_char.
  destruct (N.eqb_spec c 0x5C) as [->|H1]; [reflexivity|].
  destruct (N.eqb_spec c 0x22) as [->|H2]; [reflexivity|].
  destruct (N.eqb_spec c 0x08) as [->|H3]; [reflexivity|].
  destruct (N.eqb_spec c 0x0C) as [->|H4]; [reflexivity|].
  destruct (N.eqb_spec c 0x0A) as [->|H5]; [reflexivity|].
  destruct (N.eqb_spec c 0x0D) as [->|H6]; [reflexivity|].
  destruct (N.eqb_spec c 0x09) as [->|H7]; [reflexivity|].
  destruct (N.ltb_spec c 0x20) as [H8|H8].
  - now apply scan_string_control.
  - now apply scan_string_literal.
Qed.

Lemma scan_string_body (s rest : pystr) :
  scan_string (concat (map escape_char s) ++ 0x22 :: rest) = Some (s, rest).
Proof.
  induction s as [|c t IH]; [reflexivity|].
  cbn [map concat]. rewrite <- app_assoc, scan_string_escape, IH. reflexivity.
Qed.

(** *** Integers *)

Lemma scan_digits_uint (u : Decimal.uint) (rest : pystr) :
  match rest with [] => True | c :: _ => is_digit c = false end ->
  scan_digits (uint_cps u ++ rest) = (u, rest).
Proof.
  intros Hrest. induction u as [|u IH|u IH|u IH|u IH|u IH|u IH|u IH|u IH|u IH|u IH];
    cbn [uint_cps app scan_digits];
    try (change (is_digit 48) with true; change (is_digit 49) with true;
         change (is_digit 50) with true; change (is_digit 51) with true;
         change (is_digit 52) with true; change (is_digit 53) with true;
         change (is_digit 54) with true; change (is_digit 55) with true;
         change (is_digit 56) with true; change (is_digit 57) with true;
         cbv iota; rewrite IH; reflexivity).
  destruct rest as [|c t]; [reflexivity|]. cbn [scan_digits]. now rewrite Hrest.
Qed.

Lemma to_uint_no_leading_zero (p : positive) (u : Decimal.uint) :
  Pos.to_uint p <> D0 u.
Proof.
  intros E.
  pose proof (DecimalPos.Unsigned.to_of (Pos.to_uint p)) as H.
  rewrite DecimalPos.Unsigned.of_to in H. simpl in H.
  pose proof (DecimalPos.Unsigned.to_uint_nonzero p) as Hnz.
  rewrite E in H, Hnz. rewrite DecimalFacts.unorm_D0 in H.
  unfold unorm in H. destruct (nzhead u) eqn:En; try discriminate H.
  - exact (Hnz H).
  - exact (DecimalFacts.nzhead_nonzero _ _ En).
Qed.

(** *** Numbers *)

Lemma number_end_cons (c : N) (r : pystr) :
  number_end (c :: r) = true ->
  is_digit c = false /\ (c =? 0x2E) = false /\ (c =? 0x65) = false
  /\ (c =? 0x45) = false /\ (c =? 0x2B) = false /\ (c =? 0x2D) = false.
Proof.
  unfold number_end, float_char. intros H. apply negb_true_iff in H.
  repeat (apply orb_false_elim in H as [H ?]). now repeat split.
Qed.

Lemma value_end_number_end (rest : pystr) :
  value_end_any rest = true -> number_end rest = true.
Proof.
  destruct rest as [|c t]; [reflexivity|]. unfold value_end_any, number_end.
  intros H. repeat (apply orb_prop in H as [H|H]);
    apply N.eqb_eq in H; now subst.
Qed.

(** The scanners take the same from a text when something that ends a
    number is put after it. *)
Lemma span_digits_app (a rest ds a' : pystr) :
  span_digits a = (ds, a') -> number_end rest = true ->
  span_digits (a ++ rest) = (ds, a' ++ rest).
Proof.
  intros H Hend. revert ds a' H. induction a as [|c t IH]; intros ds a' H.
  - injection H as <- <-. destruct rest as [|c r]; [reflexivity|].
    cbn [app span_digits]. now destruct (number_end_cons _ _ Hend) as [-> _].
  - cbn [span_digits] in H. cbn [app span_digits]. destruct (is_digit c).
    + destruct (span_digits t) as [ds' r'] eqn:E. injection H as <- <-.
      now rewrite (IH _ _ eq_refl).
    + now injection H as <- <-.
Qed.

Lemma scan_digits_app (a rest : pystr) (u : Decimal.uint) (a' : pystr) :
  scan_digits a = (u, a') -> number_end rest = true ->
  scan_digits (a ++ rest) = (u, a' ++ rest).
Proof.
  intros H Hend. revert u a' H. induction a as [|c t IH]; intros u a' H.
  - injection H as <- <-. destruct rest as [|c r]; [reflexivity|].
    cbn [app scan_digits]. now destruct (number_end_cons _ _ Hend) as [-> _].
  - cbn [scan_digits] in H. cbn [app scan_digits]. destruct (is_digit c).
    + destruct (scan_digits t) as [u' r'] eqn:E. injection H as <- <-.
      now rewrite (IH _ _ eq_refl).
    + now injection H as <- <-.
Qed.

Lemma scan_int_part_app (a rest : pystr) (u : Decimal.uint) (a' : pystr) :
  scan_int_part a = Some (u, a') -> number_end rest = true ->
  scan_int_part (a ++ rest) = Some (u, a' ++ rest).
Proof.
  destruct a as [|c t]; [discriminate|]. unfold scan_int_part. cbn [app].
  destruct (c =? 48); [now intros [= <- <-]|].
  destruct (in_range 49 57 c); [|discriminate].
  intros [= H] Hend. f_equal. change (c :: t ++ rest) with ((c :: t) ++ rest).
  now apply scan_digits_app.
Qed.

Lemma scan_frac_app (a rest f a' : pystr) :
  scan_frac a = (f, a') -> number_end rest = true ->
  scan_frac (a ++ rest) = (f, a' ++ rest).
Proof.
  intros H Hend. destruct a as [|c t].
  - injection H as <- <-. destruct rest as [|c r]; [reflexivity|].
    cbn [app]. unfold scan_frac.
    now destruct (number_end_cons _ _ Hend) as (_ & -> & _).
  - unfold scan_frac in *. cbn [app]. destruct t as [|d t'].
    + rewrite andb_false_r in H. injection H as <- <-.
      destruct rest as [|x r]; cbn [app]; [now rewrite andb_false_r|].
      destruct (number_end_cons _ _ Hend) as (-> & _). now rewrite andb_false_r.
    + cbn [app]. destruct ((c =? 0x2E) && is_digit d); [|now injection H as <- <-].
      destruct (span_digits (d :: t')) as [ds r0] eqn:E. injection H as <- <-.
      change (d :: t' ++ rest) with ((d :: t') ++ rest).
      now rewrite (span_digits_app _ _ _ _ E Hend).
Qed.

Lemma scan_exp_app (a rest x a' : pystr) :
  scan_exp a = (x, a') -> number_end rest = true ->
  scan_exp (a ++ rest) = (x, a' ++ rest).
Proof.
  intros H Hend. destruct a as [|c t].
  - injection H as <- <-. destruct rest as [|c r]; [reflexivity|].
    cbn [app]. unfold scan_exp.
    now destruct (number_end_cons _ _ Hend) as (_ & _ & -> & -> & _).
  - unfold scan_exp in *. cbn [app].
    destruct ((c =? 0x65) || (c =? 0x45)); [|now injection H as <- <-].
    destruct t as [|d t'].
    + injection H as <- <-. destruct rest as [|y r]; [reflexivity|]. cbn [app].
      destruct (number_end_cons _ _ Hend) as (-> & _ & _ & _ & -> & ->). reflexivity.
    + cbn [app]. destruct (is_digit d).
      * destruct (span_digits (d :: t')) as [ds r0] eqn:E. injection H as <- <-.
        change (d :: t' ++ rest) with ((d :: t') ++ rest).
        now rewrite (span_digits_app _ _ _ _ E Hend).
      * destruct ((d =? 0x2B) || (d =? 0x2D)); [|now injection H as <- <-].
        cbn [andb] in *. destruct t' as [|y t''].
        -- injection H as <- <-. destruct rest as [|z r]; [reflexivity|]. cbn [app].
           now destruct (number_end_cons _ _ Hend) as (-> & _).
        -- cbn [app]. destruct (is_digit y); [|now injection H as <- <-].
           destruct (span_digits (y :: t'')) as [ds r0] eqn:E. injection H as <- <-.
           change (y :: t'' ++ rest) with ((y :: t'') ++ rest).
           now rewrite (span_digits_app _ _ _ _ E Hend).
Qed.

Lemma scan_number_app (a rest : pystr) (v : json) (a' : pystr) :
  scan_number a = Some (v, a') -> number_end rest = true ->
  scan_number (a ++ rest) = Some (v, a' ++ rest).
Proof.
  intros H Hend. destruct a as [|c t]; [discriminate|].
  unfold scan_number in *. cbn [app]. destruct (c =? 0x2D).
  - destruct (scan_int_part t) as [[u r0]|] eqn:E0; [|discriminate].
    rewrite (scan_int_part_app _ _ _ _ E0 Hend).
    destruct (scan_frac r0) as [f r1] eqn:E1. rewrite (scan_frac_app _ _ _ _ E1 Hend).
    destruct (scan_exp r1) as [x r2] eqn:E2. rewrite (scan_exp_app _ _ _ _ E2 Hend).
    destruct (is_empty f && is_empty x).
    + destruct (_ <=? _); [|discriminate]. now injection H as <- <-.
    + now injection H as <- <-.
  - destruct (scan_int_part (c :: t)) as [[u r0]|] eqn:E0; [|discriminate].
    change (c :: t ++ rest) with ((c :: t) ++ rest).
    rewrite (scan_int_part_app _ _ _ _ E0 Hend).
    destruct (scan_frac r0) as [f r1] eqn:E1. rewrite (scan_frac_app _ _ _ _ E1 Hend).
    destruct (scan_exp r1) as [x r2] eqn:E2. rewrite (scan_exp_app _ _ _ _ E2 Hend).
    destruct (is_empty f && is_empty x).
    + destruct (_ <=? _); [|discriminate]. now injection H as <- <-.
    + now injection H as <- <-.
Qed.

(** What is matched starts with a sign or a digit. *)
Lemma scan_number_head (s : pystr) (x : json * pystr) :
  scan_number s = Some x ->
  exists c t, s = c :: t /\ (c = 0x2D \/ is_digit c = true).
Proof.
  destruct s as [|c t]; [discriminate|]. intros H. exists c, t. split; [reflexivity|].
  unfold scan_number in H. destruct (N.eqb_spec c 0x2D) as [->|Hc]; [now left|]. right.
  unfold scan_int_part in H. destruct (N.eqb_spec c 48) as [->|H0]; [reflexivity|].
  unfold is_digit. unfold in_range in H.
  destruct ((49 <=? c) && (c <=? 57)) eqn:E; [|discriminate].
  apply andb_prop in E as [E1 E2]. rewrite E2, andb_true_r.
  apply N.leb_le in E1. apply N.leb_le. lia.
Qed.

Lemma scan_int_part_pos (p : positive) :
  scan_int_part (uint_cps (Pos.to_uint p)) = Some (Pos.to_uint p, [])
  /\ exists c t, uint_cps (Pos.to_uint p) = c :: t /\ in_range 49 57 c = true.
Proof.
  pose proof (to_uint_no_leading_zero p) as Hz.
  pose proof (DecimalPos.Unsigned.to_uint_nonnil p) as Hn.
  pose proof (scan_digits_uint (Pos.to_uint p) [] I) as Hd. rewrite app_nil_r in Hd.
  destruct (Pos.to_uint p) as [|u|u|u|u|u|u|u|u|u|u];
    [congruence | now elim (Hz u) | ..];
    (split; [unfold scan_int_part; cbn [uint_cps] in *; now rewrite <- Hd
            | eexists _, _; split; reflexivity]).
Qed.

Lemma int_fits_digits (p : positive) :
  int_fits (Z.pos p) = (N.of_nat (length (uint_cps (Pos.to_uint p))) <=? int_max_str_digits)
  /\ int_fits (Z.neg p) = int_fits (Z.pos p).
Proof. split; reflexivity. Qed.

(** An integer within the limit is read back, whatever closes the value
    after it. *)
Lemma scan_number_int (n : Z) (rest : pystr) :
  int_fits n = true -> number_end rest = true ->
  scan_number (str_int n ++ rest) = Some (JInt n, rest).
Proof.
  intros Hfit Hend.
  assert (scan_number (str_int n) = Some (JInt n, [])) as H0.
  { pose proof (DecimalZ.of_to n) as Hn. unfold str_int.
    destruct n as [|p|p]; cbn [Z.to_int] in *.
    - reflexivity.
    - destruct (int_fits_digits p) as [Hf _]. rewrite Hf in Hfit.
      destruct (scan_int_part_pos p) as (Hs & c & t & Hc & Hr).
      unfold scan_number. rewrite Hc in Hs |- *.
      replace (c =? 0x2D) with false
        by (symmetry; apply N.eqb_neq; unfold in_range in Hr;
            apply andb_prop in Hr as [Hr _]; apply N.leb_le in Hr; lia).
      rewrite Hs. cbn [scan_frac scan_exp is_empty andb]. now rewrite Hfit, Hn.
    - destruct (int_fits_digits p) as [Hf Hg]. rewrite Hg, Hf in Hfit.
      destruct (scan_int_part_pos p) as (Hs & _).
      unfold scan_number. change (0x2D =? 0x2D) with true. cbv iota.
      rewrite Hs. cbn [scan_frac scan_exp is_empty andb]. now rewrite Hfit, Hn. }
  exact (scan_number_app _ _ _ _ H0 Hend).
Qed.

(** *** Floats *)

Lemma span_digits_chars (a ds r : pystr) :
  span_digits a = (ds, r) -> Forall (fun c => is_digit c = true) ds.
Proof.
  revert ds r. induction a as [|c t IH]; intros ds r H.
  - injection H as <- <-. constructor.
  - cbn [span_digits] in H. destruct (is_digit c) eqn:Ec.
    + destruct (span_digits t) as [ds' r'] eqn:E. injection H as <- <-.
      constructor; [exact Ec | now apply (IH _ _ eq_refl)].
    + injection H as <- <-. constructor.
Qed.

Lemma digits_float_chars (ds : pystr) :
  Forall (fun c => is_digit c = true) ds -> Forall (fun c => float_char c = true) ds.
Proof.
  intros H. eapply Forall_impl; [exact H|]. intros c Hc. unfold float_char. now rewrite Hc.
Qed.

Lemma uint_cps_digits (u : Decimal.uint) :
  Forall (fun c => is_digit c = true) (uint_cps u).
Proof. induction u; cbn [uint_cps]; constructor; auto. Qed.

Lemma scan_frac_chars (a f r : pystr) :
  scan_frac a = (f, r) -> Forall (fun c => float_char c = true) f.
Proof.
  unfold scan_frac. destruct a as [|c t]; [intros [= <- <-]; constructor|].
  destruct (c =? 0x2E) eqn:Ec; cbn [andb]; [|intros [= <- <-]; constructor].
  destruct (match t with d :: _ => is_digit d | [] => false end);
    [|intros [= <- <-]; constructor].
  destruct (span_digits t) as [ds r0] eqn:E. intros [= <- <-].
  constructor; [unfold float_char; rewrite Ec; now rewrite orb_true_r|].
  apply digits_float_chars. eapply span_digits_chars; eassumption.
Qed.

Lemma scan_exp_chars (a x r : pystr) :
  scan_exp a = (x, r) -> Forall (fun c => float_char c = true) x.
Proof.
  unfold scan_exp. destruct a as [|c t]; [intros [= <- <-]; constructor|].
  destruct ((c =? 0x65) || (c =? 0x45)) eqn:Ec; [|intros [= <- <-]; constructor].
  assert (float_char c = true) as Hc.
  { unfold float_char. apply orb_prop in Ec as [-> | ->];
      now rewrite ?orb_true_r. }
  destruct t as [|d t']; [intros [= <- <-]; constructor|].
  destruct (is_digit d).
  - destruct (span_digits (d :: t')) as [ds r0] eqn:E. intros [= <- <-].
    constructor; [exact Hc|]. apply digits_float_chars.
    eapply span_digits_chars; eassumption.
  - destruct ((d =? 0x2B) || (d =? 0x2D)) eqn:Ed; cbn [andb];
      [|intros [= <- <-]; constructor].
    destruct (match t' with y :: _ => is_digit y | [] => false end);
      [|intros [= <- <-]; constructor].
    destruct (span_digits t') as [ds r0] eqn:E. intros [= <- <-].
    constructor; [exact Hc|]. constructor.
    + unfold float_char. apply orb_prop in Ed as [-> | ->]; now rewrite ?orb_true_r.
    + apply digits_float_chars. eapply span_digits_chars; eassumption.
Qed.

(** The text of a float that was matched holds digits, a sign, a point
    and the letter of the exponent, and nothing else. *)
Lemma scan_number_float_chars (s t rest : pystr) :
  scan_number s = Some (JFloat t, rest) ->
  Forall (fun c => float_char c = true) t.
Proof.
  unfold scan_number.
  destruct (match s with
            | c :: t0 => if c =? 0x2D then (true, t0) else (false, s)
            | [] => (false, s)
            end) as [negative digits].
  destruct (scan_int_part digits) as [[u r0]|]; [|discriminate].
  destruct (scan_frac r0) as [f r1] eqn:E1.
  destruct (scan_exp r1) as [x r2] eqn:E2.
  destruct (is_empty f && is_empty x).
  - destruct (_ <=? _); discriminate.
  - intros [= <- <-]. apply Forall_app. split.
    + destruct negative; now repeat constructor.
    + apply Forall_app. split; [apply digits_float_chars, uint_cps_digits|].
      apply Forall_app. split;
        [eapply scan_frac_chars | eapply scan_exp_chars]; eassumption.
Qed.

(** What [float_ok] asks of the text of a float. *)
Lemma float_ok_cases (r : pystr) :
  float_ok r = true ->
  (scan_number r = Some (JFloat r, []) /\ float_json r = r)
  \/ r = cps "inf" \/ r = cps "-inf".
Proof.
  unfold float_ok. intros H.
  apply orb_prop in H as [H|H]; [|right; right; now apply bool_decide_eq_true_1 in H].
  apply orb_prop in H as [H|H]; [|right; left; now apply bool_decide_eq_true_1 in H].
  left. destruct (scan_number r) as [[[] [|]]|] eqn:E; try discriminate H.
  apply bool_decide_eq_true_1 in H. subst repr. split; [reflexivity|].
  unfold float_json. repeat case_decide; subst; try reflexivity;
    vm_compute in E; discriminate E.
Qed.

(** A float is read back, whatever closes the value after it. *)
Lemma scan_number_float (r rest : pystr) :
  scan_number r = Some (JFloat r, []) -> number_end rest = true ->
  scan_number (r ++ rest) = Some (JFloat r, rest).
Proof. intros H Hend. exact (scan_number_app _ _ _ _ H Hend). Qed.

End JsonStrings.
Section JsonRoundTrip.

(** Induction on a value, with the property at hand for the values it holds. *)
Lemma json_ind' (P : json -> Prop) :
  P JNull ->
  (forall b, P (JBool b)) ->
  (forall n, P (JInt n)) ->
  (forall r, P (JFloat r)) ->
  (forall s, P (JStr s)) ->
  (forall items, Forall P items -> P (JList items)) ->
  (forall items, Forall (fun kv => P (snd kv)) items -> P (JDict items)) ->
  P JOpaque ->
  forall v, P v.
Proof.
  intros Hnull Hbool Hint Hfloat Hstr Hlist Hdict Hopaque.
  fix IH 1. intros [|b|n|r|s|items|items|].
  - exact Hnull.
  - apply Hbool.
  - apply Hint.
  - apply Hfloat.
  - apply Hstr.
  - apply Hlist. induction items as [|x items IHitems]; constructor; [apply IH | exact IHitems].
  - apply Hdict. induction items as [|[k x] items IHitems]; constructor;
      [apply IH | exact IHitems].
  - exact Hopaque.
Qed.

Lemma skip_ws_value (c : N) (t : pystr) :
  is_json_ws c = false -> skip_ws (c :: t) = c :: t.
Proof. intros H. cbn [skip_ws]. now rewrite H. Qed.

Lemma skip_ws_space (t : pystr) : skip_ws (SP :: t) = skip_ws t.
Proof. reflexivity. Qed.

Lemma str_int_head (n : Z) :
  exists c t, str_int n = c :: t /\ (c = 0x2D \/ is_digit c = true).
Proof.
  unfold str_int. destruct n as [|p|p]; cbn [Z.to_int].
  - exists 48, []. split; [reflexivity | now right].
  - destruct (scan_int_part_pos p) as (_ & c & t & Hc & Hr).
    exists c, t. split; [exact Hc | right].
    unfold in_range in Hr. unfold is_digit.
    apply andb_prop in Hr as [H1 H2]. apply N.leb_le in H1.
    rewrite H2, andb_true_r. apply N.leb_le. lia.
  - eexists _, _. split; [reflexivity | now left].
Qed.

Lemma sign_or_digit_head (c : N) :
  c = 0x2D \/ is_digit c = true -> is_json_ws c = false /\ (c =? 0x5D) = false.
Proof.
  intros [->|H]; [now split|].
  unfold is_digit in H. apply andb_prop in H as [H1 H2].
  apply N.leb_le in H1, H2. unfold is_json_ws, SP, TAB, LF, CR.
  split; [|apply N.eqb_neq; lia].
  repeat (apply orb_false_intro); apply N.eqb_neq; lia.
Qed.

(** A text that starts as a number is handed to the scanner of numbers. *)
Lemma parse_value_number (fuel : nat) (c : N) (t : pystr) (x : json * pystr) :
  c = 0x2D \/ is_digit c = true ->
  scan_number (c :: t) = Some x ->
  parse_value (S fuel) (c :: t) = Some x.
Proof.
  intros Hc Hs.
  assert (parse_value (S fuel) (c :: t)
          = match scan_number (c :: t) with
            | Some r => Some r
            | None => scan_constant (c :: t)
            end) as ->; [|now rewrite Hs].
  destruct Hc as [->|H]; [reflexivity|].
  unfold is_digit in H. apply andb_prop in H as [H1 H2].
  apply N.leb_le in H1, H2.
  assert (c = 48 \/ c = 49 \/ c = 50 \/ c = 51 \/ c = 52 \/ c = 53 \/ c = 54
          \/ c = 55 \/ c = 56 \/ c = 57) as Hc by lia.
  repeat (destruct Hc as [->|Hc]; [reflexivity|]). now subst.
Qed.

Lemma parse_value_int (fuel : nat) (n : Z) (rest : pystr) :
  int_fits n = true -> value_end_any rest = true ->
  parse_value (S fuel) (str_int n ++ rest) = Some (JInt n, rest).
Proof.
  intros Hfit Hend. destruct (str_int_head n) as (c & t & E & Hc).
  pose proof (scan_number_int n rest Hfit (value_end_number_end _ Hend)) as Hs.
  rewrite E in *. cbn [app] in *. now apply parse_value_number.
Qed.

(** *** Floats in the text *)

Lemma float_json_first (r : pystr) :
  float_ok r = true ->
  exists c t, float_json r = c :: t /\ is_json_ws c = false /\ (c =? 0x5D) = false.
Proof.
  intros H. destruct (float_ok_cases r H) as [[Hs ->]|[->| ->]].
  - destruct (scan_number_head _ _ Hs) as (c & t & -> & Hc).
    exists c, t. split; [reflexivity|]. now apply sign_or_digit_head.
  - eexists _, _. split; [reflexivity | now split].
  - eexists _, _. split; [reflexivity | now split].
Qed.

Lemma float_char_printable (c : N) :
  float_char c = true -> printable c = true /\ is_blank c = false.
Proof.
  unfold float_char, is_digit, printable, in_range, is_blank, SP, TAB. intros H.
  assert (43 <= c <= 101) as Hc.
  { repeat (apply orb_prop in H as [H|H]);
      try (apply N.eqb_eq in H; subst; lia).
    apply andb_prop in H as [H1 H2]. apply N.leb_le in H1, H2. lia. }
  split.
  - apply andb_true_intro; split; apply N.leb_le; lia.
  - apply orb_false_intro; apply N.eqb_neq; lia.
Qed.

(** What is written for a float is printable and has no blank. *)
Lemma float_json_chars (r : pystr) :
  float_ok r = true ->
  Forall (fun c => printable c = true /\ is_blank c = false) (float_json r).
Proof.
  intros H. destruct (float_ok_cases r H) as [[Hs ->]|[->| ->]].
  - eapply Forall_impl; [exact (scan_number_float_chars _ _ _ Hs)|].
    apply float_char_printable.
  - now repeat constructor.
  - now repeat constructor.
Qed.

Lemma parse_value_float (fuel : nat) (r rest : pystr) :
  float_ok r = true -> value_end_any rest = true ->
  parse_value (S fuel) (float_json r ++ rest) = Some (JFloat r, rest).
Proof.
  intros H Hend. destruct (float_ok_cases r H) as [[Hs ->]|[->| ->]].
  - pose proof (scan_number_float r rest Hs (value_end_number_end _ Hend)) as Hr.
    destruct (scan_number_head _ _ Hs) as (c & t & -> & Hc).
    cbn [app] in *. now apply parse_value_number.
  - reflexivity.
  - reflexivity.
Qed.

Lemma join_cons2 (sep a b : pystr) (l : list pystr) :
  join sep (a :: b :: l) = a ++ sep ++ join sep (b :: l).
Proof. reflexivity. Qed.

(** *** Dicts *)

Lemma dict_set_fresh (k : pystr) (v : json) (d : list (pystr * json)) :
  k ∉ map fst d -> dict_set k v d = d ++ [(k, v)].
Proof.
  induction d as [|[k' v'] d IH]; intros Hk; [reflexivity|].
  cbn [dict_set]. cbn [map fst] in Hk. apply not_elem_of_cons in Hk as [Hne Hk].
  destruct (decide (k = k')); [contradiction|]. now rewrite IH.
Qed.

Lemma dict_fold_nodup (acc items : list (pystr * json)) :
  NoDup (map fst (acc ++ items)) ->
  foldl (fun d kv => dict_set (fst kv) (snd kv) d) acc items = acc ++ items.
Proof.
  revert acc. induction items as [|[k v] items IH]; intros acc Hnd.
  - now rewrite app_nil_r.
  - cbn [foldl fst snd]. rewrite dict_set_fresh.
    + rewrite IH; rewrite <- app_assoc; [reflexivity | exact Hnd].
    + rewrite map_app in Hnd. apply NoDup_app in Hnd as (_ & Hd & _).
      intros Hin. apply (Hd k Hin). cbn. left.
Qed.

(** Pairs with keys that differ make the dict they list. *)
Lemma dict_of_pairs_nodup (items : list (pystr * json)) :
  NoDup (map fst items) -> dict_of_pairs items = items.
Proof. intros H. unfold dict_of_pairs. now rewrite dict_fold_nodup. Qed.

Lemma list_sum_cons (a : nat) (l : list nat) :
  list_sum (a :: l) = (a + list_sum l)%nat.
Proof. reflexivity. Qed.

(** *** Lists, dicts and values *)

(** *** White space between the values *)

Lemma skip_ws_block (b x : pystr) :
  Forall (fun c => is_json_ws c = true) b -> skip_ws (b ++ x) = skip_ws x.
Proof.
  induction 1 as [|c t Hc _ IH]; [reflexivity|]. cbn [app skip_ws]. now rewrite Hc.
Qed.

Lemma newline_indent_ws (indent : option nat) (level : nat) :
  Forall (fun c => is_json_ws c = true) (newline_indent indent level).
Proof.
  destruct indent as [w|]; cbn [newline_indent]; [|constructor].
  constructor; [reflexivity|].
  induction (w * level)%nat; cbn [repeat]; constructor; [reflexivity | assumption].
Qed.

Lemma newline_indent_end (indent : option nat) (level : nat) (z : N) (x : pystr) :
  z = 0x5D \/ z = 0x7D ->
  value_end_any (newline_indent indent level ++ z :: x) = true.
Proof. intros [-> | ->]; now destruct indent. Qed.

Lemma separator_form (indent : option nat) (level : nat) :
  exists b, item_separator indent ++ newline_indent indent level = 0x2C :: b
            /\ Forall (fun c => is_json_ws c = true) b.
Proof.
  destruct indent as [w|].
  - exists (newline_indent (Some w) level). split; [reflexivity|].
    apply newline_indent_ws.
  - exists [SP]. split; [reflexivity | now repeat constructor].
Qed.

(** The first character of a value is no white space and closes no list. *)
Lemma encode_json_first (indent : option nat) (level : nat) (v : json) (out : pystr) :
  ascii_json v = true ->
  encode_json indent level v = Some out ->
  exists c t, out = c :: t /\ is_json_ws c = false /\ (c =? 0x5D) = false.
Proof.
  destruct v as [|[]|n|r|s|[|x items]|[|kv items]|]; cbn [encode_json ascii_json];
    intros Hplain;
    try (intros [= <-]; eexists _, _; split; [reflexivity | now split]);
    try discriminate.
  - unfold int_to_str. rewrite Hplain. intros [= <-].
    destruct (str_int_head n) as (c & t & -> & Hc).
    eexists _, _. split; [reflexivity | now apply sign_or_digit_head].
  - intros [= <-]. now apply float_json_first.
  - destruct (mapM _ (x :: items)); [|discriminate].
    intros [= <-]. eexists _, _. split; [reflexivity | now split].
  - destruct (mapM _ (kv :: items)); [|discriminate].
    intros [= <-]. eexists _, _. split; [reflexivity | now split].
Qed.

(** *** Lists, dicts and values *)

Lemma parse_items_any (indent : option nat) (L : nat) (b cl : pystr)
    (items : list json) (chunks : list pystr) :
  Forall (fun c => is_json_ws c = true) b ->
  Forall (fun c => is_json_ws c = true) cl ->
  (forall x, value_end_any (cl ++ 0x5D :: x) = true) ->
  Forall (reads_back_any indent) items ->
  Forall2 (fun x c => encode_json indent L x = Some c) items chunks ->
  forallb ascii_json items = true ->
  items <> [] ->
  forall (fuel : nat) (rest : pystr),
    (list_sum (map (fun x => S (json_size x)) items) <= fuel)%nat ->
    parse_items fuel (join (0x2C :: b) chunks ++ cl ++ 0x5D :: rest) = Some (items, rest).
Proof.
  intros Hb Hcl Hend HP Henc. revert HP.
  induction Henc as [|x c items chunks Hx Hrest IH]; intros HP Hplain Hne fuel rest Hfuel;
    [congruence|].
  apply Forall_cons in HP as [HPx HP].
  cbn [forallb] in Hplain. apply andb_prop in Hplain as [Hpx Hplain].
  cbn [map] in Hfuel. rewrite list_sum_cons in Hfuel.
  destruct fuel as [|fuel]; [lia|]. cbn [parse_items].
  destruct Hrest as [|y c' items' chunks' Hy Hrest'].
  - cbn [join]. rewrite (HPx L c fuel (cl ++ 0x5D :: rest) Hpx Hx) by (auto; lia).
    rewrite (skip_ws_block _ _ Hcl). reflexivity.
  - rewrite join_cons2, <- !app_assoc.
    rewrite (HPx L c fuel _ Hpx Hx) by first [lia | reflexivity].
    cbn [app skip_ws]. change (is_json_ws 0x2C) with false. cbv iota.
    change (0x2C =? 0x5D) with false. change (0x2C =? 0x2C) with true. cbv iota.
    rewrite (skip_ws_block _ _ Hb).
    assert (ascii_json y = true) as Hpy
      by (cbn [forallb] in Hplain; now apply andb_prop in Hplain as [? _]).
    destruct (encode_json_first _ _ _ _ Hpy Hy) as (d & t & -> & Hws & _).
    assert (skip_ws (join (0x2C :: b) ((d :: t) :: chunks') ++ cl ++ 0x5D :: rest)
            = join (0x2C :: b) ((d :: t) :: chunks') ++ cl ++ 0x5D :: rest) as ->.
    { destruct chunks'; cbn [join app]; now apply skip_ws_value. }
    rewrite IH; [reflexivity | exact HP | exact Hplain | discriminate | lia].
Qed.

Lemma parse_members_any (indent : option nat) (L : nat) (b cl : pystr)
    (items : list (pystr * json)) (chunks : list pystr) :
  Forall (fun c => is_json_ws c = true) b ->
  Forall (fun c => is_json_ws c = true) cl ->
  (forall x, value_end_any (cl ++ 0x7D :: x) = true) ->
  Forall (fun kv => reads_back_any indent (snd kv)) items ->
  Forall2 (fun kv c => exists vc, encode_json indent L (snd kv) = Some vc
                        /\ c = encode_basestring (fst kv) ++ key_separator ++ vc)
          items chunks ->
  forallb (fun kv => ascii_str (fst kv) && ascii_json (snd kv)) items = true ->
  items <> [] ->
  forall (fuel : nat) (rest : pystr),
    (list_sum (map (fun kv => S (json_size (snd kv))) items) <= fuel)%nat ->
    exists tail,
      join (0x2C :: b) chunks ++ cl ++ 0x7D :: rest = 0x22 :: tail
      /\ parse_members fuel tail = Some (items, rest).
Proof.
  intros Hb Hcl Hend HP Henc. revert HP.
  induction Henc as [|[k x] c items chunks (vc & Hx & ->) Hrest IH];
    intros HP Hplain Hne fuel rest Hfuel; [congruence|].
  apply Forall_cons in HP as [HPx HP]. cbn [fst snd] in *.
  cbn [forallb fst snd] in Hplain. apply andb_prop in Hplain as [Hpx Hplain].
  apply andb_prop in Hpx as [_ Hpx].
  cbn [map snd] in Hfuel. rewrite list_sum_cons in Hfuel.
  destruct fuel as [|fuel]; [lia|].
  destruct (encode_json_first _ _ _ _ Hpx Hx) as (d & t & -> & Hws & _).
  unfold encode_basestring, key_separator.
  destruct Hrest as [|[k' y] c' items' chunks' Hy Hrest'].
  - cbn [join]. eexists. split; [cbn [app]; reflexivity|].
    cbn [parse_members]. rewrite <- !app_assoc. cbn [app]. rewrite scan_string_body.
    cbn [app skip_ws]. change (is_json_ws 0x3A) with false. cbv iota.
    change (0x3A =? 0x3A) with true. cbv iota.
    rewrite skip_ws_space.
    rewrite (skip_ws_value d _ Hws).
    change (d :: t ++ cl ++ 0x7D :: rest) with ((d :: t) ++ cl ++ 0x7D :: rest).
    rewrite (HPx L (d :: t) fuel (cl ++ 0x7D :: rest) Hpx Hx) by (auto; lia).
    rewrite (skip_ws_block _ _ Hcl). reflexivity.
  - destruct (IH HP Hplain ltac:(discriminate) fuel rest ltac:(lia)) as (tail & Htail & Hparse).
    rewrite join_cons2. eexists. split; [cbn [app]; reflexivity|].
    cbn [parse_members]. rewrite <- !app_assoc. cbn [app]. rewrite scan_string_body.
    cbn [app skip_ws]. change (is_json_ws 0x3A) with false. cbv iota.
    change (0x3A =? 0x3A) with true. cbv iota.
    rewrite skip_ws_space.
    rewrite (skip_ws_value d _ Hws). rewrite <- !app_assoc.
    change (d :: t ++ 0x2C :: b ++ join (0x2C :: b) (c' :: chunks') ++ cl ++ 0x7D :: rest)
      with ((d :: t) ++ 0x2C :: b ++ join (0x2C :: b) (c' :: chunks') ++ cl ++ 0x7D :: rest).
    rewrite (HPx L (d :: t) fuel _ Hpx Hx) by first [lia | reflexivity].
    cbn [skip_ws]. change (is_json_ws 0x2C) with false. cbv iota.
    change (0x2C =? 0x7D) with false. change (0x2C =? 0x2C) with true. cbv iota.
    rewrite (skip_ws_block _ _ Hb).
    rewrite Htail. cbn [skip_ws]. change (is_json_ws 0x22) with false. cbv iota.
    change (0x22 =? 0x22) with true. cbv iota.
    now rewrite Hparse.
Qed.

(** Every value is read back from what is written for it, with an
    indentation or without. *)
Lemma parse_value_any (indent : option nat) (v : json) : reads_back_any indent v.
Proof.
  induction v as [|b|n|r|s|items IH|items IH|] using json_ind';
    intros level out fuel rest Hplain Henc Hfuel Hend;
    try (destruct fuel as [|fuel]; [cbn [json_size] in Hfuel; lia|]).
  - injection Henc as <-. reflexivity.
  - destruct b; injection Henc as <-; reflexivity.
  - cbn [encode_json ascii_json] in *. unfold int_to_str in Henc. rewrite Hplain in Henc.
    injection Henc as <-. now apply parse_value_int.
  - injection Henc as <-. now apply parse_value_float.
  - injection Henc as <-. unfold encode_basestring.
    cbn [app parse_value]. change (0x22 =? 0x22) with true. cbv iota.
    rewrite <- app_assoc. cbn [app]. now rewrite scan_string_body.
  - destruct items as [|x items]; [injection Henc as <-; reflexivity|].
    cbn [encode_json] in Henc.
    destruct (mapM (encode_json indent (S level)) (x :: items)) as [chunks|] eqn:Em;
      [|discriminate].
    cbn [mbind option_bind] in Henc. injection Henc as <-.
    apply mapM_Some_1 in Em. cbn [ascii_json] in Hplain. cbn [json_size] in Hfuel.
    destruct (separator_form indent (S level)) as (b & -> & Hb).
    pose proof (parse_items_any indent (S level) b (newline_indent indent level)
                  (x :: items) chunks Hb (newline_indent_ws _ _)
                  (fun x => newline_indent_end indent level 0x5D x (or_introl eq_refl))
                  IH Em Hplain ltac:(discriminate) fuel rest ltac:(lia)) as Hitems.
    inversion Em as [|x0 c0 l0 chunks0 Hx0 Hl0]; subst.
    assert (ascii_json x = true) as Hpx
      by (cbn [forallb] in Hplain; now apply andb_prop in Hplain as [? _]).
    destruct (encode_json_first _ _ _ _ Hpx Hx0) as (d & t & -> & Hws & Hd).
    assert (exists t', join (0x2C :: b) ((d :: t) :: chunks0) = d :: t') as (t' & Ej).
    { destruct chunks0; cbn [join app]; eauto. }
    cbn [app parse_value].
    change (0x5B =? 0x22) with false. change (0x5B =? 0x7B) with false.
    change (0x5B =? 0x5B) with true. cbv iota.
    rewrite <- !app_assoc. cbn [app].
    rewrite (skip_ws_block _ _ (newline_indent_ws indent (S level))).
    rewrite Ej in *. cbn [app] in *.
    rewrite (skip_ws_value d _ Hws), Hd. now rewrite Hitems.
  - destruct items as [|kv items]; [injection Henc as <-; reflexivity|].
    cbn [encode_json] in Henc.
    destruct (mapM _ (kv :: items)) as [chunks|] eqn:Em; [|discriminate].
    cbn [mbind option_bind] in Henc. injection Henc as <-.
    apply mapM_Some_1 in Em. cbn [ascii_json] in Hplain.
    apply andb_prop in Hplain as [Hplain Hnd]. apply bool_decide_eq_true_1 in Hnd.
    cbn [json_size] in Hfuel.
    assert (Forall2 (fun kv c => exists vc,
                       encode_json indent (S level) (snd kv) = Some vc
                       /\ c = encode_basestring (fst kv) ++ key_separator ++ vc)
                    (kv :: items) chunks) as Em'.
    { eapply Forall2_impl; [exact Em|]. intros kv' c' H'. cbn beta in H'.
      apply fmap_Some in H' as (vc & Hvc & ->). eauto. }
    destruct (separator_form indent (S level)) as (b & -> & Hb).
    destruct (parse_members_any indent (S level) b (newline_indent indent level)
                (kv :: items) chunks Hb (newline_indent_ws _ _)
                (fun x => newline_indent_end indent level 0x7D x (or_intror eq_refl))
                IH Em' Hplain ltac:(discriminate) fuel rest ltac:(lia))
      as (tail & Htail & Hparse).
    cbn [app parse_value].
    change (0x7B =? 0x22) with false. change (0x7B =? 0x7B) with true. cbv iota.
    rewrite <- !app_assoc. cbn [app].
    rewrite (skip_ws_block _ _ (newline_indent_ws indent (S level))).
    rewrite Htail.
    cbn [skip_ws]. change (is_json_ws 0x22) with false. cbv iota.
    change (0x22 =? 0x7D) with false. change (0x22 =? 0x22) with true. cbv iota.
    rewrite Hparse. now rewrite (dict_of_pairs_nodup _ Hnd).
  - discriminate.
Qed.

End JsonRoundTrip.

Section JsonLoads.

Lemma join_length_any (sep : pystr) (sizes : list nat) (chunks : list pystr) :
  sep <> [] ->
  Forall2 (fun n c => (n <= length c)%nat) sizes chunks ->
  (list_sum (map S sizes) <= S (length (join sep chunks)))%nat.
Proof.
  intros Hsep. induction 1 as [|n c sizes chunks Hn Hrest IH]; [cbn; lia|].
  cbn [map]. rewrite list_sum_cons.
  destruct Hrest as [|n' c' sizes' chunks' Hn' Hrest'].
  - cbn. lia.
  - rewrite join_cons2, !length_app. destruct sep; [congruence|].
    cbn [length] in *. lia.
Qed.

(** The decoder has fuel enough with the length of the text. *)
Lemma json_size_length_any (indent : option nat) (v : json) :
  forall (level : nat) (out : pystr),
    ascii_json v = true ->
    encode_json indent level v = Some out -> (json_size v <= length out)%nat.
Proof.
  induction v as [|b|n|r|s|items IH|items IH|] using json_ind';
    intros level out Hplain Henc.
  - injection Henc as <-. cbn. lia.
  - destruct b; injection Henc as <-; cbn; lia.
  - destruct (encode_json_first _ _ _ _ Hplain Henc) as (c & t & -> & _). cbn. lia.
  - destruct (encode_json_first _ _ _ _ Hplain Henc) as (c & t & -> & _). cbn. lia.
  - injection Henc as <-. cbn. lia.
  - destruct items as [|x items]; [injection Henc as <-; cbn; lia|].
    cbn [encode_json] in Henc.
    destruct (mapM (encode_json indent (S level)) (x :: items)) as [chunks|] eqn:Em;
      [|discriminate].
    cbn [mbind option_bind] in Henc. injection Henc as <-. apply mapM_Some_1 in Em.
    destruct (separator_form indent (S level)) as (b & -> & _).
    cbn [json_size length]. rewrite !length_app. cbn [length].
    cbn [ascii_json] in Hplain.
    assert (Forall2 (fun n c => (n <= length c)%nat) (map json_size (x :: items)) chunks)
      as Hb.
    { clear -IH Em Hplain. revert IH Hplain.
      induction Em as [|y c l chunks' Hy _ IHl]; intros IH Hplain; [constructor|].
      apply Forall_cons in IH as [IHy IH]. cbn [forallb] in Hplain.
      apply andb_prop in Hplain as [Hpy Hplain].
      constructor; [eapply IHy; eassumption | auto]. }
    apply (join_length_any (0x2C :: b)) in Hb; [|discriminate].
    rewrite map_map in Hb. lia.
  - destruct items as [|kv items]; [injection Henc as <-; cbn; lia|].
    cbn [encode_json] in Henc.
    destruct (mapM _ (kv :: items)) as [chunks|] eqn:Em; [|discriminate].
    cbn [mbind option_bind] in Henc. injection Henc as <-. apply mapM_Some_1 in Em.
    destruct (separator_form indent (S level)) as (b & -> & _).
    cbn [json_size length]. rewrite !length_app. cbn [length].
    cbn [ascii_json] in Hplain. apply andb_prop in Hplain as [Hplain _].
    assert (Forall2 (fun n c => (n <= length c)%nat)
                    (map (fun kv => json_size (snd kv)) (kv :: items)) chunks) as Hb.
    { clear -IH Em Hplain. revert IH Hplain.
      induction Em as [|y c l chunks' Hy _ IHl]; intros IH Hplain; [constructor|].
      apply Forall_cons in IH as [IHy IH]. cbn [forallb] in Hplain.
      apply andb_prop in Hplain as [Hpy Hplain]. apply andb_prop in Hpy as [_ Hpy].
      constructor; [|auto].
      apply fmap_Some in Hy as (vc & Hvc & ->).
      rewrite !length_app. specialize (IHy _ _ Hpy Hvc). lia. }
    apply (join_length_any (0x2C :: b)) in Hb; [|discriminate].
    rewrite map_map in Hb. lia.
  - discriminate.
Qed.

(** [json.loads(json.dumps(v, indent=indent)) == v] *)
Lemma loads_dumps_any (indent : option nat) (v : json) (out : pystr) :
  ascii_json v = true -> dumps indent v = Some out -> loads out = Some v.
Proof.
  intros Hplain Henc. unfold dumps in Henc. unfold loads.
  destruct (encode_json_first _ _ _ _ Hplain Henc) as (c & t & E & Hws & _).
  pose proof (json_size_length_any _ _ _ _ Hplain Henc) as Hsize.
  pose proof (parse_value_any indent v 0%nat out (S (length out)) [] Hplain Henc
                ltac:(lia) eq_refl) as Hp.
  rewrite app_nil_r in Hp. subst out.
  rewrite (skip_ws_value c t Hws), Hp. reflexivity.
Qed.

End JsonLoads.

(** ** JSON through the sanitizer *)

Section JsonSanitized.

Lemma tight_app (a b : pystr) : blank_tight a -> blank_tight b -> blank_tight (a ++ b).
Proof.
  intros Ha Hb x rest. now rewrite <- app_assoc, Ha, Hb, app_assoc.
Qed.

Lemma tight_char (c : N) : is_blank c = false -> blank_tight [c].
Proof. intros Hc b rest. cbn [app squeeze]. now rewrite Hc. Qed.

Lemma tight_nonblank (w : pystr) :
  Forall (fun c => is_blank c = false) w -> w <> [] -> blank_tight w.
Proof.
  induction 1 as [|c t Hc Ht IH]; intros Hne; [congruence|].
  destruct t as [|d t]; [now apply tight_char|].
  change (c :: d :: t) with ([c] ++ d :: t).
  apply tight_app; [now apply tight_char | now apply IH].
Qed.

Lemma tight_sep (c : N) (x : pystr) :
  is_blank c = false -> blank_tight x -> blank_tight ([c; SP] ++ x).
Proof.
  intros Hc Hx b rest. cbn [app squeeze]. rewrite Hc.
  change (is_blank SP) with true. cbv iota. now rewrite Hx.
Qed.

Lemma printable_not_blank_or_space (c : N) :
  printable c = true -> c <> SP -> is_blank c = false.
Proof.
  unfold printable, in_range, is_blank, SP, TAB. intros H Hne.
  apply andb_prop in H as [H1 H2]. apply N.leb_le in H1.
  apply orb_false_intro; apply N.eqb_neq; lia.
Qed.

Lemma hex_digit_printable (d : N) :
  d < 16 -> printable (hex_digit d) = true /\ is_blank (hex_digit d) = false.
Proof.
  intros Hd. unfold hex_digit.
  assert (forall c, 48 <= c <= 0x7E -> printable c = true /\ is_blank c = false) as Hp.
  { intros c Hc. unfold printable, in_range, is_blank, SP, TAB. split.
    - apply andb_true_intro; split; apply N.leb_le; lia.
    - apply orb_false_intro; apply N.eqb_neq; lia. }
  destruct (d <? 10); apply Hp; lia.
Qed.

(** The escaped form of a character up to U+007E is printable; it has no
    blank unless the character is the space. *)
Lemma escape_char_chars (c : N) :
  c <= 0x7E ->
  Forall (fun x => printable x = true) (escape_char c)
  /\ (c <> SP -> Forall (fun x => is_blank x = false) (escape_char c))
  /\ escape_char c <> [].
Proof.
  intros Hc. unfold escape_char.
  destruct (N.eqb_spec c 0x5C) as [->|H1];
    [split; [|split]; [repeat constructor | intros; repeat constructor | discriminate]|].
  destruct (N.eqb_spec c 0x22) as [->|H2];
    [split; [|split]; [repeat constructor | intros; repeat constructor | discriminate]|].
  destruct (N.eqb_spec c 0x08) as [->|H3];
    [split; [|split]; [repeat constructor | intros; repeat constructor | discriminate]|].
  destruct (N.eqb_spec c 0x0C) as [->|H4];
    [split; [|split]; [repeat constructor | intros; repeat constructor | discriminate]|].
  destruct (N.eqb_spec c 0x0A) as [->|H5];
    [split; [|split]; [repeat constructor | intros; repeat constructor | discriminate]|].
  destruct (N.eqb_spec c 0x0D) as [->|H6];
    [split; [|split]; [repeat constructor | intros; repeat constructor | discriminate]|].
  destruct (N.eqb_spec c 0x09) as [->|H7];
    [split; [|split]; [repeat constructor | intros; repeat constructor | discriminate]|].
  destruct (N.ltb_spec c 0x20) as [H8|H8].
  - destruct (hex_digit_printable (c / 16)) as [Ha Ha'];
      [apply N.Div0.div_lt_upper_bound; lia|].
    destruct (hex_digit_printable (c mod 16)) as [Hb Hb']; [apply N.mod_lt; lia|].
    split; [|split]; [repeat constructor; assumption
                     | intros; repeat constructor; assumption | discriminate].
  - assert (printable c = true) as Hp
      by (unfold printable, in_range; apply andb_true_intro; split; apply N.leb_le; lia).
    split; [|split]; [repeat constructor; exact Hp | | discriminate].
    intros Hne. repeat constructor. now apply printable_not_blank_or_space.
Qed.

Lemma body_printable (s : pystr) :
  forallb (fun c => c <=? 0x7E) s = true ->
  Forall (fun x => printable x = true) (concat (map escape_char s)).
Proof.
  induction s as [|c t IH]; intros H; [constructor|].
  cbn [forallb] in H. apply andb_prop in H as [Hc Ht]. apply N.leb_le in Hc.
  cbn [map concat]. apply Forall_app. split; [apply escape_char_chars; exact Hc | auto].
Qed.

Lemma body_tight (s : pystr) :
  forallb (fun c => c <=? 0x7E) s = true -> no_double_space s = true ->
  forall (b : bool) (rest : pystr),
    (b = true -> head s <> Some SP) ->
    squeeze is_blank SP b (concat (map escape_char s) ++ 0x22 :: rest)
    = concat (map escape_char s) ++ 0x22 :: squeeze is_blank SP false rest.
Proof.
  induction s as [|c t IH]; intros Hchars Hnd b rest Hb; [reflexivity|].
  cbn [forallb] in Hchars. apply andb_prop in Hchars as [Hc Ht]. apply N.leb_le in Hc.
  cbn [no_double_space] in Hnd. apply andb_prop in Hnd as [Hpair Hnd].
  cbn [map concat]. rewrite <- !app_assoc.
  destruct (N.eq_dec c SP) as [->|Hne].
  - destruct b; [now elim (Hb eq_refl)|].
    change (escape_char SP) with [SP]. cbn [app squeeze].
    change (is_blank SP) with true. cbv iota.
    rewrite (IH Ht Hnd true rest); [reflexivity|].
    intros _ Hh. destruct t as [|d t]; [discriminate|].
    injection Hh as ->. discriminate Hpair.
  - destruct (escape_char_chars c Hc) as (_ & Hnb & Hnn).
    rewrite (tight_nonblank _ (Hnb Hne) Hnn).
    rewrite (IH Ht Hnd false rest); [reflexivity | discriminate].
Qed.

Lemma string_tight (s : pystr) :
  plain_str s = true ->
  Forall (fun x => printable x = true) (encode_basestring s)
  /\ blank_tight (encode_basestring s).
Proof.
  unfold plain_str. intros H. apply andb_prop in H as [Hchars Hnd].
  unfold encode_basestring. split.
  - constructor; [reflexivity|]. apply Forall_app. split;
      [now apply body_printable | now repeat constructor].
  - intros b rest. cbn [app squeeze]. change (is_blank 0x22) with false. cbv iota.
    rewrite <- app_assoc. cbn [app]. f_equal.
    rewrite (body_tight s Hchars Hnd false rest); [|discriminate].
    now rewrite <- app_assoc.
Qed.

Lemma digit_printable (c : N) :
  is_digit c = true -> printable c = true /\ is_blank c = false.
Proof.
  unfold is_digit, printable, in_range, is_blank, SP, TAB. intros H.
  apply andb_prop in H as [H1 H2]. apply N.leb_le in H1, H2. split.
  - apply andb_true_intro; split; apply N.leb_le; lia.
  - apply orb_false_intro; apply N.eqb_neq; lia.
Qed.

Lemma int_tight (n : Z) :
  Forall (fun x => printable x = true) (str_int n) /\ blank_tight (str_int n).
Proof.
  assert (Forall (fun c => printable c = true /\ is_blank c = false) (str_int n)) as H.
  { unfold str_int. destruct (Z.to_int n) as [u|u];
      [|constructor; [now split|]];
      (eapply Forall_impl; [apply uint_cps_digits | apply digit_printable]). }
  split.
  - eapply Forall_impl; [exact H | now intros c []].
  - apply tight_nonblank; [eapply Forall_impl; [exact H | now intros c []]|].
    destruct (str_int_head n) as (c & t & -> & _). discriminate.
Qed.

Lemma float_tight (r : pystr) :
  float_ok r = true ->
  Forall (fun x => printable x = true) (float_json r) /\ blank_tight (float_json r).
Proof.
  intros H. pose proof (float_json_chars r H) as Hc. split.
  - eapply Forall_impl; [exact Hc | now intros c []].
  - apply tight_nonblank; [eapply Forall_impl; [exact Hc | now intros c []]|].
    destruct (float_json_first r H) as (c & t & -> & _). discriminate.
Qed.

Lemma join_tight (chunks : list pystr) :
  Forall blank_tight chunks -> chunks <> [] -> blank_tight (join [0x2C; SP] chunks).
Proof.
  induction 1 as [|c chunks Hc Hrest IH]; intros Hne; [congruence|].
  destruct chunks as [|c' chunks]; [exact Hc|].
  rewrite join_cons2. apply tight_app; [exact Hc|].
  apply tight_sep; [reflexivity | now apply IH].
Qed.

Lemma join_printable (chunks : list pystr) :
  Forall (Forall (fun x => printable x = true)) chunks ->
  Forall (fun x => printable x = true) (join [0x2C; SP] chunks).
Proof.
  induction 1 as [|c chunks Hc Hrest IH]; [constructor|].
  destruct chunks as [|c' chunks]; [exact Hc|].
  rewrite join_cons2. apply Forall_app. split; [exact Hc|].
  now repeat constructor.
Qed.

(** The compact form of a plain value is printable ASCII that the pass
    over the blanks leaves as it is. *)
Lemma encode_json_tight (v : json) :
  forall (level : nat) (out : pystr),
    plain v = true -> encode_json None level v = Some out ->
    Forall (fun x => printable x = true) out /\ blank_tight out.
Proof.
  induction v as [|b|n|r|s|items IH|items IH|] using json_ind';
    intros level out Hplain Henc.
  - injection Henc as <-. split; [now repeat constructor|].
    apply tight_nonblank; [now repeat constructor | discriminate].
  - destruct b; injection Henc as <-; (split; [now repeat constructor|]);
      (apply tight_nonblank; [now repeat constructor | discriminate]).
  - cbn [encode_json plain] in *. unfold int_to_str in Henc. rewrite Hplain in Henc.
    injection Henc as <-. apply int_tight.
  - injection Henc as <-. now apply float_tight.
  - injection Henc as <-. now apply string_tight.
  - destruct items as [|x items].
    { injection Henc as <-. split; [now repeat constructor|].
      apply tight_nonblank; [now repeat constructor | discriminate]. }
    cbn [encode_json] in Henc.
    destruct (mapM (encode_json None (S level)) (x :: items)) as [chunks|] eqn:Em;
      [|discriminate].
    cbn in Henc. injection Henc as <-. apply mapM_Some_1 in Em.
    cbn [plain] in Hplain.
    assert (Forall (fun c => Forall (fun x => printable x = true) c /\ blank_tight c)
                   chunks /\ chunks <> []) as [Hall Hne].
    { split; [|inversion Em; discriminate].
      revert IH Hplain. induction Em as [|y c l chunks' Hy _ IHl]; intros IH Hplain;
        [constructor|].
      apply Forall_cons in IH as [IHy IH]. cbn [forallb] in Hplain.
      apply andb_prop in Hplain as [Hpy Hplain].
      constructor; [eapply IHy; eassumption | auto]. }
    split.
    + constructor; [reflexivity|]. apply Forall_app. split; [|now repeat constructor].
      apply join_printable. eapply Forall_impl; [exact Hall | now intros c []].
    + change (0x5B :: join [0x2C; SP] chunks ++ [0x5D])
        with ([0x5B] ++ join [0x2C; SP] chunks ++ [0x5D]).
      apply tight_app; [now apply tight_char|].
      apply tight_app; [|now apply tight_char].
      apply join_tight; [|exact Hne].
      eapply Forall_impl; [exact Hall | now intros c []].
  - destruct items as [|kv items].
    { injection Henc as <-. split; [now repeat constructor|].
      apply tight_nonblank; [now repeat constructor | discriminate]. }
    cbn [encode_json] in Henc.
    destruct (mapM _ (kv :: items)) as [chunks|] eqn:Em; [|discriminate].
    cbn in Henc. injection Henc as <-. apply mapM_Some_1 in Em.
    cbn [plain] in Hplain. apply andb_prop in Hplain as [Hplain _].
    assert (Forall (fun c => Forall (fun x => printable x = true) c /\ blank_tight c)
                   chunks /\ chunks <> []) as [Hall Hne].
    { split; [|inversion Em; discriminate].
      revert IH Hplain. induction Em as [|y c l chunks' Hy _ IHl]; intros IH Hplain;
        [constructor|].
      apply Forall_cons in IH as [IHy IH]. cbn [forallb] in Hplain.
      apply andb_prop in Hplain as [Hpy Hplain].
      apply andb_prop in Hpy as [Hk Hv].
      constructor; [|auto].
      apply fmap_Some in Hy as (vc & Hvc & ->).
      destruct (IHy _ _ Hv Hvc) as [Hp Ht].
      destruct (string_tight _ Hk) as [Hkp Hkt].
      split.
      - apply Forall_app. split; [exact Hkp|].
        apply Forall_app. split; [now repeat constructor | exact Hp].
      - apply tight_app; [exact Hkt|]. now apply tight_sep. }
    split.
    + constructor; [reflexivity|]. apply Forall_app. split; [|now repeat constructor].
      apply join_printable. eapply Forall_impl; [exact Hall | now intros c []].
    + change (0x7B :: join [0x2C; SP] chunks ++ [0x7D])
        with ([0x7B] ++ join [0x2C; SP] chunks ++ [0x7D]).
      apply tight_app; [now apply tight_char|].
      apply tight_app; [|now apply tight_char].
      apply join_tight; [|exact Hne].
      eapply Forall_impl; [exact Hall | now intros c []].
  - discriminate.
Qed.

(** A plain value is one of those the sanitizer keeps without the
    squeeze of the compact mode. *)
Lemma plain_ascii (v : json) : plain v = true -> ascii_json v = true.
Proof.
  induction v as [|b|n|r|s|items IH|items IH|] using json_ind';
    cbn [plain ascii_json]; try (intros H; exact H).
  - unfold plain_str, ascii_str. intros H. now apply andb_prop in H as [H _].
  - induction IH as [|x items Hx _ IHl]; [reflexivity|]. cbn [forallb].
    intros H. apply andb_prop in H as [H1 H2]. now rewrite (Hx H1), (IHl H2).
  - intros H. apply andb_prop in H as [H Hnd]. rewrite Hnd, andb_true_r.
    clear Hnd. induction IH as [|[k x] items Hx _ IHl]; [reflexivity|].
    cbn [forallb fst snd] in *. apply andb_prop in H as [H1 H2].
    apply andb_prop in H1 as [Hk Hv]. rewrite (Hx Hv), (IHl H2), !andb_true_r.
    unfold plain_str in Hk. apply andb_prop in Hk as [Hk _]. exact Hk.
Qed.

(** Such a value has a JSON form. *)
Lemma encode_json_ascii (indent : option nat) (v : json) :
  forall level : nat, ascii_json v = true -> is_Some (encode_json indent level v).
Proof.
  induction v as [|b|n|r|s|items IH|items IH|] using json_ind'; intros level Hplain;
    try (cbn [encode_json]; now eauto); try (destruct b; now eexists);
    try discriminate.
  - cbn [encode_json ascii_json] in *. unfold int_to_str. rewrite Hplain. now eexists.
  - destruct items as [|x items]; [now eexists|].
    cbn [encode_json]. cbn [ascii_json] in Hplain.
    destruct (mapM (encode_json indent (S level)) (x :: items)) as [chunks|] eqn:Em;
      [now eexists|].
    apply mapM_None_1 in Em. exfalso. revert IH Hplain.
    induction Em as [y l Hy|y l _ IHl]; intros IH Hplain;
      apply Forall_cons in IH as [IHy IH]; cbn [forallb] in Hplain;
      apply andb_prop in Hplain as [Hpy Hplain].
    + destruct (IHy (S level) Hpy) as [o Ho]. congruence.
    + auto.
  - destruct items as [|kv items]; [now eexists|].
    cbn [encode_json]. cbn [ascii_json] in Hplain. apply andb_prop in Hplain as [Hplain _].
    destruct (mapM _ (kv :: items)) as [chunks|] eqn:Em; [now eexists|].
    apply mapM_None_1 in Em. exfalso. revert IH Hplain.
    induction Em as [y l Hy|y l _ IHl]; intros IH Hplain;
      apply Forall_cons in IH as [IHy IH]; cbn [forallb] in Hplain;
      apply andb_prop in Hplain as [Hpy Hplain].
    + apply andb_prop in Hpy as [_ Hv].
      destruct (IHy (S level) Hv) as [o Ho]. cbn beta in Hy. rewrite Ho in Hy.
      discriminate Hy.
    + auto.
Qed.

(** *** The sanitizer on such a text *)

Lemma strip_control_id (s : pystr) :
  Forall (fun c => keep_char c = true) s -> strip_control s = s.
Proof.
  unfold strip_control. induction 1 as [|c t Hc _ IH]; [reflexivity|].
  rewrite filter_cons_True by exact Hc. now rewrite IH.
Qed.

Lemma squeeze_id cls (r : N) (b : bool) (s : pystr) :
  Forall (fun c => cls c = false) s -> squeeze cls r b s = s.
Proof.
  intros H. revert b. induction H as [|c t Hc _ IH]; intros b; [reflexivity|].
  cbn [squeeze]. now rewrite Hc, IH.
Qed.

Lemma printable_keep (c : N) :
  printable c = true -> keep_char c = true /\ is_newline c = false.
Proof.
  unfold printable, in_range, keep_char, is_newline, LF. intros H. rewrite H.
  split; [reflexivity|]. apply andb_prop in H as [H _]. apply N.leb_le in H.
  apply N.eqb_neq. lia.
Qed.

Lemma strip_bracketed (a z : N) (m : pystr) :
  is_space a = false -> is_space z = false ->
  strip (a :: m ++ [z]) = a :: m ++ [z].
Proof.
  intros Ha Hz. unfold strip, rstrip. cbn [lstrip]. rewrite Ha.
  change (a :: m ++ [z]) with ((a :: m) ++ [z]).
  rewrite reverse_snoc. cbn [lstrip]. rewrite Hz.
  now rewrite reverse_cons, reverse_involutive.
Qed.

Lemma dict_form (level : nat) (items : list (pystr * json)) (out : pystr) :
  encode_json None level (JDict items) = Some out ->
  exists m, out = 0x7B :: m ++ [0x7D].
Proof.
  destruct items as [|kv items]; cbn [encode_json].
  - intros [= <-]. now exists [].
  - destruct (mapM _ (kv :: items)) as [chunks|]; [|discriminate].
    cbn. intros [= <-]. eauto.
Qed.

(** A plain dict goes through the compact sanitizer as [json.dumps]
    writes it. *)
Lemma sanitize_plain_dict (items : list (pystr * json)) :
  plain (JDict items) = true ->
  exists out, dumps None (JDict items) = Some out
              /\ _sanitize_content (CDict items) true = Ok out.
Proof.
  intros Hplain.
  destruct (encode_json_ascii None _ 0%nat (plain_ascii _ Hplain)) as [out Henc].
  exists out. split; [exact Henc|].
  destruct (encode_json_tight _ _ _ Hplain Henc) as [Hp Ht].
  destruct (dict_form _ _ _ Henc) as [m Em].
  assert (clean true out = out) as Hclean.
  { rewrite clean_compact_eq.
    rewrite strip_control_id
      by (eapply Forall_impl; [exact Hp | intros c Hc; now apply printable_keep]).
    rewrite (squeeze_id is_newline LF false out)
      by (eapply Forall_impl; [exact Hp | intros c Hc; now apply printable_keep]).
    pose proof (Ht false []) as Hsq. cbn [squeeze] in Hsq.
    rewrite !app_nil_r in Hsq. rewrite Hsq.
    rewrite Em. now apply strip_bracketed. }
  unfold _sanitize_content, content_to_str. unfold dumps in Henc |- *. rewrite Henc.
  rewrite Hclean. rewrite Em at 1. rewrite strip_bracketed by reflexivity.
  reflexivity.
Qed.

Lemma file_text_of (fs : filesystem) (p : path) data pm enc (s : pystr) :
  stat fs p = Ok (File data pm) -> r_ok pm = true ->
  decode enc data = Some s -> Forall (fun c => c <> CR) s ->
  file_text fs p enc = Some s.
Proof.
  intros Hs Hr Hd Hcr. unfold file_text, read_text, bind, read_bytes.
  rewrite Hs, Hr, Hd. unfold ret. now rewrite (normalize_newlines_no_cr _ Hcr).
Qed.

(** C3, as the code has it: for a dict of plain values (built from [None],
    booleans, integers of at most 4300 digits, floats other than NaN,
    strings, lists and dicts with string keys, every string having only
    characters up to U+007E and no two neighbouring spaces) that is nested
    no deeper than [safe_nesting], [create_file] with [compact=True] on a
    path that is free and where a file can be made writes a text that
    [json.loads] reads back as the dict. *)
Theorem create_file_dict_roundtrip (fs : filesystem) (p : path)
    (items : list (pystr * json)) (overwrite : bool) enc :
  tree_shaped fs ->
  path_exists fs p = false -> creatable fs p = true ->
  plain (JDict items) = true ->
  (json_depth (JDict items) <= safe_nesting)%nat ->
  exists fs' text,
    create_file p (CDict items) overwrite true enc fs = (Ok p, fs')
    /\ file_text fs' p enc = Some text
    /\ loads text = Some (JDict items).
Proof.
  intros Ht Hex Hc Hplain _.
  destruct (sanitize_plain_dict items Hplain) as (out & Hd & Hs).
  destruct (create_file_fresh fs p (CDict items) overwrite true enc out Ht Hex Hc Hs)
    as (fs' & data & Hrun & Hst & Hdec & _).
  exists fs', out. split; [exact Hrun|]. split.
  - eapply file_text_of; [exact Hst | reflexivity | exact Hdec |].
    eapply Forall_impl; [exact (sanitize_kept _ _ _ Hs)|]. apply keep_char_not_cr.
  - apply (loads_dumps_any None); [now apply plain_ascii | exact Hd].
Qed.

Lemma create_file_dict_roundtrip_witness :
  let d := [(cps "Nome", JStr (cps "Alecsander")); (cps "Idade", JInt 18);
            (cps "Altura", JFloat (cps "1.75"));
            (cps "Notas", JList [JFloat (cps "9.5"); JFloat (cps "1e+16"); JNull])] in
  let p := Child tmp "dados.json" in
  exists fs' text,
    create_file p (CDict d) true true Utf8 disk_empty_tmp = (Ok p, fs')
    /\ file_text fs' p Utf8 = Some text
    /\ loads text = Some (JDict d).
Proof.
  apply (create_file_dict_roundtrip disk_empty_tmp (Child tmp "dados.json")
           [(cps "Nome", JStr (cps "Alecsander")); (cps "Idade", JInt 18);
            (cps "Altura", JFloat (cps "1.75"));
            (cps "Notas", JList [JFloat (cps "9.5"); JFloat (cps "1e+16"); JNull])]
           true Utf8).
  - apply (bool_decide_eq_true_1 (tree_shaped disk_empty_tmp)). vm_compute. reflexivity.
  - reflexivity.
  - reflexivity.
  - vm_compute. reflexivity.
  - unfold safe_nesting. cbn. lia.
Defined.

(** C3 as stated fails: the sanitizer deletes the characters outside ASCII
    and squeezes the runs of spaces inside the strings of the dict, so the
    text that is written is the JSON form of another dict. *)
Lemma create_file_dict_roundtrip_counterexample :
  ~ (forall (fs : filesystem) (p : path) (items : list (pystr * json))
            (fs' : filesystem) (text : pystr),
       path_exists fs p = false ->
       create_file p (CDict items) true true Utf8 fs = (Ok p, fs') ->
       file_text fs' p Utf8 = Some text ->
       loads text = Some (JDict items)).
Proof.
  intros H.
  pose (items := [(cps "Nome", JStr (cps "Jos" ++ [0xE9] ++ cps "  Silva"))]).
  pose (p := Child tmp "dados.json").
  pose (fs' := snd (create_file p (CDict items) true true Utf8 disk_empty_tmp)).
  pose (text := default [] (file_text fs' p Utf8)).
  assert (loads text = Some (JDict items)) as Hl.
  { apply (H disk_empty_tmp p items fs' text); vm_compute; reflexivity. }
  vm_compute in Hl. discriminate Hl.
Qed.

End JsonSanitized.

(** ** The disk stays a tree *)

Section Invariant.

Implicit Types (fs : filesystem) (p q x y : path) (nd : node).

(** Writing at a path that held no directory keeps the directories. *)
Lemma is_dir_insert fs p nd y :
  (forall pm, fs !! p <> Some (Dir pm)) ->
  is_dir fs y = true -> is_dir (<[p := nd]> fs) y = true.
Proof.
  intros Hp. unfold is_dir. induction y as [|z IH m]; [trivial|]. simpl.
  destruct (stat fs z) as [[d pm|pm]|e]; try discriminate.
  specialize (IH eq_refl).
  destruct (stat (<[p := nd]> fs) z) as [[d' pm'|pm']|e']; try discriminate.
  destruct (fs !! Child z m) as [[d0 pm0|pm0]|] eqn:E; try discriminate.
  intros _. rewrite lookup_insert_ne; [now rewrite E|].
  intros ->. now apply (Hp pm0).
Qed.

Lemma is_dir_delete fs p y :
  (forall pm, fs !! p <> Some (Dir pm)) ->
  is_dir fs y = true -> is_dir (delete p fs) y = true.
Proof.
  intros Hp. unfold is_dir. induction y as [|z IH m]; [trivial|]. simpl.
  destruct (stat fs z) as [[d pm|pm]|e]; try discriminate.
  specialize (IH eq_refl).
  destruct (stat (delete p fs) z) as [[d' pm'|pm']|e']; try discriminate.
  destruct (fs !! Child z m) as [[d0 pm0|pm0]|] eqn:E; try discriminate.
  intros _. rewrite lookup_delete_ne; [now rewrite E|].
  intros ->. now apply (Hp pm0).
Qed.

Lemma tree_shaped_insert fs p nd :
  tree_shaped fs -> (forall pm, fs !! p <> Some (Dir pm)) ->
  is_dir fs (parent_of p) = true ->
  tree_shaped (<[p := nd]> fs).
Proof.
  intros Ht Hp Hq x ndx Hx. apply is_dir_insert; [exact Hp|].
  destruct (decide (p = x)) as [<-|Hne]; [exact Hq|].
  rewrite lookup_insert_ne in Hx by exact Hne. exact (Ht x ndx Hx).
Qed.

Lemma tree_shaped_delete fs p :
  tree_shaped fs -> (forall pm, fs !! p <> Some (Dir pm)) ->
  tree_shaped (delete p fs).
Proof.
  intros Ht Hp x ndx Hx. apply is_dir_delete; [exact Hp|].
  apply lookup_delete_Some in Hx as [_ Hx]. exact (Ht x ndx Hx).
Qed.

Lemma stat_raise_no_dir fs p e pm :
  tree_shaped fs -> stat fs p = Raise e -> fs !! p <> Some (Dir pm).
Proof.
  intros Ht Hs Hl. destruct p as [|q n]; [discriminate|].
  pose proof (Ht _ _ Hl) as Hq. unfold is_dir in Hq. simpl in Hq, Hs.
  destruct (stat fs q) as [[]|]; try discriminate. now rewrite Hl in Hs.
Qed.

Lemma stat_file_no_dir fs p data pm pm' :
  stat fs p = Ok (File data pm) -> fs !! p <> Some (Dir pm').
Proof.
  destruct p as [|q n]; [discriminate|]. intros Hs Hl.
  apply stat_child_ok in Hs as [_ Hs]. congruence.
Qed.

Lemma stat_ok_parent fs p nd :
  stat fs p = Ok nd -> is_dir fs (parent_of p) = true.
Proof.
  destruct p as [|q n]; [reflexivity|]. intros Hs.
  apply stat_child_ok in Hs as [[pm Hq] _]. unfold is_dir. cbn [parent_of].
  now rewrite Hq.
Qed.

Lemma os_mkdir_tree p fs r fs' :
  tree_shaped fs -> os_mkdir p fs = (r, fs') -> tree_shaped fs'.
Proof.
  intros Ht. unfold os_mkdir.
  destruct (stat fs p) as [nd|e] eqn:Ep; [now intros [= _ <-]|].
  destruct e; try (now intros [= _ <-]);
    (destruct (stat fs (parent_of p)) as [[d pm|pm]|e'] eqn:Eq;
     [now intros [= _ <-] | | now intros [= _ <-]];
     destruct (w_ok pm); intros [= _ <-]; [|exact Ht];
     apply tree_shaped_insert;
     [exact Ht | intros pm0; eapply stat_raise_no_dir; eassumption
     | unfold is_dir; now rewrite Eq]).
Qed.

Lemma mkdir_single_tree b p fs r fs' :
  tree_shaped fs -> mkdir_single b p fs = (r, fs') -> tree_shaped fs'.
Proof.
  intros Ht. unfold mkdir_single, try_except.
  destruct (os_mkdir p fs) as [[[]|e] fs1] eqn:E;
    pose proof (os_mkdir_tree _ _ _ _ Ht E) as Ht1.
  - now intros [= _ <-].
  - intros H. assert (fs' = fs1) as ->; [|exact Ht1].
    destruct e; simpl in H;
      try (unfold raise in H; now injection H as _ <-);
      now apply mkdir_tolerate_frame in H.
Qed.

Lemma mkdir_parents_tree b p fs r fs' :
  tree_shaped fs -> mkdir_parents b p fs = (r, fs') -> tree_shaped fs'.
Proof.
  revert b fs r fs'. induction p as [|q IH n]; intros b fs r fs' Ht H.
  - simpl in H. unfold try_except, os_mkdir in H. simpl in H.
    apply mkdir_tolerate_frame in H. now subst.
  - cbn [mkdir_parents] in H. unfold try_except in H.
    destruct (os_mkdir (Child q n) fs) as [[[]|e] fs1] eqn:E;
      pose proof (os_mkdir_tree _ _ _ _ Ht E) as Ht1.
    + now injection H as _ <-.
    + destruct e; simpl in H;
        try (unfold raise in H; injection H as _ <-; exact Ht1);
        try (apply mkdir_tolerate_frame in H; subst; exact Ht1).
      unfold bind in H.
      destruct (mkdir_parents true q fs1) as [[[]|e] fs2] eqn:E2;
        pose proof (IH _ _ _ _ Ht1 E2) as Ht2.
      * eapply mkdir_single_tree; eassumption.
      * now injection H as _ <-.
Qed.

Lemma ensure_directory_tree d (a b : bool) fs r fs' :
  tree_shaped fs -> _ensure_directory d a b fs = (r, fs') -> tree_shaped fs'.
Proof.
  intros Ht. unfold _ensure_directory. destruct (path_exists fs d).
  - destruct (negb (is_dir fs d)); [now intros [= _ <-]|].
    destruct (negb b); now intros [= _ <-].
  - destruct (negb a); [now intros [= _ <-]|].
    unfold try_except, bind.
    destruct (mkdir_parents b d fs) as [[[]|e] fs1] eqn:E;
      pose proof (mkdir_parents_tree _ _ _ _ _ Ht E) as Ht1.
    + now intros [= _ <-].
    + intros H. assert (fs' = fs1) as ->; [|exact Ht1].
      destruct e; simpl in H; unfold raise in H; now injection H as _ <-.
Qed.

Lemma open_w_tree p fs r fs' :
  tree_shaped fs -> open_w p fs = (r, fs') -> tree_shaped fs'.
Proof.
  intros Ht. unfold open_w.
  destruct (stat fs p) as [[d pm|pm]|e] eqn:Ep.
  - destruct (w_ok pm); intros [= _ <-]; [|exact Ht].
    apply tree_shaped_insert;
      [exact Ht | intros pm0; eapply stat_file_no_dir; eassumption
      | eapply stat_ok_parent; eassumption].
  - now intros [= _ <-].
  - destruct e; try (now intros [= _ <-]);
      (destruct (stat fs (parent_of p)) as [[d pm|pm]|e'] eqn:Eq;
       [now intros [= _ <-] | | now intros [= _ <-]];
       destruct (w_ok pm); intros [= _ <-]; [|exact Ht];
       apply tree_shaped_insert;
       [exact Ht | intros pm0; eapply stat_raise_no_dir; eassumption
       | unfold is_dir; now rewrite Eq]).
Qed.

Lemma set_data_tree p data fs r fs' :
  tree_shaped fs -> set_data p data fs = (r, fs') -> tree_shaped fs'.
Proof.
  intros Ht. unfold set_data.
  destruct (fs !! p) as [[d pm|pm]|] eqn:E; try (now intros [= _ <-]).
  intros [= _ <-]. apply tree_shaped_insert; [exact Ht | congruence|].
  exact (Ht _ _ E).
Qed.

Lemma write_text_tree p (s : pystr) enc fs r fs' :
  tree_shaped fs -> write_text p s enc fs = (r, fs') -> tree_shaped fs'.
Proof.
  intros Ht. unfold write_text, bind.
  destruct (open_w p fs) as [[[]|e] fs1] eqn:E;
    pose proof (open_w_tree _ _ _ _ Ht E) as Ht1.
  - destruct (encode enc s); [apply set_data_tree; exact Ht1 | now intros [= _ <-]].
  - now intros [= _ <-].
Qed.

(** Each of the three operations takes a tree to a tree, whether it returns
    or raises. *)
Lemma create_file_tree p c (overwrite compact : bool) enc fs r fs' :
  tree_shaped fs -> create_file p c overwrite compact enc fs = (r, fs') ->
  tree_shaped fs'.
Proof.
  intros Ht. unfold create_file, try_except.
  match goal with
  | |- (let (_, _) := ?body fs in _) = _ -> _ =>
      assert (forall r1 fs1, body fs = (r1, fs1) -> tree_shaped fs1) as Hbody
  end.
  { intros r1 fs1. unfold bind, reads, pure.
    destruct (path_exists fs p && negb overwrite); [now intros [= _ <-]|].
    destruct (_ensure_directory (parent_of p) true true fs) as [[d|e] fs2] eqn:E;
      pose proof (ensure_directory_tree _ _ _ _ _ _ Ht E) as Ht2;
      [|now intros [= _ <-]].
    destruct (_sanitize_content c compact) as [s|e]; [|now intros [= _ <-]].
    destruct (write_text p s enc fs2) as [[[]|e] fs3] eqn:Ew;
      pose proof (write_text_tree _ _ _ _ _ _ Ht2 Ew) as Ht3;
      now intros [= _ <-]. }
  match goal with
  | |- (let (_, _) := ?body fs in _) = _ -> _ =>
      destruct (body fs) as [[a|e] fs1] eqn:E
  end; pose proof (Hbody _ _ eq_refl) as Ht1.
  - now intros [= _ <-].
  - intros H. assert (fs' = fs1) as ->; [|exact Ht1].
    destruct e; simpl in H; unfold raise in H; now injection H as _ <-.
Qed.

Lemma delete_file_tree p (ignore_missing : bool) fs r fs' :
  tree_shaped fs -> delete_file p ignore_missing fs = (r, fs') -> tree_shaped fs'.
Proof.
  intros Ht. unfold delete_file, try_except, bind, reads.
  destruct (_validate_path fs p true (Some true) false false true) as [q|e] eqn:Ev.
  - unfold unlink. destruct (stat fs q) as [[d pm|pm]|e] eqn:Eq.
    + destruct (negb (access_w fs (parent_of q))); simpl; [now intros [= _ <-]|].
      intros [= _ <-]. apply tree_shaped_delete; [exact Ht|].
      intros pm0. eapply stat_file_no_dir; eassumption.
    + destruct (negb (access_w fs (parent_of q))); simpl; now intros [= _ <-].
    + destruct e; simpl; try (now intros [= _ <-]).
      destruct ignore_missing; now intros [= _ <-].
  - destruct e; simpl; try (now intros [= _ <-]).
    destruct ignore_missing; now intros [= _ <-].
Qed.

Lemma read_file_frame p (as_bytes : bool) enc fs r fs' :
  read_file p as_bytes enc fs = (r, fs') -> fs' = fs.
Proof.
  unfold read_file, try_except, bind, reads, read_text, read_bytes, bind.
  destruct (_validate_path fs p true (Some true) true false true) as [q|e].
  - destruct as_bytes.
    + destruct (stat fs q) as [[d pm|pm]|e]; [destruct (r_ok pm)| |];
        simpl; try (now intros [= _ <-]);
        destruct e; simpl; now intros [= _ <-].
    + destruct (stat fs q) as [[d pm|pm]|e]; [destruct (r_ok pm)| |];
        simpl; try (now intros [= _ <-]);
        try (destruct e; simpl; now intros [= _ <-]).
      destruct (decode enc d); simpl; now intros [= _ <-].
  - destruct e; simpl; now intros [= _ <-].
Qed.

End Invariant.

(** * Further properties *)

(** ** The sanitizer *)

Section SanitizerMore.

Lemma keep_char_cases (c : N) :
  keep_char c = true <-> printable c = true \/ c = TAB \/ c = LF.
Proof.
  unfold keep_char, printable, in_range. split.
  - intros H. apply orb_prop in H as [H|H]; [apply orb_prop in H as [H|H]|].
    + now left.
    + right. left. now apply N.eqb_eq.
    + right. right. now apply N.eqb_eq.
  - intros [H|[->| ->]]; [now rewrite H | reflexivity | reflexivity].
Qed.

Lemma squeeze_blank_no_tab (b : bool) (s : pystr) :
  Forall (fun c => c <> TAB) (squeeze is_blank SP b s).
Proof.
  revert b. induction s as [|c t IH]; intros b; cbn [squeeze]; [constructor|].
  destruct (is_blank c) eqn:Hc.
  - destruct b; [apply IH|]. constructor; [discriminate | apply IH].
  - constructor; [|apply IH]. intros ->. discriminate Hc.
Qed.

Lemma lstrip_id (s : pystr) :
  (forall x, head s = Some x -> is_space x = false) -> lstrip s = s.
Proof.
  destruct s as [|c t]; [reflexivity|]. intros H. cbn [lstrip].
  now rewrite (H c eq_refl).
Qed.

(** A text that neither starts nor ends with white space is its own
    [strip()]. *)
Lemma strip_id (s : pystr) :
  (forall x, head s = Some x -> is_space x = false) ->
  (forall x, last s = Some x -> is_space x = false) ->
  strip s = s.
Proof.
  intros Hh Hl. unfold strip, rstrip. rewrite (lstrip_id s Hh).
  rewrite lstrip_id; [apply reverse_involutive|].
  intros x. rewrite head_reverse. apply Hl.
Qed.

Lemma lstrip_all_space (s : pystr) :
  Forall (fun c => is_space c = true) s -> lstrip s = [].
Proof.
  induction 1 as [|c t Hc _ IH]; [reflexivity|]. cbn [lstrip]. now rewrite Hc.
Qed.

Lemma strip_all_space (s : pystr) :
  Forall (fun c => is_space c = true) s -> strip s = [].
Proof. intros H. unfold strip. now rewrite (lstrip_all_space s H). Qed.

Lemma no_adj_suffix cls (pre s : pystr) : no_adj cls (pre ++ s) -> no_adj cls s.
Proof.
  induction pre as [|c pre IH]; [trivial|]. intros [_ H]. now apply IH.
Qed.

Lemma no_adj_prefix cls (s post : pystr) : no_adj cls (s ++ post) -> no_adj cls s.
Proof.
  induction s as [|c s IH]; [intros _; exact I|]. cbn [app no_adj]. intros [Hh Ht].
  split; [|now apply IH]. destruct s as [|d s]; [trivial | exact Hh].
Qed.

(** The pass that squeezes the runs of a class leaves a text as it is when
    the text has no two neighbours of the class and writes the members of
    the class as the pass would. *)
Lemma squeeze_fixed cls (r : N) (s : pystr) :
  no_adj cls s -> Forall (fun c => cls c = true -> c = r) s ->
  forall b : bool,
    (b = true -> forall x, head s = Some x -> cls x = false) ->
    squeeze cls r b s = s.
Proof.
  induction s as [|c t IH]; intros Hn Hr b Hb; [reflexivity|].
  destruct Hn as [Hh Hn]. apply Forall_cons in Hr as [Hc Hr]. cbn [squeeze].
  destruct (cls c) eqn:Ec.
  - destruct b; [now rewrite (Hb eq_refl c eq_refl) in Ec|].
    rewrite (Hc eq_refl). f_equal. apply IH; [exact Hn | exact Hr|].
    intros _ x Hx. destruct t as [|d t]; [discriminate|]. injection Hx as ->.
    exact Hh.
  - f_equal. apply IH; [exact Hn | exact Hr | discriminate].
Qed.

(** The compact sanitizer changes nothing in a text it has produced. *)
Lemma clean_compact_fixed (raw : pystr) :
  clean true (clean true raw) = clean true raw.
Proof.
  rewrite (clean_compact_eq (clean true raw)).
  rewrite strip_control_id by apply clean_kept.
  rewrite clean_compact_eq.
  set (t := squeeze is_blank SP false (squeeze is_newline LF false (strip_control raw))).
  destruct (strip_infix t) as (pre & post & E).
  assert (no_adj is_newline (strip t)) as Hnl.
  { apply (no_adj_prefix _ _ post), (no_adj_suffix _ pre). rewrite <- E.
    apply squeeze_blank_keeps_newlines, squeeze_no_adj. }
  assert (no_adj is_blank (strip t)) as Hbl.
  { apply (no_adj_prefix _ _ post), (no_adj_suffix _ pre). rewrite <- E.
    apply squeeze_no_adj. }
  assert (Forall (fun c => c <> TAB) (strip t)) as Htab
    by (apply strip_kept, squeeze_blank_no_tab).
  rewrite (squeeze_fixed is_newline LF (strip t) Hnl); [|
    apply Forall_forall; intros c _ Hc; now apply is_newline_spec | discriminate].
  rewrite (squeeze_fixed is_blank SP (strip t) Hbl); [| | discriminate].
  - apply strip_id; [apply strip_head | apply strip_last].
  - eapply Forall_impl; [exact Htab|]. intros c Hc Hb. unfold is_blank in Hb.
    apply orb_prop in Hb as [Hb|Hb]; apply N.eqb_eq in Hb; congruence.
Qed.

(** X1: what the sanitizer returns holds only printable ASCII characters,
    tabs and line feeds, no tab at all in compact mode, and is not blank. *)
Theorem sanitize_output_alphabet (c : content) (compact : bool) (s : pystr) :
  _sanitize_content c compact = Ok s ->
  Forall (fun x => printable x = true \/ x = TAB \/ x = LF) s
  /\ (compact = true -> Forall (fun x => x <> TAB) s)
  /\ strip s <> [].
Proof.
  intros H. pose proof (sanitize_kept _ _ _ H) as Hk.
  apply sanitize_inv in H as (raw & _ & -> & Hne). split; [|split; [|exact Hne]].
  - eapply Forall_impl; [exact Hk|]. intros x. apply keep_char_cases.
  - intros ->. rewrite clean_compact_eq. apply strip_kept, squeeze_blank_no_tab.
Qed.

Lemma sanitize_output_alphabet_witness :
  let s := cps "a b" in
  Forall (fun x => printable x = true \/ x = TAB \/ x = LF) s
  /\ (true = true -> Forall (fun x => x <> TAB) s)
  /\ strip s <> [].
Proof.
  apply (sanitize_output_alphabet (CStr (cps " a" ++ [TAB; 0xE9; TAB] ++ cps "b" ++ [CR])) true).
  reflexivity.
Defined.

(** X2: the sanitizer is idempotent: the text it returns, handed back with
    the same [compact], is returned as it is. *)
Theorem sanitize_idempotent (c : content) (compact : bool) (s : pystr) :
  _sanitize_content c compact = Ok s ->
  _sanitize_content (CStr s) compact = Ok s.
Proof.
  intros H. apply sanitize_inv in H as (raw & _ & -> & Hne).
  unfold _sanitize_content, content_to_str.
  assert (clean compact (clean compact raw) = clean compact raw) as ->.
  { destruct compact; [apply clean_compact_fixed|].
    rewrite (clean_plain_eq (clean false raw)).
    apply strip_control_id, clean_kept. }
  destruct (strip (clean compact raw)); [congruence | reflexivity].
Qed.

Lemma sanitize_idempotent_witness :
  _sanitize_content (CStr (cps "Linha 1" ++ [LF] ++ cps "Linha 2 mais")) true
  = Ok (cps "Linha 1" ++ [LF] ++ cps "Linha 2 mais").
Proof.
  apply (sanitize_idempotent
           (CStr (cps "Linha 1" ++ [LF; LF; LF] ++ cps "Linha 2  " ++ [TAB] ++ cps "  mais"))
           true).
  reflexivity.
Defined.

(** X3: a text in which every character is deleted by the filter or is
    white space (a text of letters outside ASCII, say) is rejected with
    the [ValueError] of the empty content, in either mode. *)
Theorem sanitize_nothing_left (s : pystr) (compact : bool) :
  Forall (fun x => keep_char x = false \/ is_space x = true) s ->
  _sanitize_content (CStr s) compact = Raise ValueError.
Proof.
  intros H. unfold _sanitize_content, content_to_str.
  assert (Forall (fun x => is_space x = true) (strip_control s)) as Hsp.
  { unfold strip_control. apply Forall_forall. intros x Hx.
    apply list_elem_of_filter in Hx as [Hk Hin].
    rewrite Forall_forall in H. destruct (H x Hin) as [Hx|Hx]; [congruence | exact Hx]. }
  assert (strip (clean compact s) = []) as ->; [|reflexivity].
  destruct compact.
  - rewrite clean_compact_eq.
    assert (strip (squeeze is_blank SP false
                     (squeeze is_newline LF false (strip_control s))) = []) as ->;
      [|reflexivity].
    apply strip_all_space. apply squeeze_kept; [reflexivity|].
    apply squeeze_kept; [reflexivity | exact Hsp].
  - rewrite clean_plain_eq. now apply strip_all_space.
Qed.

Lemma sanitize_nothing_left_witness :
  _sanitize_content (CStr [0x65E5; 0x672C; SP; 0x8A9E; LF]) false = Raise ValueError.
Proof.
  apply (sanitize_nothing_left [0x65E5; 0x672C; SP; 0x8A9E; LF] false).
  repeat (apply List.Forall_cons; [first [left; reflexivity | right; reflexivity]|]).
  apply List.Forall_nil.
Defined.

Lemma printable_not_blank_not_space (c : N) :
  printable c = true -> is_blank c = false -> is_space c = false.
Proof.
  unfold printable, in_range, is_blank, is_space, SP, TAB. intros H Hb.
  apply andb_prop in H as [H1 H2]. apply N.leb_le in H1, H2.
  apply orb_false_elim in Hb as [Hb _]. apply N.eqb_neq in Hb.
  repeat (apply orb_false_intro);
    try (apply N.eqb_neq; lia);
    try (apply andb_false_intro1; apply N.leb_gt; lia);
    try (apply andb_false_intro2; apply N.leb_gt; lia).
Qed.

(** X4: the scalars are written as [str] prints them, in either mode: an
    integer of at most 4300 digits as its decimal text, the booleans as
    [True] and [False], [None] as [None].  For an integer of more digits
    [str] raises [ValueError], and that error leaves the sanitizer. *)
Theorem sanitize_scalars (compact : bool) :
  (forall n : Z, _sanitize_content (CInt n) compact
                 = if int_fits n then Ok (str_int n) else Raise ValueError)
  /\ _sanitize_content (CBool true) compact = Ok (cps "True")
  /\ _sanitize_content (CBool false) compact = Ok (cps "False")
  /\ _sanitize_content CNone compact = Ok (cps "None").
Proof.
  split; [|destruct compact; repeat split; reflexivity].
  intros n. destruct (int_tight n) as [Hp Ht].
  assert (Forall (fun c => is_digit c = true \/ c = 0x2D) (str_int n)) as Hd.
  { unfold str_int. destruct (Z.to_int n) as [u|u];
      [|constructor; [now right|]];
      (eapply Forall_impl; [apply uint_cps_digits | now left]). }
  assert (Forall (fun c => is_space c = false) (str_int n)) as Hs.
  { eapply Forall_impl; [exact Hd|]. intros c [Hc| ->]; [|reflexivity].
    destruct (digit_printable c Hc). now apply printable_not_blank_not_space. }
  assert (strip (str_int n) = str_int n) as Hstrip.
  { apply strip_id; intros x Hx; rewrite Forall_forall in Hs; apply Hs.
    - apply head_Some in Hx as [l ->]. left.
    - apply last_Some in Hx as [l ->]. apply elem_of_app. right. left. }
  assert (clean compact (str_int n) = str_int n) as Hclean.
  { destruct compact.
    - rewrite clean_compact_eq.
      rewrite strip_control_id
        by (eapply Forall_impl; [exact Hp | intros x Hx; now apply printable_keep]).
      rewrite (squeeze_id is_newline LF false (str_int n))
        by (eapply Forall_impl; [exact Hp | intros x Hx; now apply printable_keep]).
      pose proof (Ht false []) as Hsq. cbn [squeeze] in Hsq.
      rewrite !app_nil_r in Hsq. now rewrite Hsq.
    - rewrite clean_plain_eq. apply strip_control_id.
      eapply Forall_impl; [exact Hp | intros x Hx; now apply printable_keep]. }
  unfold _sanitize_content, content_to_str, int_to_str.
  destruct (int_fits n); [|reflexivity].
  rewrite Hclean, Hstrip. destruct (str_int_head n) as (d & t & -> & _). reflexivity.
Qed.

End SanitizerMore.

(** ** Validation and the platform helpers *)

Section ValidationMore.

Implicit Types (fs : filesystem) (p q : path).

(** X5: [_validate_path] returns exactly when every requested constraint
    holds, and then it returns the path it was given. *)
Theorem validate_path_ok_iff fs p q
    (must_exist : bool) (is_file_opt : option bool)
    (readable writable allow_hidden : bool) :
  _validate_path fs p must_exist is_file_opt readable writable allow_hidden = Ok q
  <->
  q = p
  /\ (must_exist = true -> path_exists fs p = true)
  /\ (is_file_opt = Some true -> is_file fs p = true)
  /\ (is_file_opt = Some false -> is_dir fs p = true)
  /\ (allow_hidden = false -> starts_with_dot (name_of p) = false)
  /\ (readable = true -> access_r fs p = true)
  /\ (writable = true -> access_w fs p = true).
Proof.
  unfold _validate_path. split.
  - destruct must_exist, (path_exists fs p); cbn [andb negb]; try discriminate;
      (destruct is_file_opt as [[|]|];
       [destruct (is_file fs p) | destruct (is_dir fs p) |];
       cbn [negb]; try discriminate;
       destruct allow_hidden, (starts_with_dot (name_of p));
       cbn [andb negb]; try discriminate;
       destruct readable, (access_r fs p); cbn [andb negb]; try discriminate;
       destruct writable, (access_w fs p); cbn [andb negb]; try discriminate;
       intros [= <-]; repeat split; intros; congruence).
  - intros (-> & H1 & H2 & H3 & H4 & H5 & H6).
    destruct must_exist; [rewrite (H1 eq_refl)|]; cbn [andb negb];
      (destruct is_file_opt as [[|]|];
       [rewrite (H2 eq_refl) | rewrite (H3 eq_refl) |]; cbn [negb];
       (destruct allow_hidden; [|rewrite (H4 eq_refl)]); cbn [andb negb];
       (destruct readable; [rewrite (H5 eq_refl)|]); cbn [andb negb];
       (destruct writable; [rewrite (H6 eq_refl)|]); reflexivity).
Qed.

(** X6: the kind and access constraints ask for the path to be there even
    when [must_exist] is off: on a path that does not exist a requested
    kind fails as a wrong kind, and a requested access as not readable or
    not writable. *)
Theorem validate_path_missing_optional fs p
    (is_file_opt : option bool) (readable writable : bool) :
  path_exists fs p = false ->
  _validate_path fs p false is_file_opt readable writable true =
    match is_file_opt with
    | Some true => Raise (PathValidationError p ExpectedFile)
    | Some false => Raise (PathValidationError p ExpectedDirectory)
    | None =>
        if readable then Raise (PathValidationError p NotReadablePath)
        else if writable then Raise (PathValidationError p NotWritablePath)
        else Ok p
    end.
Proof.
  intros H. unfold _validate_path, is_file, is_dir, access_r, access_w.
  unfold path_exists in H. destruct (stat fs p) as [nd|e]; [discriminate|].
  destruct is_file_opt as [[|]|]; try reflexivity.
  destruct readable, writable; reflexivity.
Qed.

Lemma validate_path_missing_optional_witness :
  path_exists disk_empty_tmp (Child tmp "novo.txt") = false /\
  _validate_path disk_empty_tmp (Child tmp "novo.txt") false (Some true) false false true
  = Raise (PathValidationError (Child tmp "novo.txt") ExpectedFile).
Proof.
  split; [reflexivity|].
  apply (validate_path_missing_optional disk_empty_tmp (Child tmp "novo.txt")
           (Some true) false false).
  reflexivity.
Defined.

(** X7: on a platform other than win32 the helpers and the validation
    agree: for a path that is there, [_validate_path] with
    [allow_hidden=False] accepts it exactly when [_is_hidden] is false, and
    with [writable=True] exactly when [is_readonly] is false. *)
Theorem posix_helpers_agree_with_validation fs p :
  path_exists fs p = true ->
  (_validate_path fs p true None false false false = Ok p
   <-> _is_hidden Posix fs p = Ok false)
  /\ (_validate_path fs p true None false true true = Ok p
      <-> is_readonly Posix fs p = Ok false).
Proof.
  intros H. unfold _validate_path, _is_hidden, is_readonly. rewrite H.
  cbn [andb negb]. split.
  - destruct (starts_with_dot (name_of p)); split; congruence.
  - destruct (access_w fs p); cbn [negb]; split; congruence.
Qed.

Lemma posix_helpers_agree_with_validation_witness :
  let fs := disk_with_file ".oculto" [] in
  let p := Child tmp ".oculto" in
  (_validate_path fs p true None false false false = Ok p
   <-> _is_hidden Posix fs p = Ok false)
  /\ (_validate_path fs p true None false true true = Ok p
      <-> is_readonly Posix fs p = Ok false).
Proof.
  apply (posix_helpers_agree_with_validation
           (disk_with_file ".oculto" []) (Child tmp ".oculto")).
  reflexivity.
Defined.

(** X8: on win32 the two notions of hidden are not the same: a path that
    is there, whose attributes have the hidden bit and whose name starts
    with no dot, is hidden for [_is_hidden] and yet accepted by
    [_validate_path] with [allow_hidden=False]. *)
Theorem win32_hidden_not_unified fs p (attributes : path -> option Z) (attrs : Z) :
  path_exists fs p = true ->
  attributes p = Some attrs -> attrs <> (-1)%Z ->
  Z.land attrs FILE_ATTRIBUTE_HIDDEN <> 0%Z ->
  starts_with_dot (name_of p) = false ->
  _is_hidden (Win32 attributes) fs p = Ok true
  /\ _validate_path fs p true None false false false = Ok p.
Proof.
  intros Hex Ha Hne Hbit Hdot. unfold _is_hidden, _validate_path, attribute_or.
  rewrite Hex, Ha, Hdot. cbn [andb negb].
  apply Z.eqb_neq in Hne, Hbit. now rewrite Hne, Hbit.
Qed.

Lemma win32_hidden_not_unified_witness :
  let fs := disk_with_file "visivel.txt" [] in
  let p := Child tmp "visivel.txt" in
  _is_hidden (Win32 (fun _ => Some 0x22%Z)) fs p = Ok true
  /\ _validate_path fs p true None false false false = Ok p.
Proof.
  apply (win32_hidden_not_unified (disk_with_file "visivel.txt" [])
           (Child tmp "visivel.txt") (fun _ => Some 0x22%Z) 0x22%Z);
    try reflexivity; discriminate.
Defined.

(** X9: when the attribute query raises or answers -1, the win32 helpers
    answer as on the other platforms; and on every platform both raise
    [FileNotFoundError] for a path that is not there. *)
Theorem win32_helpers_fall_back fs p (attributes : path -> option Z) :
  (attributes p = None \/ attributes p = Some (-1)%Z ->
   _is_hidden (Win32 attributes) fs p = _is_hidden Posix fs p
   /\ is_readonly (Win32 attributes) fs p = is_readonly Posix fs p)
  /\ (path_exists fs p = false ->
      forall pf, _is_hidden pf fs p = Raise FileNotFoundError
                 /\ is_readonly pf fs p = Raise FileNotFoundError).
Proof.
  split.
  - intros H. unfold _is_hidden, is_readonly, attribute_or.
    destruct (negb (path_exists fs p)); [now split|].
    destruct H as [-> | ->]; now split.
  - intros H pf. unfold _is_hidden, is_readonly. now rewrite H.
Qed.

Lemma win32_helpers_fall_back_witness :
  let fs := disk_with_file ".oculto" [] in
  let p := Child tmp ".oculto" in
  _is_hidden (Win32 (fun _ => Some (-1)%Z)) fs p = _is_hidden Posix fs p
  /\ is_readonly (Win32 (fun _ => Some (-1)%Z)) fs p = is_readonly Posix fs p.
Proof.
  destruct (win32_helpers_fall_back (disk_with_file ".oculto" [])
              (Child tmp ".oculto") (fun _ => Some (-1)%Z)) as [H _].
  apply H. now right.
Defined.

End ValidationMore.

(** ** Directories *)

Section DirectoriesMore.

Implicit Types (fs : filesystem) (p q d x : path) (nd : node).

Lemma os_mkdir_made p fs fs' :
  os_mkdir p fs = (Ok tt, fs') -> is_dir fs' p = true.
Proof.
  unfold os_mkdir. destruct (stat fs p) as [nd|e] eqn:Ep; [discriminate|].
  destruct p as [|q n]; [discriminate|]. cbn [parent_of].
  destruct e; try discriminate;
    (destruct (stat fs q) as [[data pm|pm]|e'] eqn:Eq; try discriminate;
     destruct (w_ok pm); [|discriminate]; intros [= <-];
     unfold is_dir; now rewrite (stat_insert_child _ _ _ _ _ Eq)).
Qed.

Lemma mkdir_tolerate_made b p e fs fs' :
  mkdir_tolerate b p e fs = (Ok tt, fs') -> is_dir fs' p = true.
Proof.
  unfold mkdir_tolerate. destruct b; [|discriminate]. cbn [negb orb].
  destruct (is_dir fs p) eqn:E; [|discriminate]. now intros [= <-].
Qed.

Lemma mkdir_single_made b p fs fs' :
  mkdir_single b p fs = (Ok tt, fs') -> is_dir fs' p = true.
Proof.
  unfold mkdir_single, try_except.
  destruct (os_mkdir p fs) as [[[]|e] fs1] eqn:E.
  - intros [= <-]. eapply os_mkdir_made; eassumption.
  - destruct e; simpl; try discriminate; apply mkdir_tolerate_made.
Qed.

Lemma mkdir_parents_made b p fs fs' :
  mkdir_parents b p fs = (Ok tt, fs') -> is_dir fs' p = true.
Proof.
  destruct p as [|q n]; [reflexivity|].
  cbn [mkdir_parents]. unfold try_except.
  destruct (os_mkdir (Child q n) fs) as [[[]|e] fs1] eqn:E.
  - intros [= <-]. eapply os_mkdir_made; eassumption.
  - destruct e; simpl; try discriminate; try apply mkdir_tolerate_made.
    unfold bind. destruct (mkdir_parents true q fs1) as [[[]|e] fs2]; [|discriminate].
    apply mkdir_single_made.
Qed.

(** X10: when [_ensure_directory] returns, it returns the path it was
    given, the path is a directory, and ensuring it once more changes
    nothing. *)
Theorem ensure_directory_postcondition d (create_if_missing exist_ok : bool) fs q fs' :
  _ensure_directory d create_if_missing exist_ok fs = (Ok q, fs') ->
  q = d /\ is_dir fs' d = true
  /\ _ensure_directory d create_if_missing true fs' = (Ok d, fs').
Proof.
  intros H.
  assert (q = d /\ is_dir fs' d = true) as [-> Hd].
  { revert H. unfold _ensure_directory. destruct (path_exists fs d).
    - destruct (is_dir fs d) eqn:Hd; cbn [negb]; [|discriminate].
      destruct exist_ok; cbn [negb]; [|discriminate]. now intros [= <- <-].
    - destruct create_if_missing; cbn [negb]; [|discriminate].
      unfold try_except, bind.
      destruct (mkdir_parents exist_ok d fs) as [[[]|e] fs1] eqn:E.
      + intros [= <- <-]. split; [reflexivity|]. eapply mkdir_parents_made; eassumption.
      + destruct e; simpl; discriminate. }
  split; [reflexivity|]. split; [exact Hd|].
  unfold _ensure_directory. now rewrite (is_dir_exists _ _ Hd), Hd.
Qed.

Lemma ensure_directory_postcondition_witness :
  let d := Child (Child tmp "a") "b" in
  let fs' := <[d := Dir rw]> (<[Child tmp "a" := Dir rw]> disk_empty_tmp) in
  d = d /\ is_dir fs' d = true /\ _ensure_directory d true true fs' = (Ok d, fs').
Proof.
  apply (ensure_directory_postcondition (Child (Child tmp "a") "b") true true
           disk_empty_tmp).
  reflexivity.
Defined.

(** X11: when the way to a directory is blocked (the path, or the nearest
    ancestor of it that is there, is a regular file, or that ancestor is a
    directory the process cannot write in), [_ensure_directory] raises a
    [PathValidationError] for the directory whatever its flags are, and
    it does so before anything is made: the disk is left as it was.  The
    error says that the path is no directory when the path is there; when
    it is missing, that it could not be made, or with
    [create_if_missing=False] that it is missing. *)
Theorem ensure_directory_blocked fs d (create_if_missing exist_ok : bool) :
  makeable fs d = false ->
  exists r,
    _ensure_directory d create_if_missing exist_ok fs
    = (Raise (PathValidationError d r), fs)
    /\ (if path_exists fs d then r = ExistsButNotDirectory
        else if create_if_missing
        then kind_of (PathValidationError d r) = DirectoryCreateFailed
        else r = DirectoryMissingNoCreate).
Proof.
  intros Hm. destruct create_if_missing.
  - destruct (ensure_directory_stuck fs d exist_ok Hm) as (r & E & Hr).
    exists r. split; [exact E|]. now destruct (path_exists fs d).
  - unfold _ensure_directory. destruct (path_exists fs d) eqn:Hex; cbn [negb].
    + assert (is_dir fs d = false) as ->.
      { unfold is_dir, path_exists in *. destruct d; cbn [makeable] in Hm;
          [discriminate|]. now destruct (stat fs _) as [[]|]. }
      cbn [negb]. eauto.
    + eauto.
Qed.

Lemma ensure_directory_blocked_witness :
  let fs := disk_with_file "conflito" [] in
  let d := Child (Child (Child tmp "conflito") "sub") "fundo" in
  exists r,
    _ensure_directory d true true fs = (Raise (PathValidationError d r), fs)
    /\ (if path_exists fs d then r = ExistsButNotDirectory
        else if true then kind_of (PathValidationError d r) = DirectoryCreateFailed
        else r = DirectoryMissingNoCreate).
Proof.
  apply (ensure_directory_blocked (disk_with_file "conflito" [])
           (Child (Child (Child tmp "conflito") "sub") "fundo") true true).
  reflexivity.
Defined.

Lemma stat_raise_no_entry fs q n e :
  tree_shaped fs -> stat fs (Child q n) = Raise e -> fs !! Child q n = None.
Proof.
  intros Ht Hs. destruct (fs !! Child q n) as [nd|] eqn:E; [|reflexivity].
  pose proof (Ht _ _ E) as Hq. unfold is_dir in Hq. simpl in Hq, Hs.
  destruct (stat fs q) as [[]|]; try discriminate. now rewrite E in Hs.
Qed.

Lemma only_adds_refl d fs : only_adds_towards d fs fs.
Proof. split; [trivial | congruence]. Qed.

Lemma only_adds_insert fs q n :
  fs !! Child q n = None ->
  only_adds_towards (Child q n) fs (<[Child q n := Dir rw]> fs).
Proof.
  intros Hn. split.
  - intros x nd Hx. rewrite lookup_insert_ne; [exact Hx | congruence].
  - intros x nd Hx Hx'. destruct (decide (Child q n = x)) as [<-|Hne].
    + rewrite lookup_insert_eq in Hx'. injection Hx' as <-. split; [reflexivity|].
      cbn [ancestors]. left.
    + rewrite lookup_insert_ne in Hx' by exact Hne. congruence.
Qed.

Lemma only_adds_trans q n fs fs1 fs2 :
  only_adds_towards q fs fs1 -> only_adds_towards (Child q n) fs1 fs2 ->
  only_adds_towards (Child q n) fs fs2.
Proof.
  intros [H1 H2] [H3 H4]. split; [auto|].
  intros x nd Hx Hx'. destruct (fs1 !! x) as [nd1|] eqn:E1.
  - pose proof (H3 _ _ E1) as E2. rewrite E2 in Hx'. injection Hx' as <-.
    destruct (H2 _ _ Hx E1) as [-> Hin]. split; [reflexivity|].
    cbn [ancestors]. now right.
  - exact (H4 _ _ E1 Hx').
Qed.

Lemma os_mkdir_only_adds p fs r fs' :
  tree_shaped fs -> os_mkdir p fs = (r, fs') -> only_adds_towards p fs fs'.
Proof.
  intros Ht H. pose proof H as Hfr. apply os_mkdir_frame in Hfr as [->| ->];
    [apply only_adds_refl|].
  unfold os_mkdir in H. destruct (stat fs p) as [nd|e] eqn:Ep.
  - injection H as _ H. rewrite <- H. apply only_adds_refl.
  - destruct p as [|q n]; [discriminate|].
    apply only_adds_insert. eapply stat_raise_no_entry; eassumption.
Qed.

Lemma mkdir_single_only_adds b p fs r fs' :
  tree_shaped fs -> mkdir_single b p fs = (r, fs') -> only_adds_towards p fs fs'.
Proof.
  intros Ht. unfold mkdir_single, try_except.
  destruct (os_mkdir p fs) as [[[]|e] fs1] eqn:E;
    pose proof (os_mkdir_only_adds _ _ _ _ Ht E) as H1.
  - now intros [= _ <-].
  - intros H. assert (fs' = fs1) as ->; [|exact H1].
    destruct e; simpl in H;
      try (unfold raise in H; now injection H as _ <-);
      now apply mkdir_tolerate_frame in H.
Qed.

Lemma mkdir_parents_only_adds b p fs r fs' :
  tree_shaped fs -> mkdir_parents b p fs = (r, fs') -> only_adds_towards p fs fs'.
Proof.
  revert b fs r fs'. induction p as [|q IH n]; intros b fs r fs' Ht H.
  - simpl in H. unfold try_except, os_mkdir in H. simpl in H.
    apply mkdir_tolerate_frame in H. subst. apply only_adds_refl.
  - cbn [mkdir_parents] in H. unfold try_except in H.
    destruct (os_mkdir (Child q n) fs) as [[[]|e] fs1] eqn:E;
      pose proof (os_mkdir_only_adds _ _ _ _ Ht E) as H1;
      pose proof (os_mkdir_tree _ _ _ _ Ht E) as Ht1.
    + now injection H as _ <-.
    + destruct e; simpl in H;
        try (unfold raise in H; injection H as _ <-; exact H1);
        try (apply mkdir_tolerate_frame in H; subst; exact H1).
      assert (fs1 = fs) as ->.
      { unfold os_mkdir in E. destruct (stat fs (Child q n)) as [nd|e0];
          [now injection E|].
        destruct e0; try (now injection E);
          (destruct (stat fs (parent_of (Child q n))) as [[d0 pm|pm]|e1];
           [now injection E | destruct (w_ok pm); [discriminate | now injection E]
           | now injection E]). }
      unfold bind in H.
      destruct (mkdir_parents true q fs) as [[[]|e] fs2] eqn:E2;
        pose proof (IH _ _ _ _ Ht E2) as H2;
        pose proof (mkdir_parents_tree _ _ _ _ _ Ht E2) as Ht2.
      * eapply only_adds_trans; [exact H2|].
        eapply mkdir_single_only_adds; eassumption.
      * injection H as _ <-. destruct H2 as [H2a H2b]. split; [exact H2a|].
        intros x nd Hx Hx'. destruct (H2b _ _ Hx Hx') as [-> Hin].
        split; [reflexivity|]. cbn [ancestors]. now right.
Qed.

Lemma ensure_directory_adds d (a b : bool) fs r fs' :
  tree_shaped fs ->
  _ensure_directory d a b fs = (r, fs') -> only_adds_towards d fs fs'.
Proof.
  intros Ht. unfold _ensure_directory.
  destruct (path_exists fs d).
  - intros H. assert (fs' = fs) as ->; [|apply only_adds_refl].
    destruct (negb (is_dir fs d)); [now injection H as _ <-|].
    destruct (negb b); now injection H as _ <-.
  - destruct (negb a); [intros [= _ <-]; apply only_adds_refl|].
    unfold try_except, bind.
    destruct (mkdir_parents b d fs) as [[[]|e] fs1] eqn:E;
      pose proof (mkdir_parents_only_adds _ _ _ _ _ Ht E) as H1.
    + now intros [= _ <-].
    + intros H. assert (fs' = fs1) as ->; [|exact H1].
      destruct e; simpl in H; unfold raise in H; now injection H as _ <-.
Qed.

(** X12: on a tree, [_ensure_directory] only adds directories: every
    entry of the disk is kept as it was, and an entry that is new is a
    directory at the path asked for or above it; this holds when the call
    raises as well. *)
Theorem ensure_directory_only_adds d (a b : bool) fs r fs' :
  tree_shaped fs ->
  _ensure_directory d a b fs = (r, fs') ->
  (forall x nd, fs !! x = Some nd -> fs' !! x = Some nd)
  /\ (forall x nd, fs !! x = None -> fs' !! x = Some nd ->
        nd = Dir rw /\ x ∈ ancestors d).
Proof.
  intros Ht H. exact (ensure_directory_adds _ _ _ _ _ _ Ht H).
Qed.

Lemma ensure_directory_only_adds_witness :
  let d := Child (Child tmp "a") "b" in
  let fs' := <[d := Dir rw]> (<[Child tmp "a" := Dir rw]> disk_empty_tmp) in
  (forall x nd, disk_empty_tmp !! x = Some nd -> fs' !! x = Some nd)
  /\ (forall x nd, disk_empty_tmp !! x = None -> fs' !! x = Some nd ->
        nd = Dir rw /\ x ∈ ancestors d).
Proof.
  apply (ensure_directory_only_adds (Child (Child tmp "a") "b") true true
           disk_empty_tmp (Ok (Child (Child tmp "a") "b"))).
  - apply (bool_decide_eq_true_1 (tree_shaped disk_empty_tmp)). vm_compute. reflexivity.
  - reflexivity.
Defined.

End DirectoriesMore.

(** ** The three operations *)

Section OperationsMore.

Implicit Types (fs : filesystem) (p q x : path) (nd : node).

Lemma stat_ok_ensure fs p nd :
  stat fs p = Ok nd -> _ensure_directory (parent_of p) true true fs = (Ok (parent_of p), fs).
Proof.
  intros H. apply ensure_directory_existing. eapply stat_ok_parent; eassumption.
Qed.

Lemma sanitized_encodes c compact (s : pystr) enc :
  _sanitize_content c compact = Ok s ->
  exists data, encode enc s = Some data /\ decode enc data = Some s.
Proof.
  intros H. apply codec_ascii_roundtrip.
  eapply Forall_impl; [exact (sanitize_kept _ _ _ H)|]. apply keep_char_ascii.
Qed.

(** X13: what [create_file] does with [overwrite=True] on a path that is
    there, for a content that has a sanitized form.  On a directory it
    fails with the is-a-directory error; on a file that cannot be written
    it fails with the permission error; in both cases the disk is left as
    it was.  On a file that can be written the bytes are replaced by the
    encoded sanitized text, and nothing else of the disk changes. *)
Theorem create_file_on_existing fs p c (compact : bool) enc nd (s : pystr) :
  stat fs p = Ok nd ->
  _sanitize_content c compact = Ok s ->
  match nd with
  | Dir _ =>
      create_file p c true compact enc fs
      = (Raise (PathValidationError p CreateTargetIsDirectory), fs)
  | File _ pm =>
      if w_ok pm then
        exists data,
          encode enc s = Some data /\ decode enc data = Some s
          /\ create_file p c true compact enc fs = (Ok p, <[p := File data pm]> fs)
      else
        create_file p c true compact enc fs
        = (Raise (PathValidationError p CreatePermissionDenied), fs)
  end.
Proof.
  intros Hst Hs.
  assert (path_exists fs p = true) as Hex by (unfold path_exists; now rewrite Hst).
  unfold create_file, try_except, bind, reads, pure. rewrite Hex. cbn [andb negb].
  rewrite (stat_ok_ensure _ _ _ Hst), Hs. unfold write_text, bind, open_w. rewrite Hst.
  destruct nd as [old pm|pm]; [|reflexivity].
  destruct (w_ok pm); [|reflexivity].
  destruct (sanitized_encodes _ _ _ enc Hs) as (data & He & Hd).
  exists data. split; [exact He|]. split; [exact Hd|].
  rewrite He. unfold set_data. rewrite lookup_insert_eq.
  now rewrite insert_insert_eq.
Qed.

Lemma create_file_on_existing_witness :
  let fs := disk_with_file "fixo.txt" [Byte.x6f] in
  let p := Child tmp "fixo.txt" in
  exists data,
    encode Utf8 (cps "novo") = Some data /\ decode Utf8 data = Some (cps "novo")
    /\ create_file p (CStr (cps "novo")) true false Utf8 fs
       = (Ok p, <[p := File data rw]> fs).
Proof.
  apply (create_file_on_existing (disk_with_file "fixo.txt" [Byte.x6f])
           (Child tmp "fixo.txt") (CStr (cps "novo")) false Utf8
           (File [Byte.x6f] rw) (cps "novo")); reflexivity.
Defined.

(** X14: when the directory of the target is a regular file,
    [create_file] fails with the wrong-kind error of [_ensure_directory],
    raised for the directory and not for the target, whatever the content
    and the flags are; the disk is left as it was. *)
Theorem create_file_parent_is_file fs p c (overwrite compact : bool) enc data pm :
  stat fs (parent_of p) = Ok (File data pm) ->
  create_file p c overwrite compact enc fs
  = (Raise (PathValidationError (parent_of p) ExistsButNotDirectory), fs)
  /\ kind_of (PathValidationError (parent_of p) ExistsButNotDirectory) = WrongKind.
Proof.
  intros Hq. split; [|reflexivity].
  destruct p as [|q n]; [discriminate|]. cbn [parent_of] in *.
  assert (path_exists fs (Child q n) = false) as Hex
    by (unfold path_exists; simpl; now rewrite Hq).
  assert (_ensure_directory q true true fs
          = (Raise (PathValidationError q ExistsButNotDirectory), fs)) as Hen
    by (unfold _ensure_directory, path_exists, is_dir; now rewrite Hq).
  unfold create_file, try_except, bind, reads. cbn [parent_of].
  rewrite Hex. cbn [andb]. now rewrite Hen.
Qed.

Lemma create_file_parent_is_file_witness :
  let fs := disk_with_file "conflito" [] in
  let p := Child (Child tmp "conflito") "novo.txt" in
  create_file p (CStr (cps "x")) true false Utf8 fs
  = (Raise (PathValidationError (parent_of p) ExistsButNotDirectory), fs).
Proof.
  apply (create_file_parent_is_file (disk_with_file "conflito" [])
           (Child (Child tmp "conflito") "novo.txt") (CStr (cps "x")) true false Utf8
           [] rw).
  reflexivity.
Defined.

(** X15: a new file cannot be made in a directory the process cannot
    write in: the call fails with the permission error and the disk is
    left as it was. *)
Theorem create_file_parent_read_only fs q n c (overwrite compact : bool) enc pm (s : pystr) :
  stat fs q = Ok (Dir pm) -> w_ok pm = false ->
  fs !! Child q n = None ->
  _sanitize_content c compact = Ok s ->
  create_file (Child q n) c overwrite compact enc fs
  = (Raise (PathValidationError (Child q n) CreatePermissionDenied), fs).
Proof.
  intros Hq Hw Hn Hs.
  unfold create_file, try_except, bind, reads, pure.
  rewrite (no_entry_not_exists _ _ _ Hn). cbn [andb parent_of].
  rewrite ensure_directory_existing by (unfold is_dir; now rewrite Hq).
  rewrite Hs. unfold write_text, bind, open_w.
  rewrite (stat_child_dir _ _ _ _ Hq), Hn. cbn [parent_of]. now rewrite Hq, Hw.
Qed.

Lemma create_file_parent_read_only_witness :
  let fs : filesystem := <[tmp := Dir (Perms true false)]> ∅ in
  create_file (Child tmp "novo.txt") (CStr (cps "x")) true false Utf8 fs
  = (Raise (PathValidationError (Child tmp "novo.txt") CreatePermissionDenied), fs).
Proof.
  apply (create_file_parent_read_only (<[tmp := Dir (Perms true false)]> ∅)
           tmp "novo.txt" (CStr (cps "x")) true false Utf8 (Perms true false) (cps "x"));
    reflexivity.
Defined.

Lemma open_w_opened p fs fs' :
  open_w p fs = (Ok tt, fs') ->
  (exists pm, fs' !! p = Some (File [] pm))
  /\ (forall x, x <> p -> fs' !! x = fs !! x).
Proof.
  unfold open_w. destruct (stat fs p) as [[d pm|pm]|e]; [| discriminate |].
  - destruct (w_ok pm); [|discriminate]. intros [= <-]. split.
    + exists pm. apply lookup_insert_eq.
    + intros x Hx. now apply lookup_insert_ne.
  - destruct e; try discriminate;
      (destruct (stat fs (parent_of p)) as [[d pm|pm]|e']; try discriminate;
       destruct (w_ok pm); [|discriminate]; intros [= <-]; split;
       [exists rw; apply lookup_insert_eq
       | intros x Hx; now apply lookup_insert_ne]).
Qed.

Lemma write_text_others p (s : pystr) enc fs r fs' :
  write_text p s enc fs = (r, fs') -> forall x, x <> p -> fs' !! x = fs !! x.
Proof.
  unfold write_text, bind. destruct (open_w p fs) as [[[]|e] fs1] eqn:E.
  - apply open_w_opened in E as [_ Hfr]. intros H x Hx. rewrite <- (Hfr x Hx).
    destruct (encode enc s); [|now injection H as _ <-].
    unfold set_data in H. destruct (fs1 !! p) as [[d pm|pm]|];
      try (now injection H as _ <-).
    injection H as _ <-. now apply lookup_insert_ne.
  - apply open_w_raises in E as [_ ->]. now intros [= _ <-].
Qed.

Lemma write_text_encodable_raises (s : pystr) p enc fs e fs' :
  is_Some (encode enc s) ->
  write_text p s enc fs = (Raise e, fs') -> fs' = fs.
Proof.
  intros [data He]. unfold write_text, bind. rewrite He.
  destruct (open_w p fs) as [[[]|e0] fs1] eqn:E.
  - apply open_w_opened in E as [[pm Hp] _]. unfold set_data. now rewrite Hp.
  - apply open_w_raises in E as [_ ->]. now intros [= _ <-].
Qed.

(** X16: on a tree, with an encoding that can encode the sanitized text,
    a call of [create_file] that raises leaves the target as it was: no
    entry is made at the path and the entry that is there is not touched,
    so no file is left empty or half written.  The encodings of the model
    (utf-8, ascii, latin-1) can always encode the text, which is ASCII. *)
Theorem create_file_failure_keeps_target fs p c (overwrite compact : bool) enc e fs' :
  tree_shaped fs ->
  (forall s : pystr, _sanitize_content c compact = Ok s -> is_Some (encode enc s)) ->
  create_file p c overwrite compact enc fs = (Raise e, fs') ->
  fs' !! p = fs !! p /\ path_exists fs' p = path_exists fs p.
Proof.
  intros Ht Henc. unfold create_file, try_except, bind, reads, pure.
  destruct (path_exists fs p && negb overwrite).
  { simpl. now intros [= _ <-]. }
  destruct (_ensure_directory (parent_of p) true true fs) as [[d|e1] fs1] eqn:En.
  - pose proof (ensure_directory_target _ _ _ _ _ _ Ht En) as Htarget.
    destruct (_sanitize_content c compact) as [s|e2] eqn:Es.
    + destruct (write_text p s enc fs1) as [[[]|e3] fs2] eqn:Ew; [discriminate|].
      apply (write_text_encodable_raises _ _ _ _ _ _ (Henc s eq_refl)) in Ew. subst fs2.
      intros H. assert (fs' = fs1) as ->; [|exact Htarget].
      destruct e3; simpl in H; unfold raise in H; now injection H as _ <-.
    + intros H. assert (fs' = fs1) as ->; [|exact Htarget].
      destruct e2; simpl in H; unfold raise in H; now injection H as _ <-.
  - pose proof (ensure_directory_target _ _ _ _ _ _ Ht En) as Htarget.
    intros H. assert (fs' = fs1) as ->; [|exact Htarget].
    destruct e1; simpl in H; unfold raise in H; now injection H as _ <-.
Qed.

Lemma create_file_failure_keeps_target_witness :
  let fs : filesystem :=
    <[Child tmp "ro.txt" := File [Byte.x6f] (Perms true false)]> disk_empty_tmp in
  let p := Child tmp "ro.txt" in
  fs !! p = fs !! p /\ path_exists fs p = path_exists fs p.
Proof.
  apply (create_file_failure_keeps_target
           (<[Child tmp "ro.txt" := File [Byte.x6f] (Perms true false)]> disk_empty_tmp)
           (Child tmp "ro.txt") (CStr (cps "novo")) true false Utf8
           (PathValidationError (Child tmp "ro.txt") CreatePermissionDenied)).
  - apply (bool_decide_eq_true_1 (tree_shaped _)). vm_compute. reflexivity.
  - intros s Hs. destruct (sanitized_encodes _ _ _ Utf8 Hs) as (data & He & _).
    now exists data.
  - reflexivity.
Defined.

(** X17: on a tree, [create_file] touches nothing but the target and the
    missing directories above it: every other entry of the disk is kept,
    and an entry that is new and is not the target is a directory above
    the target.  This holds when the call raises as well. *)
Theorem create_file_frame fs p c (overwrite compact : bool) enc r fs' :
  tree_shaped fs ->
  create_file p c overwrite compact enc fs = (r, fs') ->
  (forall x nd, x <> p -> fs !! x = Some nd -> fs' !! x = Some nd)
  /\ (forall x nd, x <> p -> fs !! x = None -> fs' !! x = Some nd ->
        nd = Dir rw /\ x ∈ ancestors (parent_of p)).
Proof.
  intros Ht Hrun.
  assert (exists fs1, only_adds_towards (parent_of p) fs fs1
                      /\ forall x, x <> p -> fs' !! x = fs1 !! x) as (fs1 & [Ha Hb] & Hw).
  { unfold create_file, try_except, bind, reads, pure in Hrun.
    destruct (path_exists fs p && negb overwrite).
    { simpl in Hrun. injection Hrun as _ <-. exists fs.
      split; [apply only_adds_refl | trivial]. }
    destruct (_ensure_directory (parent_of p) true true fs) as [[d|e1] fs1] eqn:En;
      pose proof (ensure_directory_adds _ _ _ _ _ _ Ht En) as Hadd;
      exists fs1; (split; [exact Hadd|]).
    - destruct (_sanitize_content c compact) as [s|e2].
      + destruct (write_text p s enc fs1) as [[[]|e3] fs2] eqn:Ew;
          pose proof (write_text_others _ _ _ _ _ _ Ew) as Hothers.
        * now injection Hrun as _ <-.
        * assert (fs' = fs2) as ->; [|exact Hothers].
          destruct e3; simpl in Hrun; unfold raise in Hrun; now injection Hrun as _ <-.
      + assert (fs' = fs1) as ->; [|trivial].
        destruct e2; simpl in Hrun; unfold raise in Hrun; now injection Hrun as _ <-.
    - assert (fs' = fs1) as ->; [|trivial].
      destruct e1; simpl in Hrun; unfold raise in Hrun; now injection Hrun as _ <-. }
  split.
  - intros x nd Hx Hl. rewrite (Hw x Hx). now apply Ha.
  - intros x nd Hx Hl Hl'. rewrite (Hw x Hx) in Hl'. now apply (Hb x nd).
Qed.

Lemma create_file_frame_witness :
  let fs := disk_with_file "outro.txt" [Byte.x6f] in
  let p := Child (Child tmp "novo") "arquivo.txt" in
  let fs' := snd (create_file p (CStr (cps "x")) true false Utf8 fs) in
  (forall x nd, x <> p -> fs !! x = Some nd -> fs' !! x = Some nd)
  /\ (forall x nd, x <> p -> fs !! x = None -> fs' !! x = Some nd ->
        nd = Dir rw /\ x ∈ ancestors (parent_of p)).
Proof.
  apply (create_file_frame (disk_with_file "outro.txt" [Byte.x6f])
           (Child (Child tmp "novo") "arquivo.txt") (CStr (cps "x")) true false Utf8
           (Ok (Child (Child tmp "novo") "arquivo.txt"))).
  - apply (bool_decide_eq_true_1 (tree_shaped _)). vm_compute. reflexivity.
  - reflexivity.
Defined.

(** *** Reading and deleting *)

Lemma replace_cr_no_cr (s : pystr) : Forall (fun c => c <> CR) (replace [CR] [LF] s).
Proof.
  unfold replace. induction s as [|c t IH]; [constructor|].
  cbn [replace_from starts_with].
  destruct (CR =? c) eqn:E; cbn [andb length Nat.pred app].
  - constructor; [discriminate | exact IH].
  - constructor; [|exact IH]. intros ->. now rewrite N.eqb_refl in E.
Qed.

(** The ways a call of [read_file] ends on the disks of the model. *)
Lemma read_file_cases fs p (as_bytes : bool) enc :
  exists r,
    read_file p as_bytes enc fs = (r, fs)
    /\ match r with
       | Ok (Bytes b) =>
           as_bytes = true
           /\ exists pm, stat fs p = Ok (File b pm) /\ r_ok pm = true
       | Ok (Text s) =>
           as_bytes = false
           /\ exists data pm t,
                stat fs p = Ok (File data pm) /\ r_ok pm = true
                /\ decode enc data = Some t /\ s = normalize_newlines t
       | Raise (PathValidationError q PathDoesNotExist) =>
           q = p /\ path_exists fs p = false
       | Raise (PathValidationError q ExpectedFile) =>
           q = p /\ is_dir fs p = true
       | Raise (PathValidationError q NotReadablePath) =>
           q = p /\ is_file fs p = true /\ access_r fs p = false
       | Raise (TypeError WrongArgumentCount) =>
           as_bytes = false
           /\ exists data pm,
                stat fs p = Ok (File data pm) /\ r_ok pm = true
                /\ decode enc data = None
       | Raise _ => False
       end.
Proof.
  unfold read_file, try_except, bind, reads, _validate_path, read_text, read_bytes, bind.
  unfold path_exists, is_file, is_dir, access_r.
  destruct (stat fs p) as [[data pm|pm]|e] eqn:Es; cbn.
  - destruct (r_ok pm) eqn:Hr; cbn.
    + destruct as_bytes; cbn; rewrite Es, Hr; cbn.
      * eexists. split; [reflexivity|]. split; [reflexivity|]. now exists pm.
      * destruct (decode enc data) as [t|] eqn:Ed; cbn.
        -- eexists. split; [reflexivity|]. split; [reflexivity|].
           now exists data, pm, t.
        -- eexists. split; [reflexivity|]. split; [reflexivity|].
           now exists data, pm.
    + eexists. split; [reflexivity|]. now cbn.
  - eexists. split; [reflexivity|]. now cbn.
  - eexists. split; [reflexivity|]. now cbn.
Qed.

(** X18: [read_file] never changes the disk.  What it returns is the
    stored bytes of a regular file that can be read, or their decoded
    text with the line endings translated.  What it raises is a
    [PathValidationError], a [TypeError] or a [FileNotFoundError]: the
    [PermissionError] and the [UnicodeDecodeError] of its docstring never
    leave it, the first being turned into a [PathValidationError] and the
    second into the [TypeError] of its own construction. *)
Theorem read_file_results fs p (as_bytes : bool) enc r fs' :
  read_file p as_bytes enc fs = (r, fs') ->
  fs' = fs
  /\ match r with
     | Ok (Bytes b) =>
         as_bytes = true
         /\ exists pm, stat fs p = Ok (File b pm) /\ r_ok pm = true
     | Ok (Text s) =>
         as_bytes = false
         /\ exists data pm t,
              stat fs p = Ok (File data pm) /\ r_ok pm = true
              /\ decode enc data = Some t /\ s = normalize_newlines t
     | Raise e =>
         ((exists q rs, e = PathValidationError q rs)
          \/ (exists t, e = TypeError t) \/ e = FileNotFoundError)
         /\ e <> PermissionError /\ e <> UnicodeDecodeError
     end.
Proof.
  intros H. destruct (read_file_cases fs p as_bytes enc) as (r0 & E & Hr).
  rewrite E in H. injection H as <- <-. split; [reflexivity|].
  destruct r0 as [[b|s]|e]; [exact Hr | exact Hr |].
  destruct e as [t| | | | | | | | |q rs]; try contradiction.
  - split; [right; left; eauto | split; discriminate].
  - split; [left; eauto | split; discriminate].
Qed.

Lemma read_file_results_witness :
  let fs := disk_with_file "binario.bin" [Byte.xff] in
  fs = fs
  /\ ((exists q rs, TypeError WrongArgumentCount = PathValidationError q rs)
       \/ (exists t, TypeError WrongArgumentCount = TypeError t)
       \/ TypeError WrongArgumentCount = FileNotFoundError)
      /\ TypeError WrongArgumentCount <> PermissionError
      /\ TypeError WrongArgumentCount <> UnicodeDecodeError.
Proof.
  apply (read_file_results (disk_with_file "binario.bin" [Byte.xff])
           (Child tmp "binario.bin") false Utf8
           (Raise (TypeError WrongArgumentCount))).
  reflexivity.
Defined.

(** X19: a text that [read_file] returns holds no carriage return: the
    file is read in text mode, where [\r\n] and a lone [\r] both come back
    as a line feed.  The bytes of such a file are only had with
    [as_bytes=True]. *)
Theorem read_file_text_no_cr fs p enc (s : pystr) fs' :
  read_file p false enc fs = (Ok (Text s), fs') ->
  Forall (fun c => c <> CR) s.
Proof.
  unfold read_file, try_except, bind, reads, read_text, read_bytes, bind.
  destruct (_validate_path fs p true (Some true) true false true) as [q|e].
  - destruct (stat fs q) as [[d pm|pm]|e]; [destruct (r_ok pm)| |]; simpl;
      try discriminate; try (destruct e; simpl; discriminate).
    destruct (decode enc d) as [t|]; simpl; [|discriminate].
    intros [= <- _]. apply replace_cr_no_cr.
  - destruct e; simpl; discriminate.
Qed.

Lemma read_file_text_no_cr_witness :
  let fs := disk_with_file "dos.txt" [Byte.x61; Byte.x0d; Byte.x0a; Byte.x62; Byte.x0d] in
  read_file (Child tmp "dos.txt") false Utf8 fs = (Ok (Text (cps "a" ++ [LF] ++ cps "b" ++ [LF])), fs)
  /\ Forall (fun c => c <> CR) (cps "a" ++ [LF] ++ cps "b" ++ [LF]).
Proof.
  split; [reflexivity|].
  apply (read_file_text_no_cr
           (disk_with_file "dos.txt" [Byte.x61; Byte.x0d; Byte.x0a; Byte.x62; Byte.x0d])
           (Child tmp "dos.txt") Utf8 _
           (disk_with_file "dos.txt" [Byte.x61; Byte.x0d; Byte.x0a; Byte.x62; Byte.x0d])).
  reflexivity.
Defined.

(** The three operations on the outcome of [os.stat]. *)
Lemma delete_file_cases fs p (ignore_missing : bool) :
  delete_file p ignore_missing fs =
    match stat fs p with
    | Raise _ => (Raise (PathValidationError p PathDoesNotExist), fs)
    | Ok (Dir _) => (Raise (PathValidationError p ExpectedFile), fs)
    | Ok (File _ _) =>
        if access_w fs (parent_of p) then (Ok true, delete p fs)
        else (Raise (PathValidationError p DeletePermissionDenied), fs)
    end.
Proof.
  unfold delete_file, try_except, bind, reads, _validate_path, unlink.
  unfold path_exists, is_file.
  destruct (stat fs p) as [[data pm|pm]|e] eqn:Es; cbn; try reflexivity.
  rewrite Es. now destruct (access_w fs (parent_of p)).
Qed.

(** X20: [delete_file] returns nothing but [True], and only for a regular
    file in a directory that can be written in.  The entry of the file is
    then removed and the rest of the disk kept; the path is gone, and a
    second call fails with the not-found error of the validation, whatever
    [ignore_missing] is. *)
Theorem delete_file_success fs p (ignore_missing again v : bool) fs' :
  delete_file p ignore_missing fs = (Ok v, fs') ->
  v = true
  /\ is_file fs p = true /\ access_w fs (parent_of p) = true
  /\ fs' = delete p fs
  /\ path_exists fs' p = false
  /\ delete_file p again fs' = (Raise (PathValidationError p PathDoesNotExist), fs').
Proof.
  rewrite delete_file_cases. unfold is_file.
  destruct (stat fs p) as [[data pm|pm]|e] eqn:Es; try discriminate.
  destruct (access_w fs (parent_of p)); [|discriminate].
  intros [= <- <-].
  assert (path_exists (delete p fs) p = false) as Hgone.
  { destruct p as [|q n]; [discriminate|].
    apply no_entry_not_exists, lookup_delete_eq. }
  repeat (split; [reflexivity|]). split; [exact Hgone|].
  rewrite delete_file_cases. unfold path_exists in Hgone.
  now destruct (stat (delete p fs) p).
Qed.

Lemma delete_file_success_witness :
  let fs := disk_with_file "velho.txt" [Byte.x6f] in
  let p := Child tmp "velho.txt" in
  delete_file p false fs = (Ok true, disk_empty_tmp)
  /\ delete_file p true disk_empty_tmp
     = (Raise (PathValidationError p PathDoesNotExist), disk_empty_tmp).
Proof.
  split; [reflexivity|].
  apply (delete_file_success (disk_with_file "velho.txt" [Byte.x6f])
           (Child tmp "velho.txt") false true true disk_empty_tmp).
  reflexivity.
Defined.

(** X21: a call of [delete_file] that raises leaves the disk as it was,
    and what it raises is a [PathValidationError] for the path.  So a
    regular file in a directory the process cannot write in is not
    removed, and the [PermissionError] of the removal comes out as the
    permission error of the library, whatever [ignore_missing] is. *)
Theorem delete_file_failure fs p (ignore_missing : bool) :
  (forall e fs', delete_file p ignore_missing fs = (Raise e, fs') ->
     fs' = fs /\ exists r, e = PathValidationError p r)
  /\ (is_file fs p = true -> access_w fs (parent_of p) = false ->
      delete_file p ignore_missing fs
      = (Raise (PathValidationError p DeletePermissionDenied), fs)
      /\ kind_of (PathValidationError p DeletePermissionDenied) = NotWritable).
Proof.
  split.
  - intros e fs'. rewrite delete_file_cases.
    destruct (stat fs p) as [[data pm|pm]|e0] eqn:Es.
    + destruct (access_w fs (parent_of p)); [discriminate|].
      intros [= <- <-]. eauto.
    + intros [= <- <-]. eauto.
    + intros [= <- <-]. eauto.
  - intros Hf Hw. split; [|reflexivity]. rewrite delete_file_cases.
    unfold is_file in Hf. destruct (stat fs p) as [[data pm|pm]|e0]; try discriminate.
    now rewrite Hw.
Qed.

Lemma delete_file_failure_witness :
  let fs := <[Child tmp "fixo.txt" := File [Byte.x6f] rw]> (<[tmp := Dir (Perms true false)]> ∅) in
  let p := Child tmp "fixo.txt" in
  delete_file p false fs = (Raise (PathValidationError p DeletePermissionDenied), fs)
  /\ kind_of (PathValidationError p DeletePermissionDenied) = NotWritable.
Proof.
  apply (delete_file_failure
           (<[Child tmp "fixo.txt" := File [Byte.x6f] rw]> (<[tmp := Dir (Perms true false)]> ∅))
           (Child tmp "fixo.txt") false); reflexivity.
Defined.

(** *** Writing, then reading or deleting *)

Lemma write_text_ok_inv p (s : pystr) enc fs fs' :
  write_text p s enc fs = (Ok tt, fs') ->
  exists data pm,
    encode enc s = Some data /\ fs' = <[p := File data pm]> fs
    /\ stat fs' p = Ok (File data pm)
    /\ ((exists old, stat fs p = Ok (File old pm))
        \/ (path_exists fs p = false /\ fs !! p = None /\ pm = rw
            /\ exists pmq, stat fs (parent_of p) = Ok (Dir pmq) /\ w_ok pmq = true)).
Proof.
  unfold write_text, bind, open_w, path_exists.
  destruct (stat fs p) as [[old pm|pm]|e] eqn:Es; [| discriminate |].
  - destruct (w_ok pm); [|discriminate].
    destruct (encode enc s) as [data|]; [|discriminate].
    unfold set_data. rewrite lookup_insert_eq. intros [= <-].
    exists data, pm. rewrite insert_insert_eq.
    split; [reflexivity|]. split; [reflexivity|]. split; [|left; now exists old].
    destruct p as [|q n]; [discriminate|].
    destruct (stat_child_ok _ _ _ _ Es) as [[pmq Hq] _].
    now apply (stat_insert_child _ _ _ _ pmq).
  - destruct p as [|q n]; [discriminate|]. cbn [parent_of].
    destruct (stat_raise_cases _ _ _ Es) as [-> | ->]; [|discriminate].
    destruct (stat fs q) as [[d pmq|pmq]|e'] eqn:Eq; try discriminate.
    destruct (w_ok pmq) eqn:Hw; [|discriminate].
    destruct (encode enc s) as [data|]; [|discriminate].
    unfold set_data. rewrite lookup_insert_eq. intros [= <-].
    exists data, rw. rewrite insert_insert_eq.
    split; [reflexivity|]. split; [reflexivity|].
    split; [now apply (stat_insert_child _ _ _ _ pmq)|].
    right. split; [reflexivity|]. split; [|split; [reflexivity | now exists pmq]].
    simpl in Es. rewrite Eq in Es. now destruct (fs !! Child q n).
Qed.

Lemma create_file_ok_inv fs p c (overwrite compact : bool) enc q fs' :
  create_file p c overwrite compact enc fs = (Ok q, fs') ->
  q = p
  /\ exists d fs1 (s : pystr),
       _ensure_directory (parent_of p) true true fs = (Ok d, fs1)
       /\ _sanitize_content c compact = Ok s
       /\ write_text p s enc fs1 = (Ok tt, fs').
Proof.
  unfold create_file, try_except, bind, reads, pure.
  destruct (path_exists fs p && negb overwrite); [discriminate|].
  destruct (_ensure_directory (parent_of p) true true fs) as [[d|e1] fs1] eqn:En;
    [|destruct e1; simpl; discriminate].
  destruct (_sanitize_content c compact) as [s|e2]; [|destruct e2; simpl; discriminate].
  destruct (write_text p s enc fs1) as [[[]|e3] fs2] eqn:Ew;
    [|destruct e3; simpl; discriminate].
  intros [= <- <-]. split; [reflexivity|]. now exists d, fs1, s.
Qed.

(** X22: a regular file that a call of [create_file] has made or
    overwritten reads back, with the same encoding, as the sanitized
    content; when the file cannot be read, the validation of [read_file]
    says so.  The encodings are those of the model (utf-8, ascii,
    latin-1), which decode what they encoded.  The premise on the target
    leaves out what is there and is neither a regular file nor a
    directory, which the disk of the model does not hold. *)
Theorem create_file_reads_back fs p c (overwrite compact : bool) enc q fs' :
  path_exists fs p = false \/ is_file fs p = true ->
  create_file p c overwrite compact enc fs = (Ok q, fs') ->
  exists s : pystr,
    _sanitize_content c compact = Ok s
    /\ read_file p false enc fs'
       = (if access_r fs' p then Ok (Text s)
          else Raise (PathValidationError p NotReadablePath), fs').
Proof.
  intros _ Hrun. apply create_file_ok_inv in Hrun as (_ & d & fs1 & s & En & Hs & Hw).
  exists s. split; [exact Hs|].
  destruct (write_text_ok_inv _ _ _ _ _ Hw) as (data & pm & He & -> & Hst & Hcase).
  destruct (sanitized_encodes _ _ _ enc Hs) as (data' & He' & Hd).
  assert (data' = data) as -> by congruence.
  assert (access_r (<[p := File data pm]> fs1) p = r_ok pm) as Hacc
    by (unfold access_r; now rewrite Hst).
  rewrite Hacc. destruct (r_ok pm) eqn:Hr.
  - apply (read_file_text _ _ data pm); try assumption.
    eapply Forall_impl; [exact (sanitize_kept _ _ _ Hs)|]. apply keep_char_not_cr.
  - unfold read_file, try_except, bind, reads, _validate_path.
    unfold path_exists, is_file, access_r. rewrite Hst. cbn. now rewrite Hr.
Qed.

Lemma create_file_reads_back_witness :
  let fs := disk_empty_tmp in
  let p := Child (Child tmp "notas") "hoje.txt" in
  let fs' := snd (create_file p (CStr (cps "a  b")) false true Utf8 fs) in
  exists s : pystr,
    _sanitize_content (CStr (cps "a  b")) true = Ok s
    /\ read_file p false Utf8 fs'
       = (if access_r fs' p then Ok (Text s)
          else Raise (PathValidationError p NotReadablePath), fs').
Proof.
  apply (create_file_reads_back disk_empty_tmp (Child (Child tmp "notas") "hoje.txt")
           (CStr (cps "a  b")) false true Utf8 (Child (Child tmp "notas") "hoje.txt")).
  - left. reflexivity.
  - reflexivity.
Defined.

(** X23: making a file at a path where nothing was and deleting it again
    gives back the disk as [_ensure_directory] left it for the directory of
    the file: the deletion succeeds, and the only trace of the two calls is
    the directories that were made on the way.  When the directory was
    there already, the disk is the one before the two calls. *)
Theorem create_then_delete fs p c (overwrite compact ignore_missing : bool) enc q fs1 :
  tree_shaped fs -> path_exists fs p = false ->
  create_file p c overwrite compact enc fs = (Ok q, fs1) ->
  delete_file p ignore_missing fs1
  = (Ok true, snd (_ensure_directory (parent_of p) true true fs))
  /\ (is_dir fs (parent_of p) = true -> delete_file p ignore_missing fs1 = (Ok true, fs)).
Proof.
  intros Ht Hex Hrun.
  apply create_file_ok_inv in Hrun as (_ & d & fsd & s & En & Hs & Hw).
  destruct (ensure_directory_target fs p true true _ _ Ht En) as [_ Hex1].
  rewrite Hex in Hex1.
  destruct (write_text_ok_inv _ _ _ _ _ Hw) as (data & pm & He & -> & Hst & Hcase).
  destruct Hcase as [[old Hold] | (_ & Hnone & -> & pmq & Hq & Hwq)];
    [unfold path_exists in Hex1; now rewrite Hold in Hex1|].
  assert (delete_file p ignore_missing (<[p := File data rw]> fsd) = (Ok true, fsd)) as Hdel.
  { rewrite delete_file_existing.
    - now rewrite delete_insert_id.
    - unfold is_file. now rewrite Hst.
    - destruct p as [|q0 n]; [discriminate|]. cbn [parent_of] in *.
      unfold access_w. rewrite stat_insert_deeper by (simpl; lia).
      now rewrite Hq. }
  rewrite En. split; [exact Hdel|].
  intros Hd. rewrite (ensure_directory_existing _ _ Hd) in En.
  injection En as _ <-. exact Hdel.
Qed.

Lemma create_then_delete_witness :
  let fs := disk_empty_tmp in
  let p := Child (Child tmp "notas") "hoje.txt" in
  let fs1 := snd (create_file p (CStr (cps "x")) false false Utf8 fs) in
  delete_file p false fs1
  = (Ok true, snd (_ensure_directory (parent_of p) true true fs))
  /\ (is_dir fs (parent_of p) = true -> delete_file p false fs1 = (Ok true, fs)).
Proof.
  apply (create_then_delete disk_empty_tmp (Child (Child tmp "notas") "hoje.txt")
           (CStr (cps "x")) false false false Utf8 (Child (Child tmp "notas") "hoje.txt")).
  - apply (bool_decide_eq_true_1 (tree_shaped _)). vm_compute. reflexivity.
  - reflexivity.
  - reflexivity.
Defined.

End OperationsMore.

(** ** JSON with the default indentation *)

Section JsonIndented.

Lemma join_Forall (P : N -> Prop) (sep : pystr) (chunks : list pystr) :
  Forall P sep -> Forall (Forall P) chunks -> Forall P (join sep chunks).
Proof.
  intros Hsep. induction 1 as [|c chunks Hc Hrest IH]; [constructor|].
  destruct chunks as [|c' chunks]; [exact Hc|].
  rewrite join_cons2. apply Forall_app. split; [exact Hc|].
  apply Forall_app. now split.
Qed.

Lemma newline_indent_kept (indent : option nat) (level : nat) :
  Forall (fun c => keep_char c = true) (newline_indent indent level).
Proof.
  destruct indent as [w|]; cbn [newline_indent]; [|constructor].
  constructor; [reflexivity|].
  induction (w * level)%nat; cbn [repeat]; constructor; [reflexivity | assumption].
Qed.

Lemma item_separator_kept (indent : option nat) :
  Forall (fun c => keep_char c = true) (item_separator indent).
Proof. destruct indent; now repeat constructor. Qed.

Lemma printable_kept (s : pystr) :
  Forall (fun x => printable x = true) s -> Forall (fun c => keep_char c = true) s.
Proof. intros H. eapply Forall_impl; [exact H|]. intros c Hc. now apply printable_keep. Qed.

Lemma basestring_kept (s : pystr) :
  ascii_str s = true -> Forall (fun c => keep_char c = true) (encode_basestring s).
Proof.
  intros H. unfold encode_basestring. constructor; [reflexivity|].
  apply Forall_app. split; [|now repeat constructor].
  apply printable_kept. now apply body_printable.
Qed.

(** Nothing of what is written for such a value is deleted by the filter
    of line 40. *)
Lemma encode_json_kept (indent : option nat) (v : json) :
  forall (level : nat) (out : pystr),
    ascii_json v = true -> encode_json indent level v = Some out ->
    Forall (fun c => keep_char c = true) out.
Proof.
  induction v as [|b|n|r|s|items IH|items IH|] using json_ind';
    intros level out Hplain Henc.
  - injection Henc as <-. now repeat constructor.
  - destruct b; injection Henc as <-; now repeat constructor.
  - cbn [encode_json ascii_json] in *. unfold int_to_str in Henc. rewrite Hplain in Henc.
    injection Henc as <-. apply printable_kept, int_tight.
  - injection Henc as <-. now apply printable_kept, float_tight.
  - injection Henc as <-. now apply basestring_kept.
  - destruct items as [|x items]; [injection Henc as <-; now repeat constructor|].
    cbn [encode_json] in Henc.
    destruct (mapM (encode_json indent (S level)) (x :: items)) as [chunks|] eqn:Em;
      [|discriminate].
    cbn [mbind option_bind] in Henc. injection Henc as <-. apply mapM_Some_1 in Em.
    cbn [ascii_json] in Hplain.
    assert (Forall (Forall (fun c => keep_char c = true)) chunks) as Hall.
    { revert IH Hplain. induction Em as [|y c l chunks' Hy _ IHl]; intros IH Hplain;
        [constructor|].
      apply Forall_cons in IH as [IHy IH]. cbn [forallb] in Hplain.
      apply andb_prop in Hplain as [Hpy Hplain].
      constructor; [eapply IHy; eassumption | auto]. }
    constructor; [reflexivity|].
    apply Forall_app. split; [apply newline_indent_kept|].
    apply Forall_app. split.
    + apply join_Forall; [|exact Hall].
      apply Forall_app. split; [apply item_separator_kept | apply newline_indent_kept].
    + apply Forall_app. split; [apply newline_indent_kept | now repeat constructor].
  - destruct items as [|kv items]; [injection Henc as <-; now repeat constructor|].
    cbn [encode_json] in Henc.
    destruct (mapM _ (kv :: items)) as [chunks|] eqn:Em; [|discriminate].
    cbn [mbind option_bind] in Henc. injection Henc as <-. apply mapM_Some_1 in Em.
    cbn [ascii_json] in Hplain. apply andb_prop in Hplain as [Hplain _].
    assert (Forall (Forall (fun c => keep_char c = true)) chunks) as Hall.
    { revert IH Hplain. induction Em as [|y c l chunks' Hy _ IHl]; intros IH Hplain;
        [constructor|].
      apply Forall_cons in IH as [IHy IH]. cbn [forallb] in Hplain.
      apply andb_prop in Hplain as [Hpy Hplain].
      apply andb_prop in Hpy as [Hk Hv].
      constructor; [|auto].
      apply fmap_Some in Hy as (vc & Hvc & ->).
      apply Forall_app. split; [now apply basestring_kept|].
      apply Forall_app. split; [now repeat constructor | eapply IHy; eassumption]. }
    constructor; [reflexivity|].
    apply Forall_app. split; [apply newline_indent_kept|].
    apply Forall_app. split.
    + apply join_Forall; [|exact Hall].
      apply Forall_app. split; [apply item_separator_kept | apply newline_indent_kept].
    + apply Forall_app. split; [apply newline_indent_kept | now repeat constructor].
  - discriminate.
Qed.

(** What is written for a dict or a list stands between its brackets. *)
Lemma container_form (indent : option nat) (c : content) (v : json) (out : pystr) :
  content_json c = Some v -> encode_json indent 0 v = Some out ->
  exists a m z, out = a :: m ++ [z] /\ is_space a = false /\ is_space z = false.
Proof.
  destruct c as [items|items| | | | | | |]; try discriminate; intros [= <-].
  - destruct items as [|x items]; cbn [encode_json].
    + intros [= <-]. now exists 0x7B, [], 0x7D.
    + destruct (mapM _ (x :: items)) as [chunks|]; [|discriminate].
      cbn [mbind option_bind]. intros [= <-].
      eexists 0x7B, _, 0x7D. split; [|split; reflexivity].
      rewrite !app_assoc. reflexivity.
  - destruct items as [|x items]; cbn [encode_json].
    + intros [= <-]. now exists 0x5B, [], 0x5D.
    + destruct (mapM _ (x :: items)) as [chunks|]; [|discriminate].
      cbn [mbind option_bind]. intros [= <-].
      eexists 0x5B, _, 0x5D. split; [|split; reflexivity].
      rewrite !app_assoc. reflexivity.
Qed.

(** With [compact=False] a dict or a list of such values goes through the
    sanitizer as [json.dumps] writes it with [indent=2]. *)
Lemma sanitize_indented (c : content) (v : json) :
  content_json c = Some v -> ascii_json v = true ->
  exists out, dumps (Some 2%nat) v = Some out
              /\ _sanitize_content c false = Ok out
              /\ loads out = Some v.
Proof.
  intros Hc Hplain. destruct (encode_json_ascii (Some 2%nat) _ 0%nat Hplain) as [out Henc].
  exists out. split; [exact Henc|]. split; [|now apply (loads_dumps_any (Some 2%nat))].
  pose proof (encode_json_kept _ _ _ _ Hplain Henc) as Hk.
  destruct (container_form _ _ _ _ Hc Henc) as (a & m & z & Em & Ha & Hz).
  assert (content_to_str c false = Ok out) as Hstr.
  { unfold content_to_str, dumps.
    destruct c; try discriminate; injection Hc as <-; cbn [negb]; now rewrite Henc. }
  unfold _sanitize_content. rewrite Hstr, clean_plain_eq, (strip_control_id _ Hk).
  rewrite Em at 1. rewrite (strip_bracketed a z m Ha Hz). reflexivity.
Qed.

(** X24: with the default [compact=False], a dict or a list built from
    [None], booleans, integers of at most 4300 digits, floats other than
    NaN, strings, lists and dicts with string keys, whose strings hold only
    characters up to U+007E, and that is nested no deeper than
    [safe_nesting], is written as [json.dumps] prints it with [indent=2]:
    the sanitizer changes nothing of that text, runs of spaces inside the
    strings included.  On a path that is free and where a file can be
    made, [read_file] gives the text back and [json.loads] reads it as the
    value. *)
Theorem create_file_json_default_roundtrip (fs : filesystem) (p : path)
    (c : content) (v : json) (overwrite : bool) enc :
  tree_shaped fs ->
  path_exists fs p = false -> creatable fs p = true ->
  content_json c = Some v -> ascii_json v = true ->
  (json_depth v <= safe_nesting)%nat ->
  exists fs' text,
    dumps (Some 2%nat) v = Some text
    /\ _sanitize_content c false = Ok text
    /\ create_file p c overwrite false enc fs = (Ok p, fs')
    /\ read_file p false enc fs' = (Ok (Text text), fs')
    /\ loads text = Some v.
Proof.
  intros Ht Hex Hcr Hc Hplain _.
  destruct (sanitize_indented c v Hc Hplain) as (out & Hd & Hs & Hl).
  destruct (create_file_fresh fs p c overwrite false enc out Ht Hex Hcr Hs)
    as (fs' & data & Hrun & _ & _ & Hread).
  now exists fs', out.
Qed.

Lemma create_file_json_default_roundtrip_witness :
  let v := JDict [(cps "nome", JStr (cps "Ana  Lima"));
                  (cps "notas", JList [JInt 7; JFloat (cps "-2.5"); JNull]);
                  (cps "extra", JDict [])] in
  let c := CDict [(cps "nome", JStr (cps "Ana  Lima"));
                  (cps "notas", JList [JInt 7; JFloat (cps "-2.5"); JNull]);
                  (cps "extra", JDict [])] in
  let p := Child (Child tmp "dados") "ana.json" in
  exists fs' text,
    dumps (Some 2%nat) v = Some text
    /\ _sanitize_content c false = Ok text
    /\ create_file p c false false Utf8 disk_empty_tmp = (Ok p, fs')
    /\ read_file p false Utf8 fs' = (Ok (Text text), fs')
    /\ loads text = Some v.
Proof.
  apply (create_file_json_default_roundtrip disk_empty_tmp
           (Child (Child tmp "dados") "ana.json")
           (CDict [(cps "nome", JStr (cps "Ana  Lima"));
                   (cps "notas", JList [JInt 7; JFloat (cps "-2.5"); JNull]);
                   (cps "extra", JDict [])])
           (JDict [(cps "nome", JStr (cps "Ana  Lima"));
                   (cps "notas", JList [JInt 7; JFloat (cps "-2.5"); JNull]);
                   (cps "extra", JDict [])]) false Utf8).
  - apply (bool_decide_eq_true_1 (tree_shaped disk_empty_tmp)). vm_compute. reflexivity.
  - reflexivity.
  - reflexivity.
  - reflexivity.
  - vm_compute. reflexivity.
  - unfold safe_nesting. cbn. lia.
Defined.

End JsonIndented.
